(** * Kommunity: the topic store of package [community]

    A shallow embedding of the file-backed topic store
    ([LoadTopics], [LoadRecentTopics], [SaveTopic], [AddReplyToTopic],
    [LoadTopicByRelativePath], [InitializeIfEmpty]) together with the
    parts of Go's [strings] and [path/filepath] packages it calls, and the
    properties of the store stated in the specification.  The agents
    file of package [agents], one round of the simulator, the two
    handlers of the web interface and the earlier version of the store
    are embedded on top of it.

    Go strings are byte strings; they are embedded as [string] (one
    [ascii] per byte).  Paths use the Unix separator. *)

From Stdlib Require Import Ascii ZArith Lia Bool Permutation.
From stdpp Require Import base option list gmap strings sorting pretty.

Local Open Scope Z_scope.
Local Open Scope nat_scope.

(** ** Package [strings] *)

Module GoStrings.

(** [len(s)] *)
Definition len (s : string) : nat := String.length s.

(** [strings.HasPrefix(s, prefix)] *)
Fixpoint HasPrefix (s pre : string) {struct pre} : bool :=
  match pre, s with
  | EmptyString, _ => true
  | String a pre', String b s' => Ascii.eqb a b && HasPrefix s' pre'
  | String _ _, EmptyString => false
  end.

(** [strings.HasSuffix(s, suffix)] *)
Definition HasSuffix (s suf : string) : bool :=
  HasPrefix (String.rev s) (String.rev suf).

(** [strings.ToLower] on a string of ASCII bytes, which Go lower-cases
    byte by byte: a byte in ['A'..'Z'] is moved by ['a' - 'A'], every
    other byte is kept.  A string that holds a byte outside ASCII goes
    through [unicode.ToLower] rune by rune in Go; that mapping is not
    embedded, the function below keeps such bytes, and the statements
    about generated file names are made for ASCII titles ([is_ascii]). *)
Definition lower_byte (c : ascii) : ascii :=
  let n := nat_of_ascii c in
  if (65 <=? n) && (n <=? 90) then ascii_of_nat (n + 32) else c.

Fixpoint ToLower (s : string) : string :=
  match s with
  | EmptyString => EmptyString
  | String c s' => String (lower_byte c) (ToLower s')
  end.

(** [strings.ReplaceAll(s, old, new)] for a one-byte [old], which is how
    the store calls it. *)
Fixpoint ReplaceAll (s : string) (old : ascii) (new : string) : string :=
  match s with
  | EmptyString => EmptyString
  | String c s' =>
      if Ascii.eqb c old then new +:+ ReplaceAll s' old new
      else String c (ReplaceAll s' old new)
  end.

(** The slice expression [s[:n]] for [n <= len(s)]. *)
Fixpoint slice_to (n : nat) (s : string) : string :=
  match n, s with
  | S n', String c s' => String c (slice_to n' s')
  | _, _ => EmptyString
  end.

(** [strings.Join(elems, "/")] *)
Fixpoint join_sep (l : list string) : string :=
  match l with
  | [] => ""
  | [x] => x
  | x :: xs => x +:+ "/" +:+ join_sep xs
  end.

(** The elements of a path between separators
    ([strings.Split(s, "/")]). *)
Fixpoint split_sep (s : string) : list string :=
  match s with
  | EmptyString => [""]
  | String c s' =>
      if Ascii.eqb c "/" then "" :: split_sep s'
      else match split_sep s' with
           | [] => [String c ""]
           | h :: t => String c h :: t
           end
  end.

End GoStrings.

Import GoStrings.

(** ** Package [path/filepath] (Unix) *)

Module Filepath.

(** [filepath.IsAbs] *)
Definition IsAbs (path : string) : bool := HasPrefix path "/".

(** One round of the loop of [filepath.Clean].  The loop reads the path
    element by element; its four cases are the four branches below.  The
    output buffer is kept as the number [ups] of leading [".."] elements
    (the [dotdot] mark) and the stack [stk] of the elements after them,
    last element first. *)
Definition clean_step (rooted : bool) (st : nat * list string)
    (elem : string) : nat * list string :=
  let '(ups, stk) := st in
  if decide (elem = "") then st               (* empty path element *)
  else if decide (elem = ".") then st         (* . element *)
  else if decide (elem = "..") then           (* .. element *)
    match stk with
    | _ :: stk' => (ups, stk')                (* can backtrack *)
    | [] => if rooted then st else (S ups, [])
    end
  else (ups, elem :: stk).                    (* real path element *)

Definition clean_elems (rooted : bool) (elems : list string)
    : nat * list string :=
  foldl (clean_step rooted) (0, []) elems.

Definition render (rooted : bool) (st : nat * list string) : string :=
  let '(ups, stk) := st in
  let body := join_sep (replicate ups ".." ++ rev stk) in
  if rooted then "/" +:+ body
  else if decide (body = "") then "." else body.

(** [filepath.Clean] *)
Definition Clean (path : string) : string :=
  let rooted := IsAbs path in
  render rooted (clean_elems rooted (split_sep path)).

(** [filepath.Join] of two elements: the first non-empty element onwards
    is joined with separators and cleaned. *)
Definition Join (a b : string) : string :=
  if decide (a = "") then
    if decide (b = "") then "" else Clean b
  else Clean (a +:+ "/" +:+ b).

(** [filepath.Dir]: everything up to and including the last separator,
    cleaned. *)
Definition Dir (path : string) : string :=
  Clean (join_sep (removelast (split_sep path) ++ [""])).

(** [filepath.Base] *)
Definition Base (path : string) : string :=
  match filter (λ e, e ≠ "") (split_sep path) with
  | [] => if decide (path = "") then "." else "/"
  | e :: es => List.last es e
  end.

(** [filepath.Abs], with the working directory of the process as an
    argument. *)
Definition Abs (cwd path : string) : string :=
  if IsAbs path then Clean path else Join cwd path.

(** The non-empty elements of a path. *)
Definition elements (path : string) : list string :=
  filter (λ e, e ≠ "") (split_sep path).

Fixpoint strip_common (b t : list string) : list string * list string :=
  match b, t with
  | x :: b', y :: t' =>
      if decide (x = y) then strip_common b' t' else (b, t)
  | _, _ => (b, t)
  end.

(** [filepath.Rel]: [None] is the error return. *)
Definition Rel (basepath targpath : string) : option string :=
  let base := Clean basepath in
  let targ := Clean targpath in
  if decide (targ = base) then Some "."
  else
    let base := if decide (base = ".") then "" else base in
    if negb (Bool.eqb (IsAbs base) (IsAbs targ)) then None
    else
      let '(b, t) := strip_common (elements base) (elements targ) in
      match b with
      | [] => Some (join_sep t)
      | e :: _ =>
          if decide (e = "..") then None
          else Some (join_sep (replicate (length b) ".." ++ t))
      end.

End Filepath.

Import Filepath.


(** ** Data model ([community.Topic], [Reply], [Config], [SeedTopic]) *)

Record Reply := mkReply {
  RAuthor : string;
  RContent : string;
  RTimestamp : string
}.

(** [Filename] carries the tag [json:"-"]: it is not part of the
    serialized form. *)
Record Topic := mkTopic {
  Title : string;
  Body : string;
  Author : string;
  Upvotes : Z;
  Downvotes : Z;
  Timestamp : string;
  Tags : list string;
  Replies : list Reply;
  Filename : string
}.

Record SeedTopic := mkSeedTopic {
  STitle : string;
  SBody : string;
  SAuthor : string;
  STags : list string
}.

Record Config := mkConfig {
  Domain : string;
  CTags : list string;
  SeedTopics : list SeedTopic
}.

Definition set_Filename (f : string) (t : Topic) : Topic :=
  mkTopic (Title t) (Body t) (Author t) (Upvotes t) (Downvotes t)
          (Timestamp t) (Tags t) (Replies t) f.

Definition set_Replies (rs : list Reply) (t : Topic) : Topic :=
  mkTopic (Title t) (Body t) (Author t) (Upvotes t) (Downvotes t)
          (Timestamp t) (Tags t) rs (Filename t).

Global Instance Reply_eq_dec : EqDecision Reply.
Proof. solve_decision. Defined.

Global Instance Topic_eq_dec : EqDecision Topic.
Proof. solve_decision. Defined.

(** ** Errors *)

(** [ENOENT], [ENOTDIR], [EISDIR] and [EEXIST] are the errors of package
    [os] the store can meet; [EJSON] is a decoding failure of
    [encoding/json]; [Errorf msg] is [fmt.Errorf] without a wrapped
    error, and [Wrap msg cause] is [fmt.Errorf("msg: %w", cause)]. *)
Inductive error :=
| ENOENT
| ENOTDIR
| EISDIR
| EEXIST
| EJSON
| Errorf (msg : string)
| Wrap (msg : string) (cause : error).

Inductive result (A : Type) :=
| Ok (a : A)
| Err (e : error).
Arguments Ok {A} a.
Arguments Err {A} e.

(** [os.IsNotExist]: it looks at the error itself, not through [%w]. *)
Definition IsNotExist (e : error) : bool :=
  match e with ENOENT => true | _ => false end.

(** ** The file system *)

Inductive node :=
| RegFile (data : string)
| Directory.

(** A file system maps the element list of an absolute path to what is
    there; the root directory (the empty list) always exists.  [cwd] is
    the working directory of the process, as the list of its elements,
    and [ticks] counts the readings of the wall clock. *)
Record World := mkWorld {
  cwd : list string;
  fs : gmap (list string) node;
  ticks : nat
}.

Definition set_fs (m : gmap (list string) node) (w : World) : World :=
  mkWorld (cwd w) m (ticks w).

Definition stat (m : gmap (list string) node) (k : list string) : option node :=
  match k with
  | [] => Some Directory
  | _ => m !! k
  end.

Definition abs_path (k : list string) : string := "/" +:+ join_sep k.

(** [os.Getwd] *)
Definition Getwd (w : World) : string := abs_path (cwd w).

(** The operating system resolves a path against the working directory. *)
Definition resolve (w : World) (path : string) : list string :=
  elements (Abs (Getwd w) path).

(** Programs run in the state monad over [World] with errors. *)
Definition IO (A : Type) : Type := World → World * result A.

Global Instance IO_ret : MRet IO := λ A a w, (w, Ok a).
Global Instance IO_bind : MBind IO := λ A B f c w,
  match c w with
  | (w', Ok a) => f a w'
  | (w', Err e) => (w', Err e)
  end.

Definition fail {A} (e : error) : IO A := λ w, (w, Err e).

(** [if err != nil { return fmt.Errorf("msg: %w", err) }] *)
Definition wrap {A} (msg : string) (c : IO A) : IO A := λ w,
  match c w with
  | (w', Err e) => (w', Err (Wrap msg e))
  | r => r
  end.

(** The operations of package [os] below look a path up with [stat].
    Where the kernel reports a path that crosses a regular file as
    [ENOTDIR], [Lstat], [ReadDir] and [ReadAll] report it as missing
    ([ENOENT]); the statements that depend on the difference are made
    for a way that crosses no regular file ([free_way] below). *)
Module OS.

(** [os.Lstat], as far as the walk needs it. *)
Definition Lstat (path : string) : IO node := λ w,
  match stat (fs w) (resolve w path) with
  | Some n => (w, Ok n)
  | None => (w, Err ENOENT)
  end.

(** The names in directory [k], sorted by name as [os.ReadDir] returns
    them. *)
Definition children (m : gmap (list string) node) (k : list string)
    : list string :=
  merge_sort String.le
    (omap (λ k', match reverse k' with
                 | name :: rparent =>
                     if decide (reverse rparent = k) then Some name else None
                 | [] => None
                 end)
          (map fst (map_to_list m))).

(** [os.ReadDir] *)
Definition ReadDir (path : string) : IO (list string) := λ w,
  let k := resolve w path in
  match stat (fs w) k with
  | None => (w, Err ENOENT)
  | Some (RegFile _) => (w, Err ENOTDIR)
  | Some Directory => (w, Ok (children (fs w) k))
  end.

(** [os.MkdirAll] on the element list: every missing directory on the
    way is created; a regular file on the way is an error. *)
Fixpoint mkdir_all (done todo : list string) (m : gmap (list string) node)
    : gmap (list string) node * option error :=
  match todo with
  | [] => (m, None)
  | e :: todo' =>
      let k := done ++ [e] in
      match stat m k with
      | Some Directory => mkdir_all k todo' m
      | Some (RegFile _) => (m, Some ENOTDIR)
      | None => mkdir_all k todo' (<[k := Directory]> m)
      end
  end.

Definition MkdirAll (path : string) : IO unit := λ w,
  match mkdir_all [] (resolve w path) (fs w) with
  | (m, None) => (set_fs m w, Ok ())
  | (m, Some e) => (set_fs m w, Err e)
  end.

Definition parent (k : list string) : list string := removelast k.

(** [os.WriteFile]: creates or truncates the file. *)
Definition WriteFile (path data : string) : IO unit := λ w,
  let k := resolve w path in
  match stat (fs w) (parent k) with
  | None => (w, Err ENOENT)
  | Some (RegFile _) => (w, Err ENOTDIR)
  | Some Directory =>
      match stat (fs w) k with
      | Some Directory => (w, Err EISDIR)
      | _ => (set_fs (<[k := RegFile data]> (fs w)) w, Ok ())
      end
  end.

(** [os.Rename] of a regular file (the store renames only the temporary
    file it has just written).  [os.Rename] looks at the new name before
    it calls the kernel: a directory there is reported as [EEXIST]. *)
Definition Rename (oldpath newpath : string) : IO unit := λ w,
  let ko := resolve w oldpath in
  let kn := resolve w newpath in
  match stat (fs w) ko with
  | None => (w, Err ENOENT)
  | Some Directory => (w, Err EISDIR)
  | Some (RegFile data) =>
      match stat (fs w) (parent kn) with
      | None => (w, Err ENOENT)
      | Some (RegFile _) => (w, Err ENOTDIR)
      | Some Directory =>
          match stat (fs w) kn with
          | Some Directory => (w, Err EEXIST)
          | _ => (set_fs (<[kn := RegFile data]> (delete ko (fs w))) w, Ok ())
          end
      end
  end.

(** [os.Open] followed by reading the whole file. *)
Definition ReadAll (path : string) : IO string := λ w,
  match stat (fs w) (resolve w path) with
  | None => (w, Err ENOENT)
  | Some Directory => (w, Err EISDIR)
  | Some (RegFile data) => (w, Ok data)
  end.

End OS.

(** ** External packages: [encoding/json], [time], [sort] *)

(** The store is parametric in the JSON codec and in the wall clock:
    [json_encode] is [json.MarshalIndent] on a topic payload,
    [json_decode_topic] and [json_decode_config] are [Decoder.Decode]
    ([None] when decoding fails), [rfc3339 n] is what
    [time.Now().Format(time.RFC3339)] yields at the [n]-th reading. *)
Class Libs := {
  json_encode : Topic → string;
  json_decode_topic : string → option Topic;
  json_decode_config : string → option Config;
  rfc3339 : nat → string
}.

(** [sort.Slice(xs, less)]: the result is ordered so that no element is
    [less] than one before it.  [sort.Slice] is not stable: the order of
    elements neither of which is [less] than the other is left open by
    the library, and the merge sort below fixes one such order. *)
Definition sort_Slice {A} (less : A → A → bool) (xs : list A) : list A :=
  merge_sort (λ x y, ¬ less y x) xs.

(** Walk order of [filepath.WalkDir]: lexical, directory by directory. *)
Fixpoint path_leb (a b : list string) : bool :=
  match a, b with
  | [], _ => true
  | _ :: _, [] => false
  | x :: a', y :: b' =>
      if decide (x = y) then path_leb a' b' else String.leb x y
  end.

Record DirEntry := mkDirEntry {
  entry_path : string;
  entry_Name : string;
  entry_IsDir : bool
}.

Definition is_dir (m : gmap (list string) node) (k : list string) : bool :=
  match stat m k with Some Directory => true | _ => false end.

Definition walk_keys (m : gmap (list string) node) (root : list string)
    : list (list string) :=
  merge_sort (λ a b, path_leb a b)
    (filter (λ k, root `prefix_of` k) (map fst (map_to_list m))).

(** [filepath.WalkDir(root, fn)]: the entries handed to [fn], in order, or
    the error of [os.Lstat] on a missing root (which [fn] receives and, in
    [LoadTopics], returns).  The path of an entry is built as the walk
    builds it, by joining names onto [root]. *)
Definition WalkDir (root : string) : IO (list DirEntry) := λ w,
  let k0 := resolve w root in
  match stat (fs w) k0 with
  | None => (w, Err ENOENT)
  | Some _ =>
      (w, Ok (map (λ k, mkDirEntry (foldl Join root (drop (length k0) k))
                                   (List.last k "")
                                   (is_dir (fs w) k))
                  (walk_keys (fs w) k0)))
  end.

(** ** Package [community] *)

Section Store.

Context `{Libs}.

Definition json_MarshalIndent (topic : Topic) : string :=
  json_encode (set_Filename "" topic).

Definition json_Decode_topic (data : string) : option Topic :=
  set_Filename "" <$> json_decode_topic data.

Definition time_Now_RFC3339 : IO string := λ w,
  (mkWorld (cwd w) (fs w) (S (ticks w)), Ok (rfc3339 (ticks w))).

(** [loadTopic] *)
Definition loadTopic (path : string) : IO Topic := λ w,
  match OS.ReadAll path w with
  | (_, Err ENOENT) => (w, Err (Wrap "opening topic file" ENOENT))
  | (_, Err e) => (w, Err (Wrap "decoding topic JSON" e))
  | (_, Ok data) =>
      match json_Decode_topic data with
      | None => (w, Err (Wrap "decoding topic JSON" EJSON))
      | Some topic => (w, Ok (set_Filename path topic))
      end
  end.

(** [loadConfig] *)
Definition loadConfig (path : string) : IO Config := λ w,
  match OS.ReadAll path w with
  | (_, Err ENOENT) => (w, Err (Wrap "opening config file" ENOENT))
  | (_, Err e) => (w, Err (Wrap "decoding config JSON" e))
  | (_, Ok data) =>
      match json_decode_config data with
      | None => (w, Err (Wrap "decoding config JSON" EJSON))
      | Some config => (w, Ok config)
      end
  end.

(** The callback of the walk in [LoadTopics], for an entry without
    error: what it appends to [topics]. *)
Definition visit (w : World) (absDir : string) (topics : list Topic)
    (d : DirEntry) : list Topic :=
  if entry_IsDir d then topics
  else if negb (HasSuffix (ToLower (entry_Name d)) ".json") then topics
  else
    match loadTopic (entry_path d) w with
    | (_, Err _) => topics                (* skip corrupted files silently *)
    | (_, Ok topic) =>
        let topic :=
          match Rel absDir (entry_path d) with
          | Some rel => set_Filename rel topic
          | None => topic
          end in
        topics ++ [topic]
    end.

Definition newer (a b : Topic) : bool :=
  String.ltb (Timestamp b) (Timestamp a).

(** [LoadTopics] *)
Definition LoadTopics (dir : string) : IO (list Topic) := λ w,
  let absDir := Abs (Getwd w) dir in
  match WalkDir absDir w with
  | (_, Err err) =>
      if IsNotExist err then (w, Ok [])
      else (w, Err (Wrap "walking community directory" err))
  | (_, Ok entries) =>
      (w, Ok (sort_Slice newer (foldl (visit w absDir) [] entries)))
  end.

(** [LoadRecentTopics] *)
Definition LoadRecentTopics (dir : string) (limit : Z) : IO (list Topic) :=
  topics ← LoadTopics dir;
  if ((0 <? limit) && (limit <? Z.of_nat (length topics)))%Z
  then mret (take (Z.to_nat limit) topics)
  else mret topics.

(** The file name [SaveTopic] generates from a title. *)
Definition derive_filename (title : string) : string :=
  let filename := ReplaceAll (ToLower title) " " "_" in
  let filename := ReplaceAll filename "'" "" in
  slice_to (Nat.min 50 (len filename)) filename +:+ ".json".

(** The second half of [SaveTopic], from [os.MkdirAll(filepath.Dir(path))]
    to the end: the atomic write and the assignment to [topic.Filename].
    Go passes [topic] by value: the function works on its own copy, and
    the value returned here is that copy as it stands at the final
    [return nil]. *)
Definition write_topic (topic : Topic) (absDir path : string) : IO Topic :=
  wrap "creating topic directory" (OS.MkdirAll (Dir path)) ;;
  let data := json_MarshalIndent topic in
  let tempFile := path +:+ ".tmp" in
  wrap "writing temp file" (OS.WriteFile tempFile data) ;;
  wrap "renaming temp file" (OS.Rename tempFile path) ;;
  mret (match Rel absDir path with
        | Some rel => set_Filename rel topic
        | None => set_Filename path topic
        end).

(** The body of [SaveTopic]: the choice of [path], then the write. *)
Definition SaveTopic_body (topic : Topic) (dir : string) : IO Topic := λ w0,
  let absDir := Abs (Getwd w0) dir in
  (path ← (if decide (Filename topic ≠ "") then
             mret (if IsAbs (Filename topic) then Filename topic
                   else Join absDir (Filename topic))
           else
             wrap "creating community directory" (OS.MkdirAll absDir) ;;
             mret (Join absDir (derive_filename (Title topic))));
   write_topic topic absDir path) w0.

(** [SaveTopic]: the caller receives the error only. *)
Definition SaveTopic (topic : Topic) (dir : string) : IO unit :=
  SaveTopic_body topic dir ;; mret ().

(** A call [err := SaveTopic(topic, dir)] seen from the caller: the error,
    and the caller's variable [topic] after the call.  The argument is
    copied into the parameter, so the caller's variable is what it was. *)
Definition call_SaveTopic (topic : Topic) (dir : string) : IO Topic :=
  SaveTopic topic dir ;; mret topic.

(** [AddReplyToTopic]: the loop over the loaded topics. *)
Fixpoint AddReply_loop (topics : list Topic) (topicTitle : string)
    (reply : Reply) (dir : string) : IO unit :=
  match topics with
  | [] => fail (Errorf ("topic not found: " +:+ topicTitle))
  | topic :: rest =>
      if decide (Title topic = topicTitle) then
        SaveTopic (set_Replies (Replies topic ++ [reply]) topic) dir
      else AddReply_loop rest topicTitle reply dir
  end.

Definition AddReplyToTopic (topicTitle : string) (reply : Reply)
    (dir : string) : IO unit :=
  topics ← LoadTopics dir;
  AddReply_loop topics topicTitle reply dir.

(** [LoadTopicByRelativePath] *)
Definition LoadTopicByRelativePath (dir relPath : string) : IO Topic := λ w,
  let absDir := Abs (Getwd w) dir in
  let clean := Clean relPath in
  if HasPrefix clean ".." then
    (w, Err (Errorf ("invalid topic path: " +:+ relPath)))
  else
    let path := Join absDir clean in
    match loadTopic path w with
    | (w', Err err) => (w', Err err)
    | (w', Ok topic) =>
        match Rel absDir path with
        | Some rel => (w', Ok (set_Filename rel topic))
        | None => (w', Ok topic)
        end
    end.

(** [InitializeIfEmpty]: the seeding loop. *)
Fixpoint seed_loop (seeds : list SeedTopic) : IO unit :=
  match seeds with
  | [] => mret ()
  | seed :: rest =>
      now ← time_Now_RFC3339;
      let topic := mkTopic (STitle seed) (SBody seed) (SAuthor seed)
                           0 0 now (STags seed) [] "" in
      wrap "saving seed topic" (SaveTopic topic "data/community") ;;
      seed_loop rest
  end.

(** [InitializeIfEmpty] (the progress line it prints is not modelled). *)
Definition InitializeIfEmpty (configPath : string) : IO unit := λ w,
  let after_listing (files : list string) : IO unit :=
    if decide (0 < length files) then mret ()
    else
      config ← wrap "loading config" (loadConfig configPath);
      seed_loop (SeedTopics config) in
  match OS.ReadDir "data/community" w with
  | (w1, Err err) =>
      if IsNotExist err then
        match OS.MkdirAll "data/community" w1 with
        | (w2, Err e) => (w2, Err (Wrap "creating community directory" e))
        | (w2, Ok _) => after_listing [] w2
        end
      else (w1, Err (Wrap "reading community directory" err))
  | (w1, Ok files) => after_listing files w1
  end.

End Store.

(** ** Path elements *)

(** A path element holds no separator. *)
Fixpoint has_sep (s : string) : bool :=
  match s with
  | EmptyString => false
  | String c s' => Ascii.eqb c "/" || has_sep s'
  end.

(** A real path element: a name a directory entry can carry. *)
Definition real_elem (e : string) : Prop :=
  e ≠ "" ∧ e ≠ "." ∧ e ≠ ".." ∧ has_sep e = false.

Global Instance real_elem_dec e : Decision (real_elem e).
Proof. unfold real_elem. apply _. Defined.

(** An element [Clean] drops or keeps: empty, [.], or a real name. *)
Definition plain_elem (e : string) : Prop := e = "" ∨ e = "." ∨ real_elem e.

(** ** Bytes of a derived file name *)

(** Every byte of a string passes a test. *)
Fixpoint all_bytes (P : ascii → bool) (s : string) : bool :=
  match s with
  | EmptyString => true
  | String c s' => P c && all_bytes P s'
  end.

(** A string of ASCII bytes other than NUL: on ASCII strings [ToLower]
    is [strings.ToLower], and no file name can hold a NUL byte. *)
Definition is_ascii (s : string) : bool :=
  all_bytes (λ c, (0 <? nat_of_ascii c) && (nat_of_ascii c <? 128)) s.

(** An upper-case ASCII letter. *)
Definition is_upper (c : ascii) : bool :=
  (65 <=? nat_of_ascii c) && (nat_of_ascii c <=? 90).

(** A byte [SaveTopic] lets into a generated file name: no upper-case
    ASCII letter, no space, no apostrophe. *)
Definition name_byte (c : ascii) : bool :=
  negb (is_upper c) && negb (Ascii.eqb c " ") && negb (Ascii.eqb c "'").

(** ** Vocabulary of the statements *)

(** Well-formed file systems: every entry carries a real name and sits in
    a directory. *)
Definition wf_fs (m : gmap (list string) node) : Prop :=
  map_Forall (λ k _, k ≠ [] ∧ Forall real_elem k ∧
                     is_dir m (removelast k) = true) m.

(** The store directory ready for new records: it exists, in a
    well-formed file system, and holds no directory. *)
Definition store_ready (m : gmap (list string) node) (root : list string)
    : Prop :=
  wf_fs m ∧ stat m root = Some Directory ∧
  ∀ e, is_dir m (root ++ [e]) = false.

(** No regular file lies on the way to [k] (or at [k]). *)
Definition free_way (m : gmap (list string) node) (k : list string) : Prop :=
  ∀ l data, l `prefix_of` k → stat m l ≠ Some (RegFile data).

(** The place of the temporary file [SaveTopic] writes next to [k]. *)
Definition tmp_key (k : list string) : list string :=
  removelast k ++ [List.last k "" +:+ ".tmp"].

(** The file system after the atomic write of [data] to [k]. *)
Definition rewrite_file (m : gmap (list string) node) (k : list string)
    (data : string) : gmap (list string) node :=
  <[k := RegFile data]> (delete (tmp_key k) m).


Section Vocabulary.

Context `{Libs}.

(** Reading a topic at a place of the file system, as [loadTopic] does it,
    with the location [rel] filled in. *)
Definition read_topic_at (w : World) (k : list string) (rel : string)
    : result Topic :=
  match stat (fs w) k with
  | None => Err (Wrap "opening topic file" ENOENT)
  | Some Directory => Err (Wrap "decoding topic JSON" EISDIR)
  | Some (RegFile data) =>
      match json_Decode_topic data with
      | None => Err (Wrap "decoding topic JSON" EJSON)
      | Some topic => Ok (set_Filename rel topic)
      end
  end.

(** The callback of the walk as a partial function of the entry. *)
Definition visit1 (w : World) (absDir : string) (d : DirEntry) : option Topic :=
  if entry_IsDir d then None
  else if negb (HasSuffix (ToLower (entry_Name d)) ".json") then None
  else
    match loadTopic (entry_path d) w with
    | (_, Err _) => None
    | (_, Ok topic) =>
        Some match Rel absDir (entry_path d) with
             | Some rel => set_Filename rel topic
             | None => topic
             end
    end.

(** The records [LoadTopics] has parsed, in walk order, before sorting. *)
Definition parsed (w : World) (dir : string) : list Topic :=
  let absDir := Abs (Getwd w) dir in
  match WalkDir absDir w with
  | (_, Ok entries) => foldl (visit w absDir) [] entries
  | (_, Err _) => []
  end.

(** The location of the entry [rest] below the store root. *)
Definition rel_of (rest : list string) : string :=
  if decide (rest = []) then "." else join_sep rest.

(** The record held by the entry [rest] below [root]: a regular file whose
    name ends in [.json] (in any case) and whose content decodes. *)
Definition record_at (w : World) (root rest : list string) : option Topic :=
  match fs w !! (root ++ rest) with
  | Some (RegFile data) =>
      if HasSuffix (ToLower (List.last (root ++ rest) "")) ".json"
      then set_Filename (rel_of rest) <$> json_Decode_topic data
      else None
  | _ => None
  end.

(** The entries of the file system at or below [root]. *)
Definition keys_below (m : gmap (list string) node) (root : list string)
    : list (list string) :=
  filter (λ k, root `prefix_of` k) (map fst (map_to_list m)).

(** The record [InitializeIfEmpty] builds from a seed entry at clock
    reading [now]. *)
Definition seed_topic (now : string) (seed : SeedTopic) : Topic :=
  mkTopic (STitle seed) (SBody seed) (SAuthor seed) 0 0 now (STags seed) [] "".

(** The file system after the atomic writes of the seed records, one after
    the other, the first at clock reading [n]. *)
Fixpoint seed_fs (root : list string) (n : nat) (seeds : list SeedTopic)
    (m : gmap (list string) node) : gmap (list string) node :=
  match seeds with
  | [] => m
  | seed :: rest =>
      seed_fs root (S n) rest
        (rewrite_file m (root ++ [derive_filename (STitle seed)])
           (json_MarshalIndent (seed_topic (rfc3339 n) seed)))
  end.

(** What [LoadTopics] returns (it has no error return in this model of
    the file system: a missing root yields the empty list). *)
Definition scan (w : World) (dir : string) : list Topic :=
  match (LoadTopics dir w).2 with
  | Ok topics => topics
  | Err _ => []
  end.

End Vocabulary.

(** ** A concrete instance for the examples *)

(** A codec and a clock to run the store on: topics are printed field by
    field, and the decoder recognises the documents of a given list of
    topics (any other text is not valid JSON for it). *)
Module Demo.

Definition show_reply (r : Reply) : string :=
  "{author:" +:+ RAuthor r +:+ ",content:" +:+ RContent r
  +:+ ",timestamp:" +:+ RTimestamp r +:+ "}".

Definition show_topic (t : Topic) : string :=
  "{title:" +:+ Title t +:+ ",body:" +:+ Body t +:+ ",author:" +:+ Author t
  +:+ ",upvotes:" +:+ pretty (Upvotes t)
  +:+ ",downvotes:" +:+ pretty (Downvotes t)
  +:+ ",timestamp:" +:+ Timestamp t
  +:+ ",tags:[" +:+ String.concat "," (Tags t) +:+ "]"
  +:+ ",replies:[" +:+ String.concat "," (map show_reply (Replies t)) +:+ "]}".

Definition libs (known : list Topic) (cfg : option Config) : Libs := {|
  json_encode := show_topic;
  json_decode_topic := λ data,
    snd <$> list_find (λ t, show_topic (set_Filename "" t) = data) known;
  json_decode_config := λ data, if decide (data = "config") then cfg else None;
  rfc3339 := λ n, "2024-01-01T00:00:0" +:+ pretty n +:+ "Z"
|}.

Definition root : list string := ["srv"; "app"; "data"; "community"].

Definition dirs : list (list string * node) :=
  [(["srv"], Directory); (["srv"; "app"], Directory);
   (["srv"; "app"; "data"], Directory); (root, Directory)].

Definition world (files : list (string * string)) : World :=
  mkWorld ["srv"; "app"]
    (list_to_map (dirs ++ map (λ f, (root ++ [f.1], RegFile f.2)) files)) 0.

Definition files : list (string * string) :=
  [("hello_world.json",
    "{title:Hello World,body:b1,author:plato,upvotes:0,downvotes:0,"
    +:+ "timestamp:2024-01-01T00:00:00Z,tags:[],replies:[]}");
   ("second.JSON",
    "{title:Second,body:b2,author:kant,upvotes:0,downvotes:0,"
    +:+ "timestamp:2024-01-02T00:00:00Z,tags:[x],replies:[]}");
   ("bad.json", "{oops")].

Definition hello : Topic :=
  mkTopic "Hello World" "b1" "plato" 0 0 "2024-01-01T00:00:00Z" [] [] "".

Definition second : Topic :=
  mkTopic "Second" "b2" "kant" 0 0 "2024-01-02T00:00:00Z" ["x"] [] "".

(** A store with one well-formed record and one corrupt file. *)
Definition small_store : World := world (take 1 files ++ drop 2 files).

(** A store with two well-formed records and one corrupt file. *)
Definition store : World := world files.

Definition store_libs : Libs := libs [hello; second] None.

(** The same store with a directory where the temporary file of
    [second.JSON] would be written. *)
Definition blocked_store : World :=
  set_fs (<[root ++ ["second.JSON.tmp"] := Directory]> (fs store)) store.

Definition a_reply : Reply := mkReply "a" "c" "2024-01-01T00:00:00Z".

(** An empty store, and two records whose titles differ. *)
Definition empty_store : World := world [].

Definition hello_again : Topic :=
  mkTopic "hello_world" "b3" "hume" 0 0 "2024-01-03T00:00:00Z" [] [] "".

Definition twin_libs : Libs := libs [hello; hello_again] None.

(** A process whose store directory does not exist yet, with a seed
    file of two entries, and seed files whose entries derive one name. *)
Definition seed_world : World :=
  mkWorld ["srv"; "app"]
    (list_to_map (take 3 dirs ++
       [(["srv"; "app"; "data"; "config.json"], RegFile "config")])) 0.

Definition seeds : Config :=
  mkConfig "philosophy" ["ethics"]
    [mkSeedTopic "The Cave" "shadows" "seed" ["plato"];
     mkSeedTopic "What is virtue?" "on virtue" "seed" []].

Definition twin_seeds : Config :=
  mkConfig "philosophy" ["ethics"]
    [mkSeedTopic "The Cave" "shadows" "seed" ["plato"];
     mkSeedTopic "the cave" "again" "seed" []].

(** Records whose titles hold a path separator. *)
Definition nested : Topic :=
  mkTopic "Mind/Body" "b4" "plato" 0 0 "2024-01-04T00:00:00Z" [] [] "".

Definition escaping : Topic :=
  mkTopic "../Escape" "b5" "plato" 0 0 "2024-01-05T00:00:00Z" [] [] "".

(** A store whose one record file bears a name that begins with two
    dots. *)
Definition dotted_store : World := world [("..topic.json", show_topic hello)].

(** A store holding a directory that carries the name of a record file,
    and a record whose generated name is that name. *)
Definition shadowed_store : World :=
  set_fs (<[root ++ ["archive.json"] := Directory]> (fs store)) store.

Definition archive : Topic :=
  mkTopic "Archive" "b6" "hume" 0 0 "2024-01-06T00:00:00Z" [] [] "".

End Demo.

(** ** Package [agents] *)

Module Agents.

(** An agent.  The traits are [float64] values the program carries and
    never computes with: they are kept as their 64-bit patterns. *)
Record Agent := mkAgent {
  ID : string;
  Name : string;
  Style : string;
  Courage : N;
  Empathy : N;
  Elegance : N
}.

(** [encoding/json] on [[]Agent]: [json_encode_agents] is
    [json.MarshalIndent], which returns an error for a trait that is no
    finite number; [json_decode_agents] is [Decoder.Decode] ([None] when
    decoding fails). *)
Class Codec := {
  json_encode_agents : list Agent → result string;
  json_decode_agents : string → option (list Agent)
}.

Section Agents.

Context `{Codec}.

(** [LoadAgents] *)
Definition LoadAgents (filename : string) : IO (list Agent) := λ w,
  match OS.ReadAll filename w with
  | (_, Err ENOENT) => (w, Err (Wrap "opening agents file" ENOENT))
  | (_, Err e) => (w, Err (Wrap "decoding agents JSON" e))
  | (_, Ok data) =>
      match json_decode_agents data with
      | None => (w, Err (Wrap "decoding agents JSON" EJSON))
      | Some agents => (w, Ok agents)
      end
  end.

(** [SaveAgents] *)
Definition SaveAgents (agents : list Agent) (filename : string) : IO unit :=
  data ← wrap "marshaling agents" (λ w, (w, json_encode_agents agents));
  (* Atomic write *)
  let tempFile := filename +:+ ".tmp" in
  wrap "writing temp file" (OS.WriteFile tempFile data) ;;
  wrap "renaming temp file" (OS.Rename tempFile filename) ;;
  mret ().

End Agents.

End Agents.

(** ** The simulator ([main.go]) *)

Module Simulator.

Import Agents.

(** What one round takes from outside the program: the answer of the
    language model to a prompt ([ollama.GenerateResponse]), the outcome
    of the test [rand.Float64() < 0.15], and the number behind
    [rand.Intn(n)], which yields [pick mod n]. *)
Record Draws := mkDraws {
  GenerateResponse : string → result string;
  create_roll : bool;
  pick : nat
}.

Definition newline : string := String (ascii_of_nat 10) EmptyString.

Section Simulator.

Context `{Libs}.

Variable draws : Draws.

(** [decideAction] *)
Definition decideAction (agent : Agent) (topics : list Topic) : string :=
  if (length topics =? 0) || create_roll draws then "create_topic"
  else "reply".

(** [createNewTopic] (the progress lines it prints are not modelled). *)
Definition createNewTopic (agent : Agent) : IO unit :=
  let prompt :=
    "You are " +:+ Name agent +:+ ", " +:+ Style agent
    +:+ ". Create an interesting discussion topic for our community."
    +:+ " Keep it to 1-2 sentences." in
  content ← wrap "generating topic" (λ w, (w, GenerateResponse draws prompt));
  now ← time_Now_RFC3339;
  let topic := mkTopic content content (ID agent) 0 0 now [] [] "" in
  wrap "saving topic" (SaveTopic topic "data/community") ;;
  mret ().

(** The lines of [replyToTopic] that list the earlier replies:
    [fmt.Sprintf("%d. %s: %s\n", i+1, reply.Author, reply.Content)]. *)
Fixpoint previous_replies (i : nat) (replies : list Reply) : string :=
  match replies with
  | [] => ""
  | reply :: rest =>
      pretty (i + 1) +:+ ". " +:+ RAuthor reply +:+ ": " +:+ RContent reply
      +:+ newline +:+ previous_replies (S i) rest
  end.

(** [replyToTopic] *)
Definition replyToTopic (agent : Agent) (topic : Topic) : IO unit :=
  (* Build conversation context *)
  let context :=
    "Original Topic: " +:+ Title topic +:+ newline +:+ newline +:+ Body topic in
  let context :=
    if decide (0 < length (Replies topic)) then
      context +:+ newline +:+ newline +:+ "Previous Replies:" +:+ newline
      +:+ previous_replies 0 (Replies topic)
    else context in
  let prompt :=
    "You are " +:+ Name agent +:+ ", " +:+ Style agent
    +:+ ". Here is the ongoing discussion:" +:+ newline +:+ newline
    +:+ context +:+ newline +:+ newline
    +:+ "Please provide a thoughtful reply that adds value to this"
    +:+ " conversation. Keep your response to 1-2 sentences." in
  content ← wrap "generating reply" (λ w, (w, GenerateResponse draws prompt));
  now ← time_Now_RFC3339;
  let reply := mkReply (ID agent) content now in
  wrap "adding reply" (AddReplyToTopic (Title topic) reply "data/community") ;;
  mret ().

(** [performAgentAction] *)
Definition performAgentAction (agent : Agent) : IO unit :=
  (* Load recent topics *)
  topics ← wrap "loading topics" (LoadRecentTopics "data/community" 5);
  (* Decide action *)
  let action := decideAction agent topics in
  if decide (action = "create_topic") then createNewTopic agent
  else if decide (action = "reply") then
    match topics with
    | [] => mret ()
    | first :: _ =>
        let selectedTopic := nth (pick draws mod length topics) topics first in
        replyToTopic agent selectedTopic
    end
  else mret ().

End Simulator.

End Simulator.

(** ** The web interface ([server.go]) *)

Module Server.

(** [strings.TrimPrefix] *)
Fixpoint slice_from (n : nat) (s : string) : string :=
  match n, s with
  | S n', String _ s' => slice_from n' s'
  | _, _ => s
  end.

Definition TrimPrefix (s pre : string) : string :=
  if HasPrefix s pre then slice_from (len pre) s else s.

(** [filepath.ToSlash]: the separator is the slash already. *)
Definition ToSlash (path : string) : string := path.

Record topicSummary := mkSummary {
  SumTitle : string;
  SumAuthor : string;
  SumTimestamp : string;
  SumWhen : string;
  SumSnippet : string;
  SumTags : list string;
  SumReplyCount : Z;
  SumPath : string
}.

Record topicDetail := mkDetail {
  DetTitle : string;
  DetBody : string;
  DetAuthor : string;
  DetTimestamp : string;
  DetWhen : string;
  DetTags : list string;
  DetReplies : list Reply
}.

(** The values handed to the templates ([gin.H]). *)
Inductive H :=
| IndexPage (Topics : list topicSummary) (Count : Z)
| TopicPage (Topic : topicDetail) (FilePath LinkPath : string).

(** What a handler writes to its context: [c.String], [c.Redirect] or
    [c.HTML]. *)
Inductive Response :=
| String_ (code : Z) (format : string) (err : error)
| Redirect (code : Z) (location : string)
| HTML (code : Z) (name : string) (obj : H).

Definition StatusOK : Z := 200.
Definition StatusFound : Z := 302.
Definition StatusNotFound : Z := 404.
Definition StatusInternalServerError : Z := 500.

(** [toURLPath] *)
Definition toURLPath (rel : string) : string :=
  if decide (rel = "") then ""
  else "/topic/" +:+ TrimPrefix (ToSlash rel) "/".

Section Handlers.

Context `{Libs}.

(** [formatTime] and [buildSnippet] format one field each for display;
    the handlers are modelled for any such pair of functions. *)
Variables formatTime buildSnippet : string → string.

Definition summary (t : Topic) : topicSummary :=
  mkSummary (Title t) (Author t) (Timestamp t) (formatTime (Timestamp t))
            (buildSnippet (Body t)) (Tags t) (Z.of_nat (length (Replies t)))
            (toURLPath (Filename t)).

(** The handler of [GET /]. *)
Definition index_handler : World → World * Response := λ w,
  match LoadTopics "data/community" w with
  | (w', Err err) =>
      (w', String_ StatusInternalServerError "failed to load topics: %v" err)
  | (w', Ok topics) =>
      let summaries := map summary topics in
      (w', HTML StatusOK "index.tmpl"
             (IndexPage summaries (Z.of_nat (length summaries))))
  end.

(** The handler of [GET /topic/*topicPath]; [param] is
    [c.Param("topicPath")]. *)
Definition topic_handler (param : string) : World → World * Response := λ w,
  let rel := TrimPrefix param "/" in
  if decide (rel = "") then (w, Redirect StatusFound "/")
  else
    match LoadTopicByRelativePath "data/community" rel w with
    | (w', Err err) => (w', String_ StatusNotFound "topic not found: %v" err)
    | (w', Ok topic) =>
        let detail :=
          mkDetail (Title topic) (Body topic) (Author topic) (Timestamp topic)
                   (formatTime (Timestamp topic)) (Tags topic) (Replies topic) in
        (w', HTML StatusOK "topic.tmpl"
               (TopicPage detail (ToSlash (Filename topic))
                          (toURLPath (Filename topic))))
    end.

End Handlers.

End Server.

(** ** The earlier version of the store ([community/topics.go]) *)

(** The earlier [LoadRecentTopics], [SaveTopic] and [AddReplyToTopic]
    read one directory with [os.ReadDir], take the paths as they are
    given, and know no [Filename]: the field stays empty in the records
    of this module. *)
Module Legacy.

(** A function that returns or panics. *)
Inductive outcome (A : Type) :=
| Returned (r : result A)
| Panic (msg : string).
Arguments Returned {A} r.
Arguments Panic {A} msg.

(** [os.ReadDir] returns the entries sorted by file name. *)
Definition ReadDir (path : string) : IO (list string) := λ w,
  match OS.ReadDir path w with
  | (w', Ok names) => (w', Ok (merge_sort (λ a b, String.leb a b) names))
  | r => r
  end.

Section Legacy.

Context `{Libs}.

(** [loadTopic] *)
Definition loadTopic (path : string) : IO Topic := λ w,
  match OS.ReadAll path w with
  | (_, Err ENOENT) => (w, Err (Wrap "opening topic file" ENOENT))
  | (_, Err e) => (w, Err (Wrap "decoding topic JSON" e))
  | (_, Ok data) =>
      match json_Decode_topic data with
      | None => (w, Err (Wrap "decoding topic JSON" EJSON))
      | Some topic => (w, Ok topic)
      end
  end.

(** The body of the loop of [LoadRecentTopics]. *)
Definition collect (w : World) (dir : string) (topics : list Topic)
    (name : string) : list Topic :=
  if HasSuffix name ".json" then
    match loadTopic (Join dir name) w with
    | (_, Err _) => topics                      (* Skip corrupted files *)
    | (_, Ok topic) => topics ++ [topic]
    end
  else topics.

(** [LoadRecentTopics]; the slice expression [topics[:limit]] panics for
    a negative [limit]. *)
Definition LoadRecentTopics (dir : string) (limit : Z)
    : World → World * outcome (list Topic) := λ w,
  match ReadDir dir w with
  | (w', Err err) =>
      (w', Returned (Err (Wrap "reading community directory" err)))
  | (w', Ok files) =>
      let topics := foldl (collect w' dir) [] files in
      (* Sort by timestamp (newest first) *)
      let topics := sort_Slice newer topics in
      if (limit <? Z.of_nat (length topics))%Z then
        if (limit <? 0)%Z then (w', Panic "slice bounds out of range")
        else (w', Returned (Ok (take (Z.to_nat limit) topics)))
      else (w', Returned (Ok topics))
  end.

(** [SaveTopic] *)
Definition SaveTopic (topic : Topic) (dir : string) : IO unit :=
  (* Create directory if it doesn't exist *)
  wrap "creating community directory" (OS.MkdirAll dir) ;;
  (* Generate filename from title (simplified) *)
  let filename := derive_filename (Title topic) in
  let path := Join dir filename in
  let data := json_MarshalIndent topic in
  (* Atomic write *)
  let tempFile := path +:+ ".tmp" in
  wrap "writing temp file" (OS.WriteFile tempFile data) ;;
  wrap "renaming temp file" (OS.Rename tempFile path) ;;
  mret ().

(** [AddReplyToTopic]: the loop over the directory entries. *)
Fixpoint AddReply_loop (files : list string) (topicTitle : string)
    (reply : Reply) (dir : string) : IO unit :=
  match files with
  | [] => fail (Errorf ("topic not found: " +:+ topicTitle))
  | name :: rest =>
      if HasSuffix name ".json" then
        λ w,
          match loadTopic (Join dir name) w with
          | (_, Err _) => AddReply_loop rest topicTitle reply dir w
          | (_, Ok topic) =>
              if decide (Title topic = topicTitle) then
                SaveTopic (set_Replies (Replies topic ++ [reply]) topic) dir w
              else AddReply_loop rest topicTitle reply dir w
          end
      else AddReply_loop rest topicTitle reply dir
  end.

(** [AddReplyToTopic] *)
Definition AddReplyToTopic (topicTitle : string) (reply : Reply)
    (dir : string) : IO unit :=
  files ← wrap "reading community directory" (ReadDir dir);
  AddReply_loop files topicTitle reply dir.

End Legacy.

End Legacy.

(** ** Instances for the examples of the simulator and the server *)

Module DemoSim.

Import Agents Simulator.

Definition plato : Agent := mkAgent "plato" "Plato" "a patient questioner" 0 0 0.

Definition show_agent (a : Agent) : string :=
  "{id:" +:+ ID a +:+ ",name:" +:+ Name a +:+ ",style:" +:+ Style a
  +:+ ",courage:" +:+ pretty (Courage a) +:+ ",empathy:" +:+ pretty (Empathy a)
  +:+ ",elegance:" +:+ pretty (Elegance a) +:+ "}".

Definition show_agents (l : list Agent) : string :=
  "[" +:+ String.concat "," (map show_agent l) +:+ "]".

(** A codec for agent lists that recognises the documents of a given
    list of agent lists. *)
Definition codec (known : list (list Agent)) : Codec := {|
  json_encode_agents := λ l, Ok (show_agents l);
  json_decode_agents := λ data,
    snd <$> list_find (λ l, show_agents l = data) known
|}.

(** A language model that answers every prompt with the same text, and
    one that is not reachable. *)
Definition answers (text : string) (roll : bool) (n : nat) : Draws :=
  mkDraws (λ _, Ok text) roll n.

Definition silent (roll : bool) (n : nat) : Draws :=
  mkDraws (λ _, Err (Errorf "making HTTP request")) roll n.

Definition first_topic : Topic :=
  mkTopic "What is justice" "What is justice" "plato" 0 0
          "2024-01-01T00:00:00Z" [] [] "".



(** A store whose one record file does not bear the name its title
    derives. *)
Definition misnamed_store : World :=
  Demo.world [("first.json", Demo.show_topic Demo.hello)].

End DemoSim.

(** * Properties *)

(** ** Strings and path elements *)

Example clean_examples :
  Clean "../../etc/passwd" = "../../etc/passwd" ∧
  Clean "sub/a.json" = "sub/a.json" ∧
  Clean "a/../../b" = "../b" ∧
  Clean "/../a" = "/a" ∧
  Clean "" = "." ∧
  Clean "a//b/./c/.." = "a/b" ∧
  Clean "/" = "/" ∧
  Clean "..topic.json" = "..topic.json" ∧
  Join "/srv/data" "sub/a.json" = "/srv/data/sub/a.json" ∧
  Dir "/srv/data/a.json" = "/srv/data" ∧
  Dir "a.json" = "." ∧
  Base "/srv/data/a.json" = "a.json" ∧
  Rel "/srv/data" "/srv/data/sub/a.json" = Some "sub/a.json" ∧
  Rel "/a/b" "/a" = Some ".." ∧
  Rel "/a" "/" = Some ".." ∧
  Rel "/a/b" "/a/c/d" = Some "../c/d".
Proof. vm_compute. repeat split. Qed.


Section StringFacts.

Lemma app_cons_s (x : ascii) (a b : string) :
  String x a +:+ b = String x (a +:+ b).
Proof. done. Qed.

Lemma app_nil_l_s (s : string) : "" +:+ s = s.
Proof. done. Qed.

Lemma app_nil_r_s (s : string) : s +:+ "" = s.
Proof. induction s as [|c s IH]; [done|]. by rewrite app_cons_s, IH. Qed.

Lemma app_assoc_s (a b c : string) : (a +:+ b) +:+ c = a +:+ b +:+ c.
Proof. induction a as [|x a IH]; [done|]. by rewrite !app_cons_s, IH. Qed.

Lemma length_app_s (a b : string) :
  String.length (a +:+ b) = String.length a + String.length b.
Proof.
  induction a as [|x a IH]; [done|]. rewrite app_cons_s. simpl. by rewrite IH.
Qed.

End StringFacts.



Section SplitJoin.

Lemma split_sep_nonempty s : split_sep s ≠ [].
Proof.
  destruct s as [|c s]; simpl; [done|].
  destruct (Ascii.eqb c "/"); [done|]. by destruct (split_sep s).
Qed.

Lemma split_sep_no_sep s : has_sep s = false → split_sep s = [s].
Proof.
  induction s as [|c s IH]; simpl; [done|].
  destruct (Ascii.eqb c "/"); simpl; [done|].
  intros Hs. by rewrite (IH Hs).
Qed.

Lemma split_sep_cons_sep s : split_sep (String "/" s) = "" :: split_sep s.
Proof. done. Qed.

Lemma split_sep_app_sep a b :
  split_sep (a +:+ String "/" b) = split_sep a ++ split_sep b.
Proof.
  induction a as [|c a IH]; [done|].
  rewrite app_cons_s. simpl. destruct (Ascii.eqb c "/").
  - by rewrite IH.
  - rewrite IH. pose proof (split_sep_nonempty a).
    by destruct (split_sep a).
Qed.

Lemma split_sep_elems_no_sep s : Forall (λ e, has_sep e = false) (split_sep s).
Proof.
  induction s as [|c s IH]; simpl.
  - by constructor.
  - destruct (Ascii.eqb c "/") eqn:Hc.
    + by constructor.
    + pose proof (split_sep_nonempty s).
      destruct (split_sep s) as [|h t]; [done|].
      inversion IH; subst. constructor; [|done]. simpl. by rewrite Hc.
Qed.

Lemma split_sep_join l :
  l ≠ [] → Forall (λ e, has_sep e = false) l → split_sep (join_sep l) = l.
Proof.
  induction l as [|x l IH]; [done|]. intros _ Hl.
  inversion Hl as [|?? Hx Hl']; subst.
  destruct l as [|y l].
  - simpl. by apply split_sep_no_sep.
  - change (join_sep (x :: y :: l)) with (x +:+ String "/" (join_sep (y :: l))).
    rewrite split_sep_app_sep, split_sep_no_sep by done.
    by rewrite IH.
Qed.

Lemma join_sep_cons x l :
  l ≠ [] → join_sep (x :: l) = x +:+ String "/" (join_sep l).
Proof. by destruct l. Qed.

Lemma join_sep_app l1 l2 :
  l1 ≠ [] → l2 ≠ [] →
  join_sep (l1 ++ l2) = join_sep l1 +:+ String "/" (join_sep l2).
Proof.
  induction l1 as [|x l1 IH]; [done|]. intros _ Hl2.
  destruct l1 as [|y l1].
  - simpl. by destruct l2.
  - change ((x :: y :: l1) ++ l2) with (x :: (y :: l1) ++ l2).
    rewrite join_sep_cons by done. rewrite IH by done.
    rewrite (join_sep_cons x (y :: l1)) by done.
    by rewrite app_assoc_s.
Qed.

Lemma real_elem_no_sep e : real_elem e → has_sep e = false.
Proof. by intros (_ & _ & _ & ?). Qed.

Lemma Forall_real_no_sep l :
  Forall real_elem l → Forall (λ e, has_sep e = false) l.
Proof. intros Hl. eapply Forall_impl; [exact Hl|]. apply real_elem_no_sep. Qed.

End SplitJoin.

(** ** [filepath.Clean] on absolute paths *)



Section CleanFacts.

Lemma real_elem_plain e : real_elem e → plain_elem e.
Proof. intros. by right; right. Qed.

Lemma Forall_real_plain l : Forall real_elem l → Forall plain_elem l.
Proof. intros Hl. eapply Forall_impl; [exact Hl|]. apply real_elem_plain. Qed.

Lemma foldl_step {A B} (f : A → B → A) a x l :
  foldl f a (x :: l) = foldl f (f a x) l.
Proof. done. Qed.

Lemma clean_step_real r u stk e :
  real_elem e → clean_step r (u, stk) e = (u, e :: stk).
Proof.
  intros (? & ? & ? & _). unfold clean_step.
  by repeat (case_decide; [done|]).
Qed.

Lemma foldl_clean_plain r u stk l :
  Forall plain_elem l →
  foldl (clean_step r) (u, stk) l = (u, rev (filter real_elem l) ++ stk).
Proof.
  revert stk. induction l as [|e l IH]; intros stk Hl; [done|].
  inversion Hl as [|?? He Hl']; subst. rewrite foldl_step.
  destruct (decide (real_elem e)) as [Hr|Hr].
  - rewrite clean_step_real, IH by done.
    rewrite filter_cons_True by done. simpl. by rewrite <- app_assoc.
  - rewrite filter_cons_False by done.
    destruct He as [->|[->|?]]; [| |done]; by rewrite <- IH.
Qed.

Lemma filter_real_all l : Forall real_elem l → filter real_elem l = l.
Proof.
  induction 1 as [|e l He Hl IH]; [done|].
  by rewrite filter_cons_True, IH.
Qed.

Lemma filter_nonempty_real l :
  Forall real_elem l → filter (λ e, e ≠ "") l = l.
Proof.
  induction 1 as [|e l He Hl IH]; [done|].
  rewrite filter_cons_True by apply He. by rewrite IH.
Qed.

Lemma abs_path_cons (k : list string) : abs_path k = String "/" (join_sep k).
Proof. done. Qed.

Lemma IsAbs_abs_path k : IsAbs (abs_path k) = true.
Proof. rewrite abs_path_cons. unfold IsAbs, HasPrefix. simpl.
       destruct (join_sep k); by simpl. Qed.

Lemma IsAbs_abs_path_app k s : IsAbs (abs_path k +:+ s) = true.
Proof. rewrite abs_path_cons, app_cons_s. unfold IsAbs, HasPrefix. simpl.
       destruct (join_sep k +:+ s); by simpl. Qed.

Lemma abs_path_nonempty k : abs_path k ≠ "".
Proof. by rewrite abs_path_cons. Qed.

Lemma plain_no_sep l :
  Forall plain_elem l → Forall (λ e, has_sep e = false) l.
Proof.
  intros Hl. eapply Forall_impl; [exact Hl|].
  intros e [->|[->|He]]; [done..|]. by apply real_elem_no_sep.
Qed.

(** The elements of the text [/e1/.../en]. *)
Lemma split_abs_path l :
  Forall plain_elem l →
  split_sep (abs_path l) = "" :: (if decide (l = []) then [""] else l).
Proof.
  intros Hl. rewrite abs_path_cons, split_sep_cons_sep. f_equal.
  case_decide as Hnil; [by subst|].
  apply split_sep_join; [done|]. by apply plain_no_sep.
Qed.

Lemma clean_elems_abs_path l u stk :
  Forall plain_elem l →
  foldl (clean_step true) (u, stk) (split_sep (abs_path l))
  = (u, rev (filter real_elem l) ++ stk).
Proof.
  intros Hl. rewrite split_abs_path by done. rewrite foldl_step.
  case_decide as Hnil; [by subst|].
  by apply foldl_clean_plain.
Qed.

Lemma Clean_abs_path_plain l :
  Forall plain_elem l → Clean (abs_path l) = abs_path (filter real_elem l).
Proof.
  intros Hl. unfold Clean, clean_elems. rewrite IsAbs_abs_path.
  rewrite clean_elems_abs_path by done. unfold render. simpl.
  by rewrite app_nil_r, rev_involutive.
Qed.

Lemma Clean_abs_path k : Forall real_elem k → Clean (abs_path k) = abs_path k.
Proof.
  intros Hk. rewrite Clean_abs_path_plain by by apply Forall_real_plain.
  by rewrite filter_real_all.
Qed.

Lemma elements_abs_path k : Forall real_elem k → elements (abs_path k) = k.
Proof.
  intros Hk. unfold elements.
  rewrite split_abs_path by by apply Forall_real_plain.
  rewrite filter_cons_False by naive_solver.
  case_decide; [by subst|]. by apply filter_nonempty_real.
Qed.

Lemma abs_path_inj k1 k2 :
  Forall real_elem k1 → Forall real_elem k2 →
  abs_path k1 = abs_path k2 → k1 = k2.
Proof.
  intros H1 H2 Heq.
  by rewrite <- (elements_abs_path k1), <- (elements_abs_path k2), Heq.
Qed.

(** The state of [Clean]'s loop keeps real names only, and a rooted path
    never collects leading [..] elements. *)
Lemma clean_step_inv r u stk e :
  has_sep e = false → Forall real_elem stk → (r = true → u = 0) →
  Forall real_elem (clean_step r (u, stk) e).2 ∧
  (r = true → (clean_step r (u, stk) e).1 = 0).
Proof.
  intros He Hstk Hu. unfold clean_step.
  repeat case_decide; simpl; try done.
  - destruct stk as [|x stk]; simpl.
    + destruct r; simpl; [done|]. split; [done|]. done.
    + inversion Hstk; subst. done.
  - split; [|done]. constructor; [|done]. done.
Qed.

Lemma foldl_clean_inv r l : ∀ u stk,
  Forall (λ e, has_sep e = false) l → Forall real_elem stk →
  (r = true → u = 0) →
  Forall real_elem (foldl (clean_step r) (u, stk) l).2 ∧
  (r = true → (foldl (clean_step r) (u, stk) l).1 = 0).
Proof.
  induction l as [|e l IH]; intros u stk Hl Hstk Hu; [done|].
  inversion Hl; subst. rewrite foldl_step.
  destruct (clean_step_inv r u stk e) as [Hs Hz]; [done..|].
  destruct (clean_step r (u, stk) e) as [u' stk']. by apply IH.
Qed.

(** [Clean] of an absolute path is the text of a list of real names. *)
Lemma Clean_rooted p :
  IsAbs p = true →
  ∃ k, Forall real_elem k ∧ Clean p = abs_path k.
Proof.
  intros Hp. unfold Clean, clean_elems. rewrite Hp.
  destruct (foldl_clean_inv true (split_sep p) 0 []) as [Hs Hz];
    [apply split_sep_elems_no_sep|done..|].
  destruct (foldl _ _ _) as [u stk]. simpl in *. rewrite Hz by done.
  exists (rev stk). split; [|done].
  by apply Forall_rev.
Qed.

End CleanFacts.

(** ** [Abs], [Join], [Rel] and [Dir] on the paths of the store *)

Section PathFacts.

(** [filepath.Abs] yields the text of the list of names the operating
    system resolves the path to. *)
Lemma Abs_resolve w p :
  Forall real_elem (resolve w p) ∧ Abs (Getwd w) p = abs_path (resolve w p).
Proof.
  assert (∃ k, Forall real_elem k ∧ Abs (Getwd w) p = abs_path k)
    as (k & Hk & Heq).
  { unfold Abs. destruct (IsAbs p) eqn:Hp; [by apply Clean_rooted|].
    unfold Join. rewrite decide_False by apply abs_path_nonempty.
    apply Clean_rooted, IsAbs_abs_path_app. }
  unfold resolve. rewrite Heq, elements_abs_path by done. done.
Qed.

Lemma resolve_real w p : Forall real_elem (resolve w p).
Proof. apply Abs_resolve. Qed.

Lemma Abs_abs_path w p : Abs (Getwd w) p = abs_path (resolve w p).
Proof. apply Abs_resolve. Qed.

(** An absolute clean path resolves to its own elements. *)
Lemma resolve_abs_path w k :
  Forall real_elem k → resolve w (abs_path k) = k.
Proof.
  intros Hk. unfold resolve, Abs. rewrite IsAbs_abs_path.
  by rewrite Clean_abs_path, elements_abs_path.
Qed.

Lemma Join_abs_path k b :
  Join (abs_path k) b = Clean (abs_path k +:+ String "/" b).
Proof. unfold Join. by rewrite decide_False by apply abs_path_nonempty. Qed.

(** Joining plain elements onto an absolute clean path appends the real
    ones. *)
Lemma Join_abs_path_plain k l :
  Forall real_elem k → Forall plain_elem l → l ≠ [] →
  Join (abs_path k) (join_sep l) = abs_path (k ++ filter real_elem l).
Proof.
  intros Hk Hl Hnil. rewrite Join_abs_path. unfold Clean, clean_elems.
  rewrite IsAbs_abs_path_app, split_sep_app_sep.
  rewrite foldl_app, clean_elems_abs_path by by apply Forall_real_plain.
  rewrite split_sep_join by (by try apply plain_no_sep).
  rewrite foldl_clean_plain by done. unfold render. simpl.
  rewrite app_nil_r, (filter_real_all k) by done.
  by rewrite rev_app_distr, !rev_involutive.
Qed.

Lemma Join_abs_path_real k rest :
  Forall real_elem k → Forall real_elem rest →
  Join (abs_path k) (join_sep rest) = abs_path (k ++ rest).
Proof.
  intros Hk Hr. destruct (decide (rest = [])) as [->|Hnil].
  - rewrite Join_abs_path. change (join_sep []) with "".
    unfold Clean, clean_elems.
    rewrite IsAbs_abs_path_app, split_sep_app_sep.
    rewrite foldl_app, clean_elems_abs_path by by apply Forall_real_plain.
    simpl. unfold render.
    by rewrite !app_nil_r, (filter_real_all k), rev_involutive.
  - rewrite Join_abs_path_plain by (by try apply Forall_real_plain).
    by rewrite filter_real_all.
Qed.

Lemma Join_abs_path_name k e :
  Forall real_elem k → real_elem e →
  Join (abs_path k) e = abs_path (k ++ [e]).
Proof.
  intros Hk He. apply (Join_abs_path_real k [e]); [done|].
  by constructor.
Qed.

Lemma foldl_Join_abs_path k rest :
  Forall real_elem k → Forall real_elem rest →
  foldl Join (abs_path k) rest = abs_path (k ++ rest).
Proof.
  revert k. induction rest as [|e rest IH]; intros k Hk Hr.
  - by rewrite app_nil_r.
  - inversion Hr; subst. rewrite foldl_step, Join_abs_path_name by done.
    rewrite IH; [by rewrite <- app_assoc| |done].
    apply Forall_app. split; [done|]. by constructor.
Qed.

Lemma strip_common_app k rest : strip_common k (k ++ rest) = ([], rest).
Proof.
  induction k as [|x k IH]; simpl; [by destruct rest|].
  by rewrite decide_True.
Qed.

Lemma join_sep_real_nonempty l :
  Forall real_elem l → l ≠ [] → join_sep l ≠ "".
Proof.
  intros Hl Hnil. destruct l as [|x l]; [done|].
  inversion Hl as [|?? Hx _]; subst. destruct Hx as (Hx & _).
  destruct l; simpl; [done|]. by destruct x.
Qed.

Lemma IsAbs_cons c x : IsAbs (String c x) = Ascii.eqb "/" c.
Proof.
  unfold IsAbs.
  change (HasPrefix (String c x) "/") with (Ascii.eqb "/" c && true).
  apply andb_true_r.
Qed.

Lemma IsAbs_join_sep_real l : Forall real_elem l → IsAbs (join_sep l) = false.
Proof.
  intros Hl. destruct l as [|x l]; [done|].
  inversion Hl as [|?? Hx _]; subst. destruct Hx as (Hx & _ & _ & Hs).
  destruct x as [|c x]; [done|]. simpl in Hs.
  apply orb_false_elim in Hs as [Hc _].
  destruct l as [|y l];
    [change (join_sep [String c x]) with (String c x)
    |rewrite join_sep_cons, app_cons_s by done];
    by rewrite IsAbs_cons, Ascii.eqb_sym.
Qed.

(** [filepath.Rel] from a directory to a path below it. *)
Lemma Rel_abs_path k rest :
  Forall real_elem k → Forall real_elem rest →
  Rel (abs_path k) (abs_path (k ++ rest))
  = Some (if decide (rest = []) then "." else join_sep rest).
Proof.
  intros Hk Hr. assert (Forall real_elem (k ++ rest)) by by apply Forall_app.
  unfold Rel. rewrite !Clean_abs_path by done.
  case_decide as Heq.
  - apply abs_path_inj in Heq; [|done..].
    assert (rest = []) as ->.
    { apply (app_inv_head k). by rewrite app_nil_r. }
    by rewrite decide_True.
  - rewrite decide_False by by rewrite abs_path_cons.
    rewrite !IsAbs_abs_path. simpl.
    rewrite !elements_abs_path by done.
    rewrite strip_common_app.
    case_decide as Hnil; [|done]. subst. by rewrite app_nil_r in Heq.
Qed.

Lemma removelast_snoc {A} (l : list A) x : removelast (l ++ [x]) = l.
Proof.
  induction l as [|y l IH]; [done|]. simpl.
  destruct (l ++ [x]) eqn:E; [by destruct l|]. by rewrite IH.
Qed.

(** [filepath.Dir] of a path below the root is its parent. *)
Lemma Dir_abs_path_snoc k e :
  Forall real_elem k → real_elem e → Dir (abs_path (k ++ [e])) = abs_path k.
Proof.
  intros Hk He. unfold Dir.
  assert (Forall plain_elem (k ++ [e])) as Hp.
  { apply Forall_real_plain, Forall_app. split; [done|]. by constructor. }
  rewrite split_abs_path by done.
  rewrite decide_False by by destruct k.
  change ("" :: k ++ [e]) with (("" :: k) ++ [e]).
  rewrite removelast_snoc.
  change (("" :: k) ++ [""]) with ("" :: k ++ [""]).
  rewrite join_sep_cons by by destruct k.
  change ("" +:+ String "/" (join_sep (k ++ [""]))) with (abs_path (k ++ [""])).
  rewrite Clean_abs_path_plain.
  - rewrite filter_app, filter_real_all by done.
    rewrite filter_cons_False, filter_nil, app_nil_r; [done|].
    by intros (? & _).
  - apply Forall_app. split; [by apply Forall_real_plain|].
    constructor; [by left|done].
Qed.

End PathFacts.

(** ** The path check of [LoadTopicByRelativePath] *)

Section Resolver.

Context `{Libs}.

Lemma Clean_cases p :
  ∃ u stk, Forall real_elem stk ∧ (IsAbs p = true → u = 0) ∧
           Clean p = render (IsAbs p) (u, stk).
Proof.
  unfold Clean, clean_elems.
  destruct (foldl_clean_inv (IsAbs p) (split_sep p) 0 []) as [Hs Hz];
    [apply split_sep_elems_no_sep|done..|].
  destruct (foldl _ _ _) as [u stk]. by exists u, stk.
Qed.

Lemma HasPrefix_app a b p : HasPrefix a p = true → HasPrefix (a +:+ b) p = true.
Proof.
  revert a. induction p as [|c p IH]; intros a; [done|].
  destruct a as [|x a]; [done|]. rewrite app_cons_s. simpl.
  intros [Hc Hp]%andb_prop. by rewrite Hc, IH.
Qed.

Lemma HasPrefix_join_sep e l p :
  HasPrefix e p = true → HasPrefix (join_sep (e :: l)) p = true.
Proof.
  intros He. destruct l as [|y l]; [done|].
  rewrite join_sep_cons by done. by apply HasPrefix_app.
Qed.

(** A relative path that keeps leading [..] elements after cleaning
    starts with the two bytes [..]. *)
Lemma render_ups u stk :
  0 < u → HasPrefix (render false (u, stk)) ".." = true.
Proof.
  intros Hu. destruct u as [|u]; [lia|]. unfold render.
  change (replicate (S u) ".." ++ rev stk)
    with (".." :: (replicate u ".." ++ rev stk)).
  assert (HasPrefix (join_sep (".." :: replicate u ".." ++ rev stk)) ".." = true)
    as Hp by by apply HasPrefix_join_sep.
  case_decide as Hnil; [by rewrite Hnil in Hp|done].
Qed.

(** Without leading [..] elements the cleaned path is a separated list of
    plain elements whose real names are those of the state. *)
Lemma render_plain r stk :
  Forall real_elem stk →
  ∃ l, l ≠ [] ∧ Forall plain_elem l ∧ filter real_elem l = rev stk ∧
       render r (0, stk) = join_sep l.
Proof.
  intros Hstk. assert (Forall real_elem (rev stk)) as Hrev by by apply Forall_rev.
  unfold render. simpl replicate. simpl app.
  destruct r.
  - destruct (rev stk) as [|x k] eqn:Hk.
    + exists [""; ""]. split_and!; [done| |done|done].
      constructor; [by left|]. constructor; [by left|done].
    + exists ("" :: x :: k). split_and!; [done| | |done].
      * constructor; [by left|]. by apply Forall_real_plain.
      * rewrite filter_cons_False by (by intros (? & _)).
        by apply filter_real_all.
  - case_decide as Hnil.
    + exists ["."]. destruct (rev stk) as [|x k] eqn:Hk.
      * split_and!; [done| |done|done]. constructor; [right; by left|done].
      * by apply join_sep_real_nonempty in Hnil.
    + exists (rev stk). split_and!; [by intros Hk; rewrite Hk in Hnil| | |done].
      * by apply Forall_real_plain.
      * by apply filter_real_all.
Qed.

(** What the check lets through stays below the directory. *)
Lemma Join_Clean_below k relPath :
  Forall real_elem k →
  HasPrefix (Clean relPath) ".." = false →
  ∃ l, l ≠ [] ∧ Forall plain_elem l ∧ Clean relPath = join_sep l ∧
       Join (abs_path k) (Clean relPath) = abs_path (k ++ filter real_elem l).
Proof.
  intros Hk Hpre.
  destruct (Clean_cases relPath) as (u & stk & Hstk & Hu & Hc).
  assert (u = 0) as ->.
  { destruct (IsAbs relPath); [by apply Hu|].
    destruct u as [|u]; [done|].
    rewrite Hc, render_ups in Hpre by lia. done. }
  destruct (render_plain (IsAbs relPath) stk Hstk) as (l & Hnil & Hl & Hf & Hr).
  exists l. rewrite Hc, Hr. split_and!; [done..|].
  by apply Join_abs_path_plain.
Qed.

Lemma loadTopic_abs_path w k :
  Forall real_elem k →
  loadTopic (abs_path k) w = (w, read_topic_at w k (abs_path k)).
Proof.
  intros Hk. unfold loadTopic, OS.ReadAll, read_topic_at.
  rewrite resolve_abs_path by done.
  destruct (stat (fs w) k) as [[data|]|]; [|done..].
  by destruct (json_Decode_topic data).
Qed.

Lemma set_Filename_twice f g t : set_Filename f (set_Filename g t) = set_Filename f t.
Proof. done. Qed.

Lemma LoadTopicByRelativePath_below w dir rest relPath :
  Forall real_elem rest →
  HasPrefix (Clean relPath) ".." = false →
  Join (Abs (Getwd w) dir) (Clean relPath) = abs_path (resolve w dir ++ rest) →
  LoadTopicByRelativePath dir relPath w
  = (w, read_topic_at w (resolve w dir ++ rest)
          (if decide (rest = []) then "." else join_sep rest)).
Proof.
  intros Hrest Hpre Hjoin. unfold LoadTopicByRelativePath.
  rewrite Hpre, Hjoin.
  assert (Forall real_elem (resolve w dir ++ rest)) as Hall.
  { apply Forall_app. split; [apply resolve_real|done]. }
  rewrite loadTopic_abs_path by done.
  rewrite Abs_abs_path, Rel_abs_path by (done || apply resolve_real).
  unfold read_topic_at.
  destruct (stat (fs w) _) as [[data|]|]; [|done..].
  by destruct (json_Decode_topic data).
Qed.

End Resolver.

(** C1.  [LoadTopicByRelativePath] cleans the supplied path and refuses,
    with the validation error, every path whose cleaned form still begins
    with [..]; every other path is opened at a place below the store root
    (the root's elements followed by real names, none of them [..]), and
    the result is what reading that one place gives.  In particular
    [../../etc/passwd] is refused and [sub/a.json] is read at
    [<root>/sub/a.json]. *)
Theorem C1_relative_path_confined `{Libs} (w : World) (dir relPath : string) :
  Abs (Getwd w) dir = abs_path (resolve w dir) ∧
  (if HasPrefix (Clean relPath) ".." then
     LoadTopicByRelativePath dir relPath w
     = (w, Err (Errorf ("invalid topic path: " +:+ relPath)))
   else
     ∃ rest,
       Forall real_elem rest ∧
       Join (Abs (Getwd w) dir) (Clean relPath)
       = abs_path (resolve w dir ++ rest) ∧
       LoadTopicByRelativePath dir relPath w
       = (w, read_topic_at w (resolve w dir ++ rest)
               (if decide (rest = []) then "." else join_sep rest))) ∧
  LoadTopicByRelativePath dir "../../etc/passwd" w
  = (w, Err (Errorf "invalid topic path: ../../etc/passwd")) ∧
  LoadTopicByRelativePath dir "sub/a.json" w
  = (w, read_topic_at w (resolve w dir ++ ["sub"; "a.json"]) "sub/a.json").
Proof.
  split; [apply Abs_abs_path|]. split; [|split; [done|]].
  - destruct (HasPrefix (Clean relPath) "..") eqn:Hpre.
    + unfold LoadTopicByRelativePath. by rewrite Hpre.
    + rewrite Abs_abs_path.
      destruct (Join_Clean_below (resolve w dir) relPath)
        as (l & Hnil & Hl & Hc & Hj); [apply resolve_real|done|].
      exists (filter real_elem l).
      assert (Forall real_elem (filter real_elem l)) as Hf
        by (apply Forall_forall; intros e [? _]%list_elem_of_filter; done).
      split_and!; [done..|].
      apply LoadTopicByRelativePath_below; [done..|].
      by rewrite Abs_abs_path.
  - assert (Forall real_elem ["sub"; "a.json"]) as Hr
      by (repeat constructor; done).
    rewrite (LoadTopicByRelativePath_below w dir ["sub"; "a.json"]);
      [done|done|done|].
    rewrite Abs_abs_path.
    apply (Join_abs_path_real _ ["sub"; "a.json"]); [apply resolve_real|done].
Qed.

(** ** Scanning: [LoadTopics] and [LoadRecentTopics] *)

Section Scan.

Context `{Libs}.

Lemma LoadTopics_scan w dir : LoadTopics dir w = (w, Ok (scan w dir)).
Proof.
  unfold scan, LoadTopics, WalkDir.
  by destruct (stat (fs w) (resolve w (Abs (Getwd w) dir))).
Qed.

Lemma not_newer_le a b : ¬ newer b a ↔ (Timestamp b ≤ Timestamp a)%string.
Proof.
  unfold newer, String.le, String.ltb, String.leb.
  rewrite (String.compare_antisym (Timestamp b) (Timestamp a)).
  destruct (String.compare (Timestamp a) (Timestamp b)); simpl; tauto.
Qed.

Global Instance not_newer_total : Total (λ a b : Topic, ¬ newer b a).
Proof.
  intros a b. rewrite !not_newer_le.
  destruct (total String.le (Timestamp a) (Timestamp b)); auto.
Qed.

Global Instance not_newer_trans : Transitive (λ a b : Topic, ¬ newer b a).
Proof.
  intros a b c. rewrite !not_newer_le. intros ??. by etrans.
Qed.

Lemma StronglySorted_weaken {A} (R1 R2 : relation A) l :
  (∀ x y, R1 x y → R2 x y) → StronglySorted R1 l → StronglySorted R2 l.
Proof.
  intros HR. induction 1 as [|x l Hl IH Hx]; constructor; [done|].
  eapply Forall_impl; [exact Hx|]. apply HR.
Qed.

Lemma scan_sorted w dir :
  StronglySorted (λ a b, (Timestamp b ≤ Timestamp a)%string) (scan w dir).
Proof.
  assert (∀ l, StronglySorted (λ a b, (Timestamp b ≤ Timestamp a)%string)
                 (sort_Slice newer l)) as Hsort.
  { intros l. unfold sort_Slice.
    eapply StronglySorted_weaken;
      [|apply (StronglySorted_merge_sort (λ a b : Topic, ¬ newer b a))].
    intros a b. by rewrite not_newer_le. }
  unfold scan, LoadTopics, WalkDir.
  destruct (stat (fs w) (resolve w (Abs (Getwd w) dir))); simpl;
    [apply Hsort|constructor].
Qed.

Lemma scan_parsed w dir : scan w dir = sort_Slice newer (parsed w dir).
Proof.
  unfold scan, parsed, LoadTopics, WalkDir.
  by destruct (stat (fs w) (resolve w (Abs (Getwd w) dir))).
Qed.

Lemma scan_Permutation w dir : scan w dir ≡ₚ parsed w dir.
Proof. rewrite scan_parsed. apply merge_sort_Permutation. Qed.

Lemma NoDup_fmap_eq {A B} (f : A → B) (l : list A) x y :
  NoDup (f <$> l) → x ∈ l → y ∈ l → f x = f y → x = y.
Proof.
  induction l as [|z l IH]; [by intros _ ?%elem_of_nil|].
  rewrite fmap_cons, NoDup_cons. intros [Hz Hl] Hx Hy Hf.
  apply elem_of_cons in Hx as [->|Hx]; apply elem_of_cons in Hy as [->|Hy];
    [done| | |by apply IH].
  - destruct Hz. rewrite Hf. by apply list_elem_of_fmap_2.
  - destruct Hz. rewrite <- Hf. by apply list_elem_of_fmap_2.
Qed.

End Scan.

(** A way is free when none of its prefixes is a regular file. *)
Lemma free_way_take (m : gmap (list string) node) k :
  Forall (λ j, ∀ data, stat m (take j k) ≠ Some (RegFile data))
         (seq 0 (S (length k))) →
  free_way m k.
Proof.
  intros Hall l data [l' ->]. rewrite Forall_forall in Hall.
  specialize (Hall (length l)). rewrite take_app_length in Hall.
  apply Hall. apply elem_of_seq. rewrite length_app. lia.
Qed.

(** C6.  When no regular file lies on the way to the store directory and
    the parsed records carry pairwise distinct timestamps,
    [LoadTopics] returns exactly those records, ordered so that timestamps
    never increase under byte-wise string comparison (newest first); that
    order is the only one of those records in which no record is newer
    than one before it. *)
Theorem C6_scan_newest_first `{Libs} (w : World) (dir : string) :
  free_way (fs w) (resolve w dir) →
  NoDup (Timestamp <$> parsed w dir) →
  LoadTopics dir w = (w, Ok (scan w dir)) ∧
  scan w dir ≡ₚ parsed w dir ∧
  StronglySorted (λ a b, (Timestamp b ≤ Timestamp a)%string) (scan w dir) ∧
  (∀ l, l ≡ₚ parsed w dir → Sorted (λ a b, ¬ newer b a) l → l = scan w dir).
Proof.
  intros _ Hdistinct. split_and!.
  - apply LoadTopics_scan.
  - apply scan_Permutation.
  - apply scan_sorted.
  - intros l Hperm Hsorted.
    apply (Sorted_unique_strong (λ a b : Topic, ¬ newer b a)); [|done| |].
    + intros x1 x2 Hx1 Hx2 H12 H21.
      apply (NoDup_fmap_eq Timestamp (parsed w dir)); [done| | |].
      * by rewrite <- Hperm.
      * by rewrite <- scan_Permutation.
      * apply not_newer_le in H12, H21. by apply (anti_symm String.le).
    + rewrite scan_parsed. apply Sorted_merge_sort, _.
    + by rewrite scan_Permutation.
Qed.

(** C8.  When no regular file lies on the way to the store directory,
    [LoadRecentTopics] returns the first [limit] records of what
    [LoadTopics] returns when [limit] is positive and smaller than their
    number, and all of them otherwise, in particular whenever
    [limit <= 0]. *)
Theorem C8_recent_is_prefix_of_scan `{Libs} (w : World) (dir : string) (limit : Z) :
  free_way (fs w) (resolve w dir) →
  LoadTopics dir w = (w, Ok (scan w dir)) ∧
  LoadRecentTopics dir limit w
  = (w, Ok (if decide (0 < limit < Z.of_nat (length (scan w dir)))%Z
            then take (Z.to_nat limit) (scan w dir)
            else scan w dir)) ∧
  ((limit ≤ 0)%Z → LoadRecentTopics dir limit w = (w, Ok (scan w dir))) ∧
  ((0 < limit)%Z → (limit < Z.of_nat (length (scan w dir)))%Z →
   LoadRecentTopics dir limit w = (w, Ok (take (Z.to_nat limit) (scan w dir))) ∧
   length (take (Z.to_nat limit) (scan w dir)) = Z.to_nat limit).
Proof.
  intros _.
  assert (LoadRecentTopics dir limit w
  = (w, Ok (if decide (0 < limit < Z.of_nat (length (scan w dir)))%Z
            then take (Z.to_nat limit) (scan w dir)
            else scan w dir))) as Hrecent.
  { unfold LoadRecentTopics, mbind, IO_bind. rewrite LoadTopics_scan.
    destruct (0 <? limit)%Z eqn:H0; destruct (limit <? _)%Z eqn:H1; simpl;
      case_decide; try done; lia. }
  split_and!; [apply LoadTopics_scan|done| |].
  - intros Hle. rewrite Hrecent. case_decide; [lia|done].
  - intros Hpos Hlt. rewrite Hrecent. rewrite decide_True by lia.
    split; [done|]. rewrite length_take. lia.
Qed.

Lemma C8_recent_is_prefix_of_scan_witness :
  free_way (fs Demo.store) (resolve Demo.store "data/community") ∧
  @LoadRecentTopics Demo.store_libs "data/community" 1 Demo.store
  = (Demo.store, Ok [set_Filename "second.JSON" Demo.second]) ∧
  @LoadRecentTopics Demo.store_libs "data/community" 0 Demo.store
  = (Demo.store, Ok [set_Filename "second.JSON" Demo.second;
                     set_Filename "hello_world.json" Demo.hello]).
Proof.
  assert (free_way (fs Demo.store) (resolve Demo.store "data/community"))
    as Hway.
  { apply free_way_take. vm_compute.
    repeat (constructor; [intros data; discriminate|]). constructor. }
  assert (@scan Demo.store_libs Demo.store "data/community"
          = [set_Filename "second.JSON" Demo.second;
             set_Filename "hello_world.json" Demo.hello]) as Hscan
    by (vm_compute; reflexivity).
  split; [exact Hway|]. split.
  - destruct (@C8_recent_is_prefix_of_scan Demo.store_libs Demo.store
                "data/community" 1 Hway) as (_ & _ & _ & Hcut).
    destruct Hcut as [Hcut _]; [reflexivity|rewrite Hscan; reflexivity|].
    rewrite Hcut, Hscan. reflexivity.
  - destruct (@C8_recent_is_prefix_of_scan Demo.store_libs Demo.store
                "data/community" 0 Hway) as (_ & _ & Hall & _).
    rewrite Hall, Hscan; [reflexivity|reflexivity].
Defined.


(** ** The file system under [SaveTopic] *)

Section FileSystem.

Implicit Types m : gmap (list string) node.

Lemma set_fs_id w : set_fs (fs w) w = w.
Proof. by destruct w. Qed.

Lemma stat_snoc m k e : stat m (k ++ [e]) = m !! (k ++ [e]).
Proof. by destruct k. Qed.

Lemma stat_nonempty m k : k ≠ [] → stat m k = m !! k.
Proof. by destruct k. Qed.

Lemma is_dir_stat m k : is_dir m k = true ↔ stat m k = Some Directory.
Proof. unfold is_dir. destruct (stat m k) as [[]|]; naive_solver. Qed.

Lemma last_snoc {A} (l : list A) x d : List.last (l ++ [x]) d = x.
Proof. induction l as [|y l IH]; [done|]. simpl. rewrite IH. by destruct l. Qed.

Lemma tmp_key_snoc k e : tmp_key (k ++ [e]) = k ++ [e +:+ ".tmp"].
Proof. unfold tmp_key. by rewrite removelast_snoc, last_snoc. Qed.

(** In a well-formed file system every proper ancestor of an entry is a
    directory. *)
Lemma wf_fs_ancestors m k l :
  wf_fs m → l ≠ [] → is_Some (m !! (k ++ l)) → stat m k = Some Directory.
Proof.
  intros Hwf. induction l as [|e l IH] using rev_ind; [done|].
  intros _ [n Hn]. destruct (Hwf _ _ Hn) as (_ & _ & Hdir).
  rewrite app_assoc, removelast_snoc in Hdir.
  apply is_dir_stat in Hdir.
  destruct (decide (l = [])) as [->|Hl]; [by rewrite app_nil_r in Hdir|].
  apply IH; [done|]. rewrite stat_nonempty in Hdir by (by destruct k, l).
  by rewrite Hdir.
Qed.

Lemma wf_fs_real m k : wf_fs m → is_Some (m !! k) → Forall real_elem k.
Proof. intros Hwf [n Hn]. by destruct (Hwf _ _ Hn) as (_ & ? & _). Qed.

(** [MkdirAll] on a path whose directories all exist changes nothing. *)
Lemma mkdir_all_present m d t :
  (∀ l, l ≠ [] → l `prefix_of` t → stat m (d ++ l) = Some Directory) →
  OS.mkdir_all d t m = (m, None).
Proof.
  revert d. induction t as [|e t IH]; intros d Hdirs; [done|].
  simpl. rewrite (Hdirs [e]); [|done|by apply prefix_cons, prefix_nil].
  apply IH. intros l Hl Hpre. rewrite <- app_assoc. apply Hdirs; [done|].
  by apply prefix_cons.
Qed.

Lemma real_elem_tmp e : real_elem e → real_elem (e +:+ ".tmp").
Proof.
  intros (He & _ & _ & Hs). unfold real_elem.
  assert (String.length (e +:+ ".tmp") = String.length e + 4) as Hlen
    by apply length_app_s.
  assert (has_sep (e +:+ ".tmp") = false) as Hsep.
  { clear He Hlen. induction e as [|c e IH]; [done|].
    rewrite app_cons_s. simpl in *. apply orb_false_elim in Hs as [-> Hs].
    by rewrite IH. }
  split_and!; [| | |done]; intros Heq; rewrite Heq in Hlen; simpl in Hlen; lia.
Qed.

Lemma name_neq_tmp e : e ≠ e +:+ ".tmp".
Proof.
  intros Heq. assert (String.length e = String.length e + 4) as Hlen
    by (rewrite Heq at 1; apply length_app_s).
  lia.
Qed.

Lemma join_sep_snoc_app k e s :
  join_sep (k ++ [e]) +:+ s = join_sep (k ++ [e +:+ s]).
Proof.
  induction k as [|x k IH]; [done|].
  change ((x :: k) ++ [e]) with (x :: (k ++ [e])).
  change ((x :: k) ++ [e +:+ s]) with (x :: (k ++ [e +:+ s])).
  rewrite !join_sep_cons by (by destruct k).
  by rewrite app_assoc_s, app_cons_s, IH.
Qed.

Lemma abs_path_snoc_app k e s :
  abs_path (k ++ [e]) +:+ s = abs_path (k ++ [e +:+ s]).
Proof. by rewrite !abs_path_cons, app_cons_s, join_sep_snoc_app. Qed.

End FileSystem.

Section Saving.

Context `{Libs}.

(** The atomic write of [SaveTopic] at a place whose directories exist and
    where neither the file nor its temporary neighbour is a directory. *)
Lemma write_topic_at w topic absDir k e :
  Forall real_elem (k ++ [e]) →
  (∀ l, l `prefix_of` k → stat (fs w) l = Some Directory) →
  is_dir (fs w) (k ++ [e +:+ ".tmp"]) = false →
  is_dir (fs w) (k ++ [e]) = false →
  write_topic topic absDir (abs_path (k ++ [e])) w
  = (set_fs (rewrite_file (fs w) (k ++ [e]) (json_MarshalIndent topic)) w,
     Ok (match Rel absDir (abs_path (k ++ [e])) with
         | Some rel => set_Filename rel topic
         | None => set_Filename (abs_path (k ++ [e])) topic
         end)).
Proof.
  intros Hreal Hdirs Htmp Hfile.
  apply Forall_app in Hreal as [Hk He]. apply Forall_cons_1 in He as [He _].
  assert (Forall real_elem (k ++ [e +:+ ".tmp"])) as Hrtmp.
  { apply Forall_app. split; [done|].
    constructor; [by apply real_elem_tmp|done]. }
  assert (Forall real_elem (k ++ [e])) as Hrk.
  { apply Forall_app. split; [done|]. by constructor. }
  unfold write_topic, mbind, IO_bind, wrap.
  (* os.MkdirAll(filepath.Dir(path)) *)
  rewrite Dir_abs_path_snoc by done.
  unfold OS.MkdirAll at 1. rewrite resolve_abs_path by done.
  rewrite mkdir_all_present by (intros l _ Hl; by apply Hdirs).
  rewrite set_fs_id.
  (* os.WriteFile(tempFile, data, 0644) *)
  rewrite abs_path_snoc_app.
  unfold OS.WriteFile at 1. rewrite resolve_abs_path by done.
  unfold OS.parent. rewrite removelast_snoc, (Hdirs k) by done.
  unfold is_dir in Htmp.
  destruct (stat (fs w) (k ++ [e +:+ ".tmp"])) as [[dt|]|] eqn:Hst; [|done|].
  all: (* os.Rename(tempFile, path) *)
    unfold OS.Rename; simpl fs; rewrite !resolve_abs_path by done;
    rewrite stat_snoc, lookup_insert_eq;
    unfold OS.parent; rewrite removelast_snoc;
    (assert (stat (<[k ++ [e +:+ ".tmp"] := RegFile (json_MarshalIndent topic)]> (fs w)) k
            = Some Directory) as ->;
     [destruct k as [|x k]; [done|];
      rewrite stat_nonempty, lookup_insert_ne by
        (try done; intros Heq; apply (f_equal length) in Heq;
         rewrite length_app in Heq; simpl in Heq; lia);
      rewrite <- (stat_nonempty (fs w)) by done; by apply Hdirs|]);
    rewrite stat_snoc, lookup_insert_ne by
      (intros Heq; apply app_inj_tail in Heq as [_ Heq];
       by apply (name_neq_tmp e));
    rewrite <- stat_snoc; unfold is_dir in Hfile;
    destruct (stat (fs w) (k ++ [e])) as [[df|]|]; try done;
    unfold rewrite_file, set_fs; simpl; rewrite tmp_key_snoc;
    by rewrite delete_insert_eq.
Qed.

End Saving.

(** ** What [LoadTopics] finds in a well-formed file system *)

Section Walk.

Context `{Libs}.

Lemma foldl_visit w absDir acc entries :
  foldl (visit w absDir) acc entries = acc ++ omap (visit1 w absDir) entries.
Proof.
  revert acc. induction entries as [|d entries IH]; intros acc.
  - by rewrite app_nil_r.
  - rewrite foldl_step, IH. unfold visit, visit1. simpl omap.
    destruct (entry_IsDir d); [done|].
    destruct (negb _); [done|].
    destruct (loadTopic (entry_path d) w) as [w' [topic|e]]; [|done].
    simpl. by rewrite <- app_assoc.
Qed.

Lemma walk_keys_Permutation m root : walk_keys m root ≡ₚ keys_below m root.
Proof. apply merge_sort_Permutation. Qed.

Lemma elem_of_keys_below m root k :
  k ∈ keys_below m root ↔ root `prefix_of` k ∧ is_Some (m !! k).
Proof.
  unfold keys_below. rewrite list_elem_of_filter, list_elem_of_fmap.
  split.
  - intros [Hpre ([k' n] & -> & Hin)]. split; [done|].
    apply elem_of_map_to_list in Hin. by exists n.
  - intros [Hpre [n Hn]]. split; [done|]. exists (k, n). split; [done|].
    by apply elem_of_map_to_list.
Qed.

Lemma NoDup_keys_below m root : NoDup (keys_below m root).
Proof. apply NoDup_filter, NoDup_fst_map_to_list. Qed.

Lemma rel_of_props rest :
  Forall real_elem rest → rel_of rest ≠ "" ∧ IsAbs (rel_of rest) = false.
Proof.
  intros Hr. unfold rel_of. case_decide as Hnil; [done|].
  split; [by apply join_sep_real_nonempty|by apply IsAbs_join_sep_real].
Qed.

Lemma Join_rel_of k rest :
  Forall real_elem k → Forall real_elem rest →
  Join (abs_path k) (rel_of rest) = abs_path (k ++ rest).
Proof.
  intros Hk Hr. unfold rel_of. case_decide as Hnil.
  - subst. change "." with (join_sep ["."]).
    rewrite (Join_abs_path_plain k ["."]); [done|done| |done].
    constructor; [right; by left|done].
  - by apply Join_abs_path_real.
Qed.

(** The entry the walk hands over for a place below the root holds the
    record at that place. *)
Lemma visit1_record_at w dir rest :
  wf_fs (fs w) → is_Some (fs w !! (resolve w dir ++ rest)) →
  visit1 w (Abs (Getwd w) dir)
    (mkDirEntry (foldl Join (Abs (Getwd w) dir) rest)
                (List.last (resolve w dir ++ rest) "")
                (is_dir (fs w) (resolve w dir ++ rest)))
  = record_at w (resolve w dir) rest.
Proof.
  intros Hwf [n Hn]. set (root := resolve w dir) in *.
  assert (Forall real_elem root) as Hroot by apply resolve_real.
  assert (Forall real_elem (root ++ rest)) as Hall
    by (eapply wf_fs_real; [done|by exists n]).
  assert (Forall real_elem rest) as Hrest by by apply Forall_app in Hall as [_ ?].
  assert (root ++ rest ≠ []) as Hne by (by destruct (Hwf _ _ Hn) as (? & _)).
  unfold visit1, record_at. simpl.
  rewrite Abs_abs_path. fold root.
  rewrite foldl_Join_abs_path by done.
  unfold is_dir. rewrite stat_nonempty, Hn by done.
  destruct n as [data|]; [|done].
  destruct (HasSuffix _ _); simpl; [|done].
  rewrite loadTopic_abs_path by done. unfold read_topic_at.
  rewrite stat_nonempty, Hn by done.
  destruct (json_Decode_topic data) as [topic|]; [|done]. simpl.
  by rewrite Rel_abs_path.
Qed.

Lemma omap_fmap_ext_in {A B C} (f : B → option C) (g : A → B)
    (h : A → option C) (l : list A) :
  (∀ x, x ∈ l → f (g x) = h x) → omap f (g <$> l) = omap h l.
Proof.
  induction l as [|x l IH]; intros Hext; [done|].
  csimpl. rewrite Hext by left.
  rewrite IH; [done|]. intros y Hy. apply Hext. by right.
Qed.

Lemma keys_below_missing m root :
  wf_fs m → stat m root = None → keys_below m root = [].
Proof.
  intros Hwf Hstat. apply elem_of_nil_inv. intros k Hin.
  apply elem_of_keys_below in Hin as [[rest ->] Hsome].
  destruct (decide (rest = [])) as [->|Hrest].
  - rewrite app_nil_r in Hsome. destruct root; [done|].
    simpl in Hstat. rewrite Hstat in Hsome. by destruct Hsome.
  - by rewrite (wf_fs_ancestors m root rest) in Hstat.
Qed.

Lemma parsed_omap w dir :
  wf_fs (fs w) →
  parsed w dir
  = omap (λ k, record_at w (resolve w dir) (drop (length (resolve w dir)) k))
         (walk_keys (fs w) (resolve w dir)).
Proof.
  intros Hwf. set (root := resolve w dir).
  assert (Forall real_elem root) as Hroot by apply resolve_real.
  unfold parsed, WalkDir. rewrite Abs_abs_path. fold root.
  rewrite resolve_abs_path by done.
  destruct (stat (fs w) root) as [n|] eqn:Hroot_stat.
  - rewrite foldl_visit, app_nil_l.
    apply omap_fmap_ext_in. intros k Hin.
    rewrite walk_keys_Permutation in Hin.
    apply elem_of_keys_below in Hin as [[rest ->] Hsome].
    rewrite drop_app_length. subst root.
    rewrite <- (Abs_abs_path w dir).
    by apply visit1_record_at.
  - assert (walk_keys (fs w) root = []) as ->; [|done].
    apply Permutation_nil_r. rewrite walk_keys_Permutation.
    by rewrite keys_below_missing.
Qed.

(** The records returned are those held by the entries below the root,
    each once. *)
Lemma scan_records w dir :
  wf_fs (fs w) →
  scan w dir ≡ₚ
  omap (λ k, record_at w (resolve w dir) (drop (length (resolve w dir)) k))
       (keys_below (fs w) (resolve w dir)).
Proof.
  intros Hwf. rewrite scan_Permutation, parsed_omap by done.
  by rewrite walk_keys_Permutation.
Qed.

Lemma elem_of_scan w dir t :
  wf_fs (fs w) →
  t ∈ scan w dir ↔
  ∃ rest, Forall real_elem rest ∧ record_at w (resolve w dir) rest = Some t.
Proof.
  intros Hwf. rewrite scan_records by done. rewrite list_elem_of_omap.
  split.
  - intros (k & Hin & Hrec).
    apply elem_of_keys_below in Hin as [[rest ->] Hsome].
    rewrite drop_app_length in Hrec. exists rest. split; [|done].
    apply wf_fs_real in Hsome; [|done]. by apply Forall_app in Hsome as [_ ?].
  - intros (rest & Hrest & Hrec). exists (resolve w dir ++ rest).
    rewrite drop_app_length. split; [|done].
    apply elem_of_keys_below. split; [by apply prefix_app_r|].
    unfold record_at in Hrec. by destruct (fs w !! _).
Qed.

End Walk.

Lemma omap_single {A B} (f : A → option B) (l : list A) x0 y :
  NoDup l → x0 ∈ l → f x0 = Some y →
  (∀ x, x ∈ l → x ≠ x0 → f x = None) →
  omap f l = [y].
Proof.
  induction l as [|x l IH]; [by intros _ ?%elem_of_nil|].
  rewrite NoDup_cons. intros [Hx Hl] Hin Hf Hothers. csimpl.
  apply elem_of_cons in Hin as [->|Hin].
  - rewrite Hf. f_equal.
    apply elem_of_nil_inv. intros z (x' & Hxl & Hz)%list_elem_of_omap.
    rewrite Hothers in Hz; [done|by right|]. by intros ->.
  - rewrite Hothers; [|by left|by intros ->].
    apply IH; [done..|]. intros z Hz. apply Hothers. by right.
Qed.

(** C7.  In a well-formed file system, with no regular file on the way
    to the store directory, [LoadTopics] returns no error, and
    what it returns is, up to order, the records of the entries below the
    root that are regular [.json] files and decode: a file that fails to
    decode contributes nothing.  In particular a store with one
    well-formed record file, all of whose other files are invalid JSON,
    yields exactly that one record. *)
Theorem C7_scan_skips_corrupt_files `{Libs} (w : World) (dir : string) :
  wf_fs (fs w) → free_way (fs w) (resolve w dir) →
  LoadTopics dir w = (w, Ok (scan w dir)) ∧
  scan w dir ≡ₚ
    omap (λ k, record_at w (resolve w dir) (drop (length (resolve w dir)) k))
         (keys_below (fs w) (resolve w dir)) ∧
  (∀ good data topic,
     fs w !! (resolve w dir ++ [good]) = Some (RegFile data) →
     HasSuffix (ToLower good) ".json" = true →
     json_Decode_topic data = Some topic →
     (∀ k data', k ∈ keys_below (fs w) (resolve w dir) →
                 k ≠ resolve w dir ++ [good] →
                 fs w !! k = Some (RegFile data') →
                 json_Decode_topic data' = None) →
     scan w dir = [set_Filename good topic]).
Proof.
  intros Hwf _. split_and!; [apply LoadTopics_scan|by apply scan_records|].
  intros good data topic Hgood Hsuffix Hdecode Hbad.
  apply Permutation_singleton_r. rewrite scan_records by done.
  rewrite (omap_single _ _ (resolve w dir ++ [good]) (set_Filename good topic));
    [done|apply NoDup_keys_below| | |].
  - apply elem_of_keys_below. split; [by apply prefix_app_r|by rewrite Hgood].
  - rewrite drop_app_length. unfold record_at, rel_of.
    by rewrite Hgood, last_snoc, Hsuffix, Hdecode.
  - intros k Hin Hne. pose proof Hin as Hin'.
    apply elem_of_keys_below in Hin' as [[rest ->] [n Hn]].
    rewrite drop_app_length. unfold record_at. rewrite Hn.
    destruct n as [data'|]; [|done].
    rewrite (Hbad _ data') by done. by destruct (HasSuffix (ToLower (List.last _ _)) _).
Qed.

Lemma C7_scan_skips_corrupt_files_witness :
  wf_fs (fs Demo.small_store) ∧
  free_way (fs Demo.small_store) (resolve Demo.small_store "data/community") ∧
  @LoadTopics Demo.store_libs "data/community" Demo.small_store
  = (Demo.small_store, Ok [set_Filename "hello_world.json" Demo.hello]).
Proof.
  assert (wf_fs (fs Demo.small_store)) as Hwf.
  { apply (bool_decide_unpack _). vm_compute. exact I. }
  assert (free_way (fs Demo.small_store)
            (resolve Demo.small_store "data/community")) as Hway.
  { apply free_way_take. vm_compute.
    repeat (constructor; [intros data; discriminate|]). constructor. }
  split; [exact Hwf|]. split; [exact Hway|].
  destruct (@C7_scan_skips_corrupt_files Demo.store_libs Demo.small_store
              "data/community" Hwf Hway) as (Hload & _ & Hone).
  rewrite Hload.
  rewrite (Hone "hello_world.json" (Demo.show_topic Demo.hello) Demo.hello);
    [reflexivity|..].
  - vm_compute. reflexivity.
  - vm_compute. reflexivity.
  - vm_compute. reflexivity.
  - intros k data' Hin Hne Hk. vm_compute in Hin, Hne.
    repeat (apply elem_of_cons in Hin as [->|Hin]).
    + vm_compute in Hk. discriminate Hk.
    + destruct Hne. reflexivity.
    + vm_compute in Hk. injection Hk as <-. vm_compute. reflexivity.
    + exfalso. clear -Hin. inversion Hin.
Defined.

(** ** Saving over an existing record, and [AddReplyToTopic] *)

Section Append.

Context `{Libs}.

(** The temporary file cannot be written when a directory sits at its
    place. *)
Lemma write_topic_blocked w topic absDir k e :
  Forall real_elem (k ++ [e]) →
  (∀ l, l `prefix_of` k → stat (fs w) l = Some Directory) →
  is_dir (fs w) (k ++ [e +:+ ".tmp"]) = true →
  write_topic topic absDir (abs_path (k ++ [e])) w
  = (w, Err (Wrap "writing temp file" EISDIR)).
Proof.
  intros Hreal Hdirs Htmp.
  apply Forall_app in Hreal as [Hk He]. apply Forall_cons_1 in He as [He _].
  assert (Forall real_elem (k ++ [e +:+ ".tmp"])) as Hrtmp.
  { apply Forall_app. split; [done|].
    constructor; [by apply real_elem_tmp|done]. }
  unfold write_topic, mbind, IO_bind, wrap.
  rewrite Dir_abs_path_snoc by done.
  unfold OS.MkdirAll at 1. rewrite resolve_abs_path by done.
  rewrite mkdir_all_present by (intros l _ Hl; by apply Hdirs).
  rewrite set_fs_id, abs_path_snoc_app.
  unfold OS.WriteFile at 1. rewrite resolve_abs_path by done.
  unfold OS.parent. rewrite removelast_snoc, (Hdirs k) by done.
  apply is_dir_stat in Htmp. by rewrite Htmp.
Qed.

(** [SaveTopic] on a record that carries the location of an existing
    file. *)
Lemma SaveTopic_existing w dir topic rest data :
  wf_fs (fs w) →
  fs w !! (resolve w dir ++ rest) = Some (RegFile data) →
  Filename topic = rel_of rest →
  SaveTopic topic dir w
  = if is_dir (fs w) (tmp_key (resolve w dir ++ rest))
    then (w, Err (Wrap "writing temp file" EISDIR))
    else (set_fs (rewrite_file (fs w) (resolve w dir ++ rest)
                    (json_MarshalIndent topic)) w, Ok ()).
Proof.
  intros Hwf Hfile Hname.
  assert (Forall real_elem (resolve w dir ++ rest)) as Hall
    by (eapply wf_fs_real; [done|by rewrite Hfile]).
  assert (Forall real_elem rest) as Hrest by by apply Forall_app in Hall as [_ ?].
  destruct (rel_of_props rest Hrest) as [Hne Hrel].
  unfold SaveTopic, SaveTopic_body, mbind, IO_bind.
  rewrite decide_True by by rewrite Hname.
  unfold mret, IO_ret. rewrite Hname, Hrel.
  rewrite Abs_abs_path, Join_rel_of by (done || apply resolve_real).
  destruct (Hwf _ _ Hfile) as (Hnil & _ & _).
  destruct (resolve w dir ++ rest) as [|x0 k0] eqn:Hkey using rev_ind;
    [done|clear IHk0].
  assert (∀ l, l `prefix_of` k0 → stat (fs w) l = Some Directory) as Hdirs.
  { intros l [l' ->]. apply (wf_fs_ancestors _ l (l' ++ [x0])); [done| |].
    - by destruct l'.
    - by rewrite app_assoc, Hfile. }
  rewrite tmp_key_snoc.
  destruct (is_dir (fs w) (k0 ++ [x0 +:+ ".tmp"])) eqn:Htmp.
  - by rewrite write_topic_blocked.
  - rewrite write_topic_at; [done..|].
    unfold is_dir. by rewrite stat_snoc, Hfile.
Qed.

Lemma AddReply_loop_none topics title reply dir w :
  (∀ t, t ∈ topics → Title t ≠ title) →
  AddReply_loop topics title reply dir w
  = (w, Err (Errorf ("topic not found: " +:+ title))).
Proof.
  induction topics as [|t topics IH]; intros Hnone; [done|].
  simpl. rewrite decide_False by (apply Hnone; left).
  apply IH. intros t' Ht'. apply Hnone. by right.
Qed.

Lemma AddReply_loop_first before t after title reply dir w :
  (∀ b, b ∈ before → Title b ≠ title) → Title t = title →
  AddReply_loop (before ++ t :: after) title reply dir w
  = SaveTopic (set_Replies (Replies t ++ [reply]) t) dir w.
Proof.
  induction before as [|b before IH]; intros Hnone Ht; simpl.
  - by rewrite decide_True.
  - rewrite decide_False by (apply Hnone; left).
    apply IH; [|done]. intros b' Hb'. apply Hnone. by right.
Qed.

(** A list either has no element with the title or splits at the first
    one. *)
Lemma first_match (topics : list Topic) title :
  (∀ t, t ∈ topics → Title t ≠ title) ∨
  ∃ before t after, topics = before ++ t :: after ∧
    (∀ b, b ∈ before → Title b ≠ title) ∧ Title t = title.
Proof.
  induction topics as [|t topics IH]; [left; by intros ? ?%elem_of_nil|].
  destruct (decide (Title t = title)) as [Ht|Ht].
  - right. exists [], t, topics. split_and!; [done| |done].
    by intros ? ?%elem_of_nil.
  - destruct IH as [Hnone|(before & t' & after & -> & Hnone & Ht')].
    + left. intros t' [->|?]%elem_of_cons; [done|by apply Hnone].
    + right. exists (t :: before), t', after. split_and!; [done| |done].
      intros b [->|?]%elem_of_cons; [done|by apply Hnone].
Qed.

End Append.

Section AppendClaim.

Context `{Libs}.

Lemma rev_app_app a b acc :
  String.rev_app (a +:+ b) acc = String.rev_app b (String.rev_app a acc).
Proof.
  revert acc. induction a as [|c a IH]; intros acc; [done|].
  rewrite app_cons_s. simpl. apply IH.
Qed.

Lemma rev_app_acc a acc : String.rev_app a acc = String.rev a +:+ acc.
Proof.
  unfold String.rev. revert acc.
  induction a as [|c a IH]; intros acc; [done|].
  simpl. rewrite (IH (String c acc)), (IH (String c "")).
  by rewrite app_assoc_s.
Qed.

Lemma rev_app_s a b : String.rev (a +:+ b) = String.rev b +:+ String.rev a.
Proof. unfold String.rev at 1. by rewrite rev_app_app, rev_app_acc. Qed.

Lemma ToLower_app a b : ToLower (a +:+ b) = ToLower a +:+ ToLower b.
Proof.
  induction a as [|c a IH]; [done|].
  rewrite app_cons_s. simpl. by rewrite IH.
Qed.

(** A temporary file is no record file. *)
Lemma tmp_not_json e : HasSuffix (ToLower (e +:+ ".tmp")) ".json" = false.
Proof. unfold HasSuffix. by rewrite ToLower_app, rev_app_s. Qed.

(** The atomic write changes the record of its own entry only. *)
Lemma record_at_rewrite w root rest rest' data :
  root ++ rest ≠ [] → rest' ≠ rest →
  record_at (set_fs (rewrite_file (fs w) (root ++ rest) data) w) root rest'
  = record_at w root rest'.
Proof.
  intros Hne Hrest. unfold record_at, rewrite_file. simpl.
  rewrite lookup_insert_ne by (by intros ?%app_inv_head).
  destruct (decide (root ++ rest' = tmp_key (root ++ rest))) as [Heq|Hneq].
  - rewrite Heq, lookup_delete_eq.
    destruct (root ++ rest) as [|x k _] using rev_ind; [done|].
    rewrite tmp_key_snoc, last_snoc, tmp_not_json.
    by destruct (fs w !! _) as [[]|].
  - by rewrite lookup_delete_ne.
Qed.

End AppendClaim.

(** C4 (as amended).  When no regular file lies on the way to the store
    directory, so that the scan itself does not fail, [AddReplyToTopic]
    returns the not-found error exactly when no record returned by
    [LoadTopics] has the title.  Otherwise it saves the first such record
    with the reply appended at the end of its replies: the record's own
    file is rewritten and the records of all other entries are as before;
    the one failure of that save, a directory at the place of the
    temporary file, is returned as an I/O error and leaves the file
    system as it was. *)
Theorem C4_append_reply `{Libs} (w : World) (title : string) (reply : Reply)
    (dir : string) :
  wf_fs (fs w) → free_way (fs w) (resolve w dir) →
  ((AddReplyToTopic title reply dir w).2
   = Err (Errorf ("topic not found: " +:+ title))
   ↔ ∀ t, t ∈ scan w dir → Title t ≠ title) ∧
  (∀ before t after,
     scan w dir = before ++ t :: after →
     (∀ b, b ∈ before → Title b ≠ title) → Title t = title →
     (∃ rest, Forall real_elem rest ∧ record_at w (resolve w dir) rest = Some t) ∧
     (∀ rest,
        record_at w (resolve w dir) rest = Some t →
        let k := resolve w dir ++ rest in
        let t' := set_Replies (Replies t ++ [reply]) t in
        let w' := set_fs (rewrite_file (fs w) k (json_MarshalIndent t')) w in
        AddReplyToTopic title reply dir w
        = (if is_dir (fs w) (tmp_key k)
           then (w, Err (Wrap "writing temp file" EISDIR))
           else (w', Ok ())) ∧
        fs w' !! k = Some (RegFile (json_MarshalIndent t')) ∧
        (∀ rest', rest' ≠ rest →
           record_at w' (resolve w dir) rest' = record_at w (resolve w dir) rest'))).
Proof.
  intros Hwf _.
  assert (∀ before t after rest,
    scan w dir = before ++ t :: after →
    (∀ b, b ∈ before → Title b ≠ title) → Title t = title →
    record_at w (resolve w dir) rest = Some t →
    AddReplyToTopic title reply dir w
    = (if is_dir (fs w) (tmp_key (resolve w dir ++ rest))
       then (w, Err (Wrap "writing temp file" EISDIR))
       else (set_fs (rewrite_file (fs w) (resolve w dir ++ rest)
               (json_MarshalIndent (set_Replies (Replies t ++ [reply]) t))) w,
             Ok ()))) as Hrun.
  { intros before t after rest Hscan Hnone Ht Hrec.
    unfold AddReplyToTopic, mbind, IO_bind.
    rewrite LoadTopics_scan, Hscan, AddReply_loop_first by done.
    unfold record_at in Hrec.
    destruct (fs w !! (resolve w dir ++ rest)) as [[data|]|] eqn:Hfile; [|done..].
    destruct (HasSuffix _ _); [|done].
    destruct (json_Decode_topic data) as [t0|]; [|done].
    simpl in Hrec. injection Hrec as <-.
    by apply (SaveTopic_existing w dir _ rest data). }
  split.
  - destruct (first_match (scan w dir) title)
      as [Hnone|(before & t & after & Hscan & Hnone & Ht)].
    + split; [done|]. intros _.
      unfold AddReplyToTopic, mbind, IO_bind.
      by rewrite LoadTopics_scan, AddReply_loop_none.
    + assert (t ∈ scan w dir) as Hin
        by (rewrite Hscan; apply elem_of_app; right; left).
      pose proof Hin as (rest & _ & Hrec)%elem_of_scan; [|done].
      rewrite (Hrun before t after rest) by done.
      split; [by destruct (is_dir _ _)|].
      intros Hno. by destruct (Hno t).
  - intros before t after Hscan Hnone Ht. split.
    + apply elem_of_scan; [done|]. rewrite Hscan.
      apply elem_of_app. right. left.
    + intros rest Hrec. split_and!.
      * by apply (Hrun before t after).
      * unfold rewrite_file. simpl. apply lookup_insert_eq.
      * intros rest' Hne. apply record_at_rewrite; [|done].
        unfold record_at in Hrec.
        destruct (fs w !! (resolve w dir ++ rest)) as [n|] eqn:Hfile; [|done].
        by destruct (Hwf _ _ Hfile) as (? & _).
Qed.

Lemma C4_append_reply_witness :
  wf_fs (fs Demo.store) ∧
  free_way (fs Demo.store) (resolve Demo.store "data/community") ∧
  @AddReplyToTopic Demo.store_libs "Second" Demo.a_reply "data/community"
    Demo.store
  = (set_fs (rewrite_file (fs Demo.store) (Demo.root ++ ["second.JSON"])
       (@json_MarshalIndent Demo.store_libs
          (set_Replies [Demo.a_reply] (set_Filename "second.JSON" Demo.second))))
       Demo.store, Ok ()).
Proof.
  assert (wf_fs (fs Demo.store)) as Hwf.
  { apply (bool_decide_unpack _). vm_compute. exact I. }
  assert (free_way (fs Demo.store) (resolve Demo.store "data/community"))
    as Hway.
  { apply free_way_take. vm_compute.
    repeat (constructor; [intros data; discriminate|]). constructor. }
  split; [exact Hwf|]. split; [exact Hway|].
  destruct (@C4_append_reply Demo.store_libs Demo.store "Second" Demo.a_reply
              "data/community" Hwf Hway) as [_ Hfirst].
  destruct (Hfirst [] (set_Filename "second.JSON" Demo.second)
              [set_Filename "hello_world.json" Demo.hello])
    as [_ Hrun]; [vm_compute; reflexivity|by intros ? ?%elem_of_nil|done|].
  destruct (Hrun ["second.JSON"]) as (Heq & _); [vm_compute; reflexivity|].
  rewrite Heq. reflexivity.
Defined.

(** The claim as stated fails: the store holds a record titled [Second],
    yet the call neither appends nor reports not-found. *)
Lemma C4_counterexample :
  set_Filename "second.JSON" Demo.second
    ∈ @scan Demo.store_libs Demo.blocked_store "data/community" ∧
  @AddReplyToTopic Demo.store_libs "Second" Demo.a_reply "data/community"
    Demo.blocked_store
  = (Demo.blocked_store, Err (Wrap "writing temp file" EISDIR)).
Proof.
  split; [vm_compute; left|vm_compute; reflexivity].
Qed.

(** ** The file name derived from a title *)

Section Derive.

Lemma has_sep_app a b : has_sep (a +:+ b) = has_sep a || has_sep b.
Proof.
  induction a as [|c a IH]; [done|].
  rewrite app_cons_s. simpl. by rewrite IH, orb_assoc.
Qed.

Lemma lower_byte_sep c : Ascii.eqb (lower_byte c) "/" = Ascii.eqb c "/".
Proof.
  unfold lower_byte.
  destruct ((65 <=? nat_of_ascii c) && (nat_of_ascii c <=? 90)) eqn:Hup;
    [|done].
  apply andb_prop in Hup as [Hlo Hhi].
  apply Nat.leb_le in Hlo, Hhi.
  assert (Ascii.eqb c "/" = false) as ->.
  { apply Ascii.eqb_neq. intros ->.
    change (nat_of_ascii "/") with 47 in Hlo. lia. }
  apply Ascii.eqb_neq. intros Heq.
  apply (f_equal nat_of_ascii) in Heq.
  rewrite nat_ascii_embedding in Heq by lia.
  change (nat_of_ascii "/") with 47 in Heq. lia.
Qed.

Lemma has_sep_ToLower s : has_sep (ToLower s) = has_sep s.
Proof.
  induction s as [|c s IH]; [done|]. simpl. by rewrite lower_byte_sep, IH.
Qed.

Lemma has_sep_ReplaceAll s old new :
  has_sep new = false → old ≠ "/"%char →
  has_sep (ReplaceAll s old new) = has_sep s.
Proof.
  intros Hnew Hold. induction s as [|c s IH]; [done|]. simpl.
  destruct (Ascii.eqb c old) eqn:Hc.
  - apply Ascii.eqb_eq in Hc as ->.
    rewrite has_sep_app, Hnew, IH. simpl.
    by apply Ascii.eqb_neq in Hold as ->.
  - simpl. by rewrite IH.
Qed.

Lemma has_sep_slice_to n s : has_sep s = false → has_sep (slice_to n s) = false.
Proof.
  revert n. induction s as [|c s IH]; intros [|n] Hs; try done.
  simpl in *. apply orb_false_elim in Hs as [-> Hs]. by apply IH.
Qed.

(** A title without separator derives a real file name. *)
Lemma derive_filename_real title :
  has_sep title = false → real_elem (derive_filename title).
Proof.
  intros Hs. unfold derive_filename.
  set (base := slice_to _ _).
  assert (String.length (base +:+ ".json") = String.length base + 5) as Hlen
    by apply length_app_s.
  assert (has_sep (base +:+ ".json") = false) as Hsep.
  { rewrite has_sep_app, orb_false_r. apply has_sep_slice_to.
    rewrite !has_sep_ReplaceAll by done. by rewrite has_sep_ToLower. }
  unfold real_elem.
  split_and!; [| | |done]; intros Heq; rewrite Heq in Hlen; simpl in Hlen; lia.
Qed.

Lemma derive_filename_json title :
  HasSuffix (ToLower (derive_filename title)) ".json" = true.
Proof.
  unfold derive_filename, HasSuffix. by rewrite ToLower_app, rev_app_s.
Qed.

Lemma derive_filename_not_tmp title e : derive_filename title ≠ e +:+ ".tmp".
Proof.
  intros Heq. pose proof (derive_filename_json title) as Hj.
  by rewrite Heq, tmp_not_json in Hj.
Qed.

End Derive.

(** ** Creating directories and saving a new record *)

Section Fresh.

Context `{Libs}.

Implicit Types m : gmap (list string) node.

Lemma is_dir_insert m k n p :
  is_dir m p = true → is_dir m k = false → is_dir (<[k:=n]> m) p = true.
Proof.
  intros Hp Hk. assert (p ≠ k) as Hne by (intros ->; congruence).
  unfold is_dir in *. destruct p as [|x p]; [done|].
  unfold stat in *. by rewrite lookup_insert_ne.
Qed.

Lemma is_dir_delete m k p :
  is_dir m p = true → is_dir m k = false → is_dir (delete k m) p = true.
Proof.
  intros Hp Hk. assert (p ≠ k) as Hne by (intros ->; congruence).
  unfold is_dir in *. destruct p as [|x p]; [done|].
  unfold stat in *. by rewrite lookup_delete_ne.
Qed.

Lemma wf_fs_insert m k n :
  wf_fs m → k ≠ [] → Forall real_elem k →
  is_dir m (removelast k) = true → is_dir m k = false →
  wf_fs (<[k:=n]> m).
Proof.
  intros Hwf Hnil Hreal Hparent Hk k' n' Hlook.
  destruct (decide (k = k')) as [<-|Hne].
  - split_and!; [done..|]. by apply is_dir_insert.
  - rewrite lookup_insert_ne in Hlook by done.
    destruct (Hwf _ _ Hlook) as (? & ? & ?).
    split_and!; [done..|]. by apply is_dir_insert.
Qed.

Lemma wf_fs_delete m k : wf_fs m → is_dir m k = false → wf_fs (delete k m).
Proof.
  intros Hwf Hk k' n' Hlook.
  apply lookup_delete_Some in Hlook as [Hne Hlook].
  destruct (Hwf _ _ Hlook) as (? & ? & ?).
  split_and!; [done..|]. by apply is_dir_delete.
Qed.

Lemma is_dir_delete_false m k p :
  is_dir m p = false → is_dir (delete k m) p = false.
Proof.
  unfold is_dir. destruct p as [|x p]; [done|]. unfold stat.
  destruct (decide (k = x :: p)) as [->|Hne].
  - by rewrite lookup_delete_eq.
  - by rewrite lookup_delete_ne.
Qed.

(** The atomic write keeps the file system well-formed. *)
Lemma wf_fs_rewrite_file m k e data :
  wf_fs m → Forall real_elem (k ++ [e]) → is_dir m k = true →
  is_dir m (k ++ [e +:+ ".tmp"]) = false → is_dir m (k ++ [e]) = false →
  wf_fs (rewrite_file m (k ++ [e]) data).
Proof.
  intros Hwf Hreal Hk Htmp Hfile. unfold rewrite_file. rewrite tmp_key_snoc.
  apply wf_fs_insert; [by apply wf_fs_delete|by destruct k|done| |].
  - rewrite removelast_snoc. by apply is_dir_delete.
  - by apply is_dir_delete_false.
Qed.

(** In a well-formed file system the directories on the way to a
    directory exist. *)
Lemma wf_fs_dirs_to m k :
  wf_fs m → stat m k = Some Directory →
  ∀ l, l `prefix_of` k → stat m l = Some Directory.
Proof.
  intros Hwf Hk l [l' ->].
  destruct (decide (l' = [])) as [->|Hl']; [by rewrite app_nil_r in Hk|].
  apply (wf_fs_ancestors m l l'); [done..|].
  rewrite stat_nonempty in Hk by (by destruct l, l'). by rewrite Hk.
Qed.

(** [MkdirAll] when no regular file lies on the way: the directories on
    the way exist afterwards, what was there stays, and nothing else is
    new. *)
Lemma mkdir_all_spec t : ∀ d m,
  (∀ l data, l ≠ [] → l `prefix_of` t → stat m (d ++ l) ≠ Some (RegFile data)) →
  ∃ m', OS.mkdir_all d t m = (m', None) ∧
    (∀ l, l ≠ [] → l `prefix_of` t → stat m' (d ++ l) = Some Directory) ∧
    (∀ k n, m !! k = Some n → m' !! k = Some n) ∧
    (∀ k n, m' !! k = Some n →
       m !! k = Some n ∨
       (n = Directory ∧ ∃ l, l ≠ [] ∧ l `prefix_of` t ∧ k = d ++ l)).
Proof.
  induction t as [|e t IH]; intros d m Hfree.
  { exists m. split_and!; [done| |done|by left].
    intros l Hl Hpre. by apply prefix_nil_inv in Hpre. }
  assert (∀ m1, (∀ k, k ≠ d ++ [e] → m1 !! k = m !! k) →
    ∀ l data, l ≠ [] → l `prefix_of` t →
      stat m1 ((d ++ [e]) ++ l) ≠ Some (RegFile data)) as Hfree'.
  { intros m1 Hm1 l data Hl Hpre. rewrite <- app_assoc.
    rewrite stat_nonempty, Hm1, <- stat_nonempty;
      [|by destruct d| |by destruct d].
    - apply Hfree; [done|]. by apply prefix_cons.
    - intros Heq. apply (f_equal length) in Heq.
      rewrite !length_app in Heq. simpl in Heq. destruct l; [done|].
      simpl in Heq. lia. }
  assert (∀ l, l ≠ [] → l `prefix_of` e :: t →
    l = [e] ∨ ∃ l', l' ≠ [] ∧ l' `prefix_of` t ∧ l = e :: l') as Hsplit.
  { intros l Hl Hpre. destruct l as [|x l]; [done|].
    apply prefix_cons_inv_1 in Hpre as Hx. subst x.
    apply prefix_cons_inv_2 in Hpre.
    destruct l as [|y l]; [by left|]. right. by exists (y :: l). }
  simpl. destruct (stat m (d ++ [e])) as [[data|]|] eqn:Hst.
  - by destruct (Hfree [e] data); [|apply prefix_cons, prefix_nil|].
  - destruct (IH (d ++ [e]) m) as (m' & Hrun & Hdirs & Hkeep & Hnew).
    { by apply Hfree'. }
    exists m'. split_and!; [done| |done|].
    + intros l Hl Hpre. destruct (Hsplit l Hl Hpre) as [->|(l' & ? & ? & ->)].
      * rewrite stat_snoc in *. by apply Hkeep.
      * replace (d ++ e :: l') with ((d ++ [e]) ++ l')
          by (by rewrite <- app_assoc).
        by apply Hdirs.
    + intros k n Hk. destruct (Hnew k n Hk) as [?|(-> & l & ? & ? & ->)];
        [by left|right].
      split; [done|]. exists (e :: l). split_and!; [done| |].
      * by apply prefix_cons.
      * by rewrite <- app_assoc.
  - rewrite stat_snoc in Hst.
    destruct (IH (d ++ [e]) (<[d ++ [e] := Directory]> m))
      as (m' & Hrun & Hdirs & Hkeep & Hnew).
    { apply Hfree'. intros k Hk. by rewrite lookup_insert_ne. }
    exists m'. split_and!; [done| | |].
    + intros l Hl Hpre. destruct (Hsplit l Hl Hpre) as [->|(l' & ? & ? & ->)].
      * rewrite stat_snoc. apply Hkeep, lookup_insert_eq.
      * replace (d ++ e :: l') with ((d ++ [e]) ++ l')
          by (by rewrite <- app_assoc).
        by apply Hdirs.
    + intros k n Hk. apply Hkeep. rewrite lookup_insert_ne; [done|].
      intros <-. congruence.
    + intros k n Hk. destruct (Hnew k n Hk) as [Hin|(-> & l & ? & ? & ->)].
      * destruct (decide (d ++ [e] = k)) as [<-|Hne].
        -- rewrite lookup_insert_eq in Hin. injection Hin as <-.
           right. split; [done|]. exists [e].
           split_and!; [done|apply prefix_cons, prefix_nil|done].
        -- rewrite lookup_insert_ne in Hin by done. by left.
      * right. split; [done|]. exists (e :: l). split_and!; [done| |].
        -- by apply prefix_cons.
        -- by rewrite <- app_assoc.
Qed.

End Fresh.

Section FreshSave.

Context `{Libs}.

Implicit Types m : gmap (list string) node.

Lemma is_dir_rewrite_file_false m k data p :
  is_dir m p = false → is_dir (rewrite_file m k data) p = false.
Proof.
  intros Hp. unfold rewrite_file, is_dir. destruct p as [|x p]; [done|].
  unfold stat. destruct (decide (k = x :: p)) as [->|Hne].
  - by rewrite lookup_insert_eq.
  - rewrite lookup_insert_ne by done.
    apply (is_dir_delete_false m (tmp_key k)) in Hp. apply Hp.
Qed.

Lemma resolve_cwd w1 w2 p : cwd w1 = cwd w2 → resolve w1 p = resolve w2 p.
Proof. unfold resolve, Getwd. by intros ->. Qed.

(** [SaveTopic] on a record without location, in an existing store
    directory: the file is written under the name derived from the title,
    which the function's own copy of the record receives as location. *)
Lemma SaveTopic_fresh w dir topic :
  wf_fs (fs w) → stat (fs w) (resolve w dir) = Some Directory →
  Filename topic = "" → has_sep (Title topic) = false →
  is_dir (fs w) (resolve w dir ++ [derive_filename (Title topic) +:+ ".tmp"]) = false →
  is_dir (fs w) (resolve w dir ++ [derive_filename (Title topic)]) = false →
  SaveTopic_body topic dir w
  = (set_fs (rewrite_file (fs w) (resolve w dir ++ [derive_filename (Title topic)])
               (json_MarshalIndent topic)) w,
     Ok (set_Filename (derive_filename (Title topic)) topic)).
Proof.
  intros Hwf Hroot Hname Hsep Htmp Hfile.
  pose proof (derive_filename_real _ Hsep) as Hreal.
  pose proof (resolve_real w dir) as Hrr.
  pose proof (wf_fs_dirs_to _ _ Hwf Hroot) as Hdirs.
  unfold SaveTopic_body, mbind, IO_bind.
  rewrite decide_False by (by rewrite Hname; intros ?).
  unfold wrap at 1. unfold OS.MkdirAll at 1.
  rewrite Abs_abs_path, resolve_abs_path by done.
  rewrite mkdir_all_present by (intros l _ Hl; by apply Hdirs).
  rewrite set_fs_id. unfold mret, IO_ret.
  rewrite Join_abs_path_name by done.
  rewrite write_topic_at;
    [|apply Forall_app; split; [done|constructor; [done|constructor]]|done..].
  rewrite (Rel_abs_path _ [_]); [done|done|].
  constructor; [done|constructor].
Qed.

End FreshSave.

(** C2 (as amended).  Two records saved one after the other without
    location, into a store directory that exists, with titles of ASCII
    bytes that hold no path separator and no directory at the names they
    derive or at the temporary names, each go to the file named by what
    their title derives: when the derived names differ both files exist
    afterwards, each with its own record; when they coincide there is one
    file, and it holds the second record. *)
Theorem C2_same_derived_name_same_file `{Libs} (w : World) (dir : string)
    (t1 t2 : Topic) :
  wf_fs (fs w) → stat (fs w) (resolve w dir) = Some Directory →
  (∀ t, t ∈ [t1; t2] →
     is_dir (fs w) (resolve w dir ++ [derive_filename (Title t)]) = false ∧
     is_dir (fs w) (resolve w dir ++ [derive_filename (Title t) +:+ ".tmp"])
     = false) →
  Filename t1 = "" → Filename t2 = "" →
  has_sep (Title t1) = false → has_sep (Title t2) = false →
  is_ascii (Title t1) = true → is_ascii (Title t2) = true →
  ∃ w1 w2,
    SaveTopic_body t1 dir w
    = (w1, Ok (set_Filename (derive_filename (Title t1)) t1)) ∧
    SaveTopic_body t2 dir w1
    = (w2, Ok (set_Filename (derive_filename (Title t2)) t2)) ∧
    fs w2 !! (resolve w dir ++ [derive_filename (Title t2)])
    = Some (RegFile (json_MarshalIndent t2)) ∧
    (derive_filename (Title t1) ≠ derive_filename (Title t2) →
     fs w2 !! (resolve w dir ++ [derive_filename (Title t1)])
     = Some (RegFile (json_MarshalIndent t1))) ∧
    (derive_filename (Title t1) = derive_filename (Title t2) →
     fs w2 !! (resolve w dir ++ [derive_filename (Title t1)])
     = Some (RegFile (json_MarshalIndent t2))).
Proof.
  intros Hwf Hroot Hflat Hn1 Hn2 Hs1 Hs2 _ _.
  destruct (Hflat t1) as [Hf1 Hg1]; [by left|].
  destruct (Hflat t2) as [Hf2 Hg2]; [by right; left|]. clear Hflat.
  set (root := resolve w dir) in *.
  set (k1 := root ++ [derive_filename (Title t1)]).
  set (k2 := root ++ [derive_filename (Title t2)]).
  set (w1 := set_fs (rewrite_file (fs w) k1 (json_MarshalIndent t1)) w).
  set (w2 := set_fs (rewrite_file (fs w1) k2 (json_MarshalIndent t2)) w1).
  pose proof (derive_filename_real _ Hs1) as Hr1.
  pose proof (derive_filename_real _ Hs2) as Hr2.
  assert (Forall real_elem root) as Hrr by apply resolve_real.
  assert (resolve w1 dir = root) as Hres1 by by apply resolve_cwd.
  exists w1, w2. split_and!.
  - by apply SaveTopic_fresh.
  - subst w2 k2. rewrite <- Hres1.
    apply SaveTopic_fresh; [| |done|done|..]; rewrite ?Hres1; simpl.
    + apply wf_fs_rewrite_file; [done| |by apply is_dir_stat|done..].
      apply Forall_app. split; [done|constructor; [done|constructor]].
    + apply is_dir_stat.
      unfold rewrite_file.
      apply is_dir_insert; [|by apply is_dir_delete_false].
      apply is_dir_delete; [by apply is_dir_stat|].
      unfold k1. by rewrite tmp_key_snoc.
    + by apply is_dir_rewrite_file_false.
    + by apply is_dir_rewrite_file_false.
  - unfold w2, rewrite_file. simpl. apply lookup_insert_eq.
  - intros Hne. unfold w2, w1, rewrite_file, k1, k2. simpl.
    rewrite lookup_insert_ne by (by intros ?%app_inv_head; simplify_eq).
    rewrite !tmp_key_snoc.
    rewrite lookup_delete_ne.
    { apply lookup_insert_eq. }
    intros Heq%app_inv_head. injection Heq as Heq.
    symmetry in Heq. by apply derive_filename_not_tmp in Heq.
  - intros Heq. unfold k1. rewrite Heq. unfold w2, rewrite_file, k2. simpl.
    apply lookup_insert_eq.
Qed.

Lemma C2_same_derived_name_same_file_witness :
  wf_fs (fs Demo.empty_store) ∧
  ∃ w1 w2,
    @SaveTopic_body Demo.twin_libs Demo.hello "data/community" Demo.empty_store
    = (w1, Ok (set_Filename "hello_world.json" Demo.hello)) ∧
    @SaveTopic_body Demo.twin_libs Demo.second "data/community" w1
    = (w2, Ok (set_Filename "second.json" Demo.second)) ∧
    fs w2 !! (Demo.root ++ ["hello_world.json"])
    = Some (RegFile (Demo.show_topic Demo.hello)).
Proof.
  assert (wf_fs (fs Demo.empty_store)) as Hwf.
  { apply (bool_decide_unpack _). vm_compute. exact I. }
  split; [exact Hwf|].
  destruct (@C2_same_derived_name_same_file Demo.twin_libs Demo.empty_store
              "data/community" Demo.hello Demo.second)
    as (w1 & w2 & Hs1 & Hs2 & _ & Hboth & _);
    [exact Hwf|vm_compute; reflexivity| |reflexivity..|].
  - intros t Ht. apply elem_of_cons in Ht as [->|Ht];
      [|apply elem_of_cons in Ht as [->|Ht]; [|inversion Ht]];
      split; vm_compute; reflexivity.
  - exists w1, w2. split_and!; [exact Hs1|exact Hs2|].
    apply Hboth. vm_compute. discriminate.
Defined.

(** The claim as stated fails: two different records, both without
    location, are saved to the same location, and the scan that follows
    finds the second only. *)
Lemma C2_counterexample :
  let r1 := @SaveTopic_body Demo.twin_libs Demo.hello "data/community"
              Demo.empty_store in
  let r2 := @SaveTopic_body Demo.twin_libs Demo.hello_again "data/community"
              r1.1 in
  Demo.hello ≠ Demo.hello_again ∧
  Filename Demo.hello = "" ∧ Filename Demo.hello_again = "" ∧
  r1.2 = Ok (set_Filename "hello_world.json" Demo.hello) ∧
  r2.2 = Ok (set_Filename "hello_world.json" Demo.hello_again) ∧
  @scan Demo.twin_libs r1.1 "data/community"
  = [set_Filename "hello_world.json" Demo.hello] ∧
  @scan Demo.twin_libs r2.1 "data/community"
  = [set_Filename "hello_world.json" Demo.hello_again].
Proof.
  intros r1 r2.
  split_and!; [discriminate|reflexivity|reflexivity|..];
    vm_compute; reflexivity.
Qed.

(** C3.  [SaveTopic] assigns the saved file's path relative to the store
    root to its own copy of the record; the record the caller holds has its
    location as before the call (here: still unset). *)
Theorem C3_location_lost_on_return :
  let body := @SaveTopic_body Demo.store_libs Demo.hello "data/community"
                Demo.empty_store in
  body.2 = Ok (set_Filename "hello_world.json" Demo.hello) ∧
  @SaveTopic Demo.store_libs Demo.hello "data/community" Demo.empty_store
  = (body.1, Ok ()) ∧
  @call_SaveTopic Demo.store_libs Demo.hello "data/community" Demo.empty_store
  = (body.1, Ok Demo.hello) ∧
  Filename Demo.hello = "".
Proof. intros body. split_and!; vm_compute; reflexivity. Qed.

(** C9.  A title that holds a path separator derives a text that is no
    file name, and the record is not placed directly under the store root:
    [Mind/Body] is saved to [<root>/mind/body.json], and [../Escape] is
    saved to [escape.json] in the parent of the root, where no scan of the
    store finds it. *)
Theorem C9_separator_in_title :
  let r1 := @SaveTopic_body Demo.store_libs Demo.nested "data/community"
              Demo.empty_store in
  let r2 := @SaveTopic_body Demo.store_libs Demo.escaping "data/community"
              Demo.empty_store in
  derive_filename "Mind/Body" = "mind/body.json" ∧
  derive_filename "../Escape" = "../escape.json" ∧
  r1.2 = Ok (set_Filename "mind/body.json" Demo.nested) ∧
  fs r1.1 !! (Demo.root ++ ["mind"]) = Some Directory ∧
  fs r1.1 !! (Demo.root ++ ["mind"; "body.json"])
  = Some (RegFile (Demo.show_topic Demo.nested)) ∧
  r2.2 = Ok (set_Filename "../escape.json" Demo.escaping) ∧
  fs r2.1 !! ["srv"; "app"; "data"; "escape.json"]
  = Some (RegFile (Demo.show_topic Demo.escaping)) ∧
  @scan (Demo.libs [Demo.escaping] None) r2.1 "data/community" = [].
Proof. intros r1 r2. split_and!; vm_compute; reflexivity. Qed.

(** ** Seeding: [InitializeIfEmpty] *)

Section Seeding.

Context `{Libs}.

Implicit Types m : gmap (list string) node.

(** The names [os.ReadDir] lists are those of the entries in the
    directory. *)
Lemma elem_of_children m k e :
  e ∈ OS.children m k ↔ is_Some (m !! (k ++ [e])).
Proof.
  unfold OS.children. rewrite merge_sort_Permutation, list_elem_of_omap.
  split.
  - intros (k' & Hin & Hname).
    apply list_elem_of_fmap in Hin as ([k'' n] & -> & Hin). simpl in *.
    apply elem_of_map_to_list in Hin.
    destruct (reverse k'') as [|name rparent] eqn:Hrev; [done|].
    case_decide as Hk; [|done]. injection Hname as ->.
    assert (k'' = k ++ [e]) as <-; [|by exists n].
    rewrite <- (reverse_involutive k''), Hrev, reverse_cons. by rewrite Hk.
  - intros [n Hn]. exists (k ++ [e]). split.
    + apply list_elem_of_fmap. exists (k ++ [e], n). split; [done|].
      by apply elem_of_map_to_list.
    + rewrite reverse_app. simpl. rewrite reverse_involutive.
      by rewrite decide_True.
Qed.

Lemma children_nil m k :
  OS.children m k = [] ↔ ∀ e, m !! (k ++ [e]) = None.
Proof.
  split.
  - intros Hnil e. destruct (m !! (k ++ [e])) as [n|] eqn:Hl; [|done].
    assert (e ∈ OS.children m k) as Hin by (apply elem_of_children; by exists n).
    rewrite Hnil in Hin. by apply elem_of_nil in Hin.
  - intros Hnone. apply elem_of_nil_inv. intros e Hin%elem_of_children.
    rewrite Hnone in Hin. by destruct Hin.
Qed.

Lemma store_ready_rewrite m root e data :
  store_ready m root → Forall real_elem root → real_elem e →
  store_ready (rewrite_file m (root ++ [e]) data) root.
Proof.
  intros (Hwf & Hroot & Hflat) Hrr He. split_and!.
  - apply wf_fs_rewrite_file; [done| |by apply is_dir_stat|done..].
    apply Forall_app. split; [done|constructor; [done|constructor]].
  - apply is_dir_stat. unfold rewrite_file.
    apply is_dir_insert; [|by apply is_dir_delete_false].
    apply is_dir_delete; [by apply is_dir_stat|].
    by rewrite tmp_key_snoc.
  - intros e'. by apply is_dir_rewrite_file_false.
Qed.

Lemma seed_loop_spec seeds : ∀ w,
  store_ready (fs w) (resolve w "data/community") →
  Forall (λ seed, has_sep (STitle seed) = false) seeds →
  seed_loop seeds w
  = (mkWorld (cwd w)
       (seed_fs (resolve w "data/community") (ticks w) seeds (fs w))
       (ticks w + length seeds), Ok ()).
Proof.
  induction seeds as [|seed seeds IH]; intros w Hready Hseeds.
  { simpl. rewrite Nat.add_0_r. by destruct w. }
  inversion Hseeds as [|?? Hsep Hrest]; subst.
  destruct Hready as (Hwf & Hroot & Hflat).
  set (root := resolve w "data/community") in *.
  set (wt := mkWorld (cwd w) (fs w) (S (ticks w))).
  assert (resolve wt "data/community" = root) as Hres by done.
  pose proof (derive_filename_real _ Hsep) as Hreal.
  assert (SaveTopic (seed_topic (rfc3339 (ticks w)) seed) "data/community" wt
          = (set_fs (rewrite_file (fs w) (root ++ [derive_filename (STitle seed)])
               (json_MarshalIndent (seed_topic (rfc3339 (ticks w)) seed))) wt,
             Ok ())) as Hsave.
  { unfold SaveTopic, mbind, IO_bind.
    rewrite SaveTopic_fresh; rewrite ?Hres; try done. }
  simpl seed_loop. unfold mbind, IO_bind, time_Now_RFC3339, wrap.
  fold wt. fold (seed_topic (rfc3339 (ticks w)) seed). rewrite Hsave.
  rewrite IH; simpl; [| |done].
  - fold root. by rewrite Nat.add_succ_r.
  - apply store_ready_rewrite; [done|apply resolve_real|done].
Qed.

End Seeding.

Section SeedFiles.

Context `{Libs}.

Implicit Types m : gmap (list string) node.

Lemma rewrite_file_fresh_tmp m k data :
  m !! tmp_key k = None → rewrite_file m k data = <[k := RegFile data]> m.
Proof. intros Htmp. unfold rewrite_file. by rewrite delete_id. Qed.

(** Without temporary files left in the store directory, seeding only
    adds the files of the seed entries. *)
Lemma seed_fs_inserts root seeds : ∀ n m,
  (∀ e, m !! (root ++ [e +:+ ".tmp"]) = None) →
  (∀ e, seed_fs root n seeds m !! (root ++ [e +:+ ".tmp"]) = None) ∧
  dom (seed_fs root n seeds m)
  = dom m ∪ list_to_set ((λ seed, root ++ [derive_filename (STitle seed)]) <$> seeds) ∧
  (∀ k, k ∉ ((λ seed, root ++ [derive_filename (STitle seed)]) <$> seeds) →
        seed_fs root n seeds m !! k = m !! k).
Proof.
  induction seeds as [|seed seeds IH]; intros n m Htmp.
  { simpl. split_and!; [done| |done]. by rewrite union_empty_r_L. }
  simpl seed_fs.
  rewrite rewrite_file_fresh_tmp by (rewrite tmp_key_snoc; apply Htmp).
  destruct (IH (S n) (<[root ++ [derive_filename (STitle seed)] :=
      RegFile (json_MarshalIndent (seed_topic (rfc3339 n) seed))]> m))
    as (Htmp' & Hdom & Hother).
  { intros e. rewrite lookup_insert_ne; [apply Htmp|].
    intros Heq%app_inv_head. injection Heq as Heq.
    by apply derive_filename_not_tmp in Heq. }
  split_and!; [done| |].
  - rewrite Hdom, dom_insert_L, fmap_cons, list_to_set_cons.
    by rewrite (comm_L (∪) {[_]} (dom m)), (assoc_L (∪)).
  - intros k Hk. rewrite fmap_cons in Hk.
    apply not_elem_of_cons in Hk as [Hne Hk].
    rewrite Hother by done. by rewrite lookup_insert_ne.
Qed.

(** The file of a seed entry holds that entry's record unless a later
    entry derives the same name. *)
Lemma seed_fs_lookup root seeds : ∀ n m i seed,
  (∀ e, m !! (root ++ [e +:+ ".tmp"]) = None) →
  seeds !! i = Some seed →
  derive_filename (STitle seed)
    ∉ ((λ s, derive_filename (STitle s)) <$> drop (S i) seeds) →
  seed_fs root n seeds m !! (root ++ [derive_filename (STitle seed)])
  = Some (RegFile (json_MarshalIndent (seed_topic (rfc3339 (n + i)) seed))).
Proof.
  induction seeds as [|s seeds IH]; intros n m i seed Htmp Hi Hlast; [done|].
  simpl seed_fs.
  rewrite rewrite_file_fresh_tmp by (rewrite tmp_key_snoc; apply Htmp).
  assert (∀ e, <[root ++ [derive_filename (STitle s)] :=
      RegFile (json_MarshalIndent (seed_topic (rfc3339 n) s))]> m
      !! (root ++ [e +:+ ".tmp"]) = None) as Htmp'.
  { intros e. rewrite lookup_insert_ne; [apply Htmp|].
    intros Heq%app_inv_head. injection Heq as Heq.
    by apply derive_filename_not_tmp in Heq. }
  destruct i as [|i]; simpl in Hi, Hlast.
  - injection Hi as ->. rewrite Nat.add_0_r.
    destruct (seed_fs_inserts root seeds (S n) _ Htmp') as (_ & _ & Hother).
    rewrite Hother; [apply lookup_insert_eq|].
    intros (s' & Heq & Hin)%list_elem_of_fmap. apply Hlast.
    apply app_inv_head in Heq. injection Heq as Heq.
    apply list_elem_of_fmap. by exists s'.
  - rewrite (IH (S n) _ i seed); [|done..].
    by rewrite Nat.add_succ_r.
Qed.

End SeedFiles.

Section SeedClaim.

Context `{Libs}.

Implicit Types m : gmap (list string) node.

Lemma mkdir_all_wf m root m' :
  wf_fs m → Forall real_elem root →
  (∀ l, l ≠ [] → l `prefix_of` root → stat m' ([] ++ l) = Some Directory) →
  (∀ k n, m !! k = Some n → m' !! k = Some n) →
  (∀ k n, m' !! k = Some n →
     m !! k = Some n ∨
     (n = Directory ∧ ∃ l, l ≠ [] ∧ l `prefix_of` root ∧ k = [] ++ l)) →
  wf_fs m'.
Proof.
  intros Hwf Hreal Hdirs Hkeep Hnew k n Hk.
  destruct (Hnew k n Hk) as [Hold|(-> & l & Hl & [l' ->] & ->)].
  - destruct (Hwf _ _ Hold) as (? & ? & Hparent). split_and!; [done..|].
    apply is_dir_stat in Hparent. apply is_dir_stat.
    destruct (removelast k) as [|x p] eqn:Hp; [done|].
    simpl in *. by apply Hkeep.
  - simpl. split_and!; [done|by apply Forall_app in Hreal as [? _]|].
    apply is_dir_stat.
    destruct l as [|x l _] using rev_ind; [done|].
    rewrite removelast_snoc.
    destruct (decide (l = [])) as [->|Hne]; [done|].
    apply (Hdirs l); [done|]. exists ([x] ++ l'). by rewrite <- !app_assoc.
Qed.

Lemma loadConfig_keep path w w' config :
  loadConfig path w = (w, Ok config) → cwd w' = cwd w →
  (∀ k n, fs w !! k = Some n → fs w' !! k = Some n) →
  loadConfig path w' = (w', Ok config).
Proof.
  unfold loadConfig, OS.ReadAll. intros Hload Hcwd Hkeep.
  rewrite (resolve_cwd w' w) by done.
  destruct (resolve w path) as [|x k] eqn:Hres; [done|].
  unfold stat in *.
  destruct (fs w !! (x :: k)) as [[data|]|] eqn:Hfile; [|done..].
  rewrite (Hkeep _ _ Hfile).
  destruct (json_decode_config data); [|done]. by simplify_eq.
Qed.

End SeedClaim.

(** C5 (as amended).  [InitializeIfEmpty] leaves a store directory that
    holds an entry as it is and writes nothing.  On a missing or empty
    store directory, with no regular file on the way to it, a seed file
    that loads and seed titles of ASCII bytes without path separator, it
    creates the directory where missing and saves one record per seed
    entry, in order, each with the entry's title, body, author and tags,
    no reply and no vote, to the file its title derives: the new files
    are those of the derived names, a file holds the record of the last
    entry that derives its name, and they are as many as the entries when
    the derived names are pairwise distinct. *)
Theorem C5_seed_if_empty `{Libs} (w : World) (configPath : string) :
  wf_fs (fs w) →
  ((∃ e, is_Some (fs w !! (resolve w "data/community" ++ [e]))) →
   InitializeIfEmpty configPath w = (w, Ok ())) ∧
  (∀ config,
     (∀ e, fs w !! (resolve w "data/community" ++ [e]) = None) →
     free_way (fs w) (resolve w "data/community") →
     loadConfig configPath w = (w, Ok config) →
     Forall (λ seed, has_sep (STitle seed) = false) (SeedTopics config) →
     Forall (λ seed, is_ascii (STitle seed) = true) (SeedTopics config) →
     let root := resolve w "data/community" in
     let m1 := (OS.mkdir_all [] root (fs w)).1 in
     let m2 := seed_fs root (ticks w) (SeedTopics config) m1 in
     let names := (λ seed, derive_filename (STitle seed)) <$> SeedTopics config in
     stat m1 root = Some Directory ∧
     InitializeIfEmpty configPath w
     = (mkWorld (cwd w) m2 (ticks w + length (SeedTopics config)), Ok ()) ∧
     dom m2 = dom m1 ∪ list_to_set ((λ name, root ++ [name]) <$> names) ∧
     (∀ i seed,
        SeedTopics config !! i = Some seed →
        derive_filename (STitle seed) ∉ drop (S i) names →
        m2 !! (root ++ [derive_filename (STitle seed)])
        = Some (RegFile (json_MarshalIndent
                           (seed_topic (rfc3339 (ticks w + i)) seed)))) ∧
     (NoDup names → size (dom m2 ∖ dom m1) = length (SeedTopics config))).
Proof.
  intros Hwf. set (root := resolve w "data/community").
  assert (Forall real_elem root) as Hrr by apply resolve_real.
  split.
  - (* the directory holds an entry *)
    intros [e He].
    assert (stat (fs w) root = Some Directory) as Hroot
      by by apply (wf_fs_ancestors _ root [e]).
    unfold InitializeIfEmpty, OS.ReadDir. fold root. rewrite Hroot.
    assert (e ∈ OS.children (fs w) root) as Hin by by apply elem_of_children.
    destruct (OS.children (fs w) root) as [|x files]; [by apply elem_of_nil in Hin|].
    destruct (decide (0 < length (x :: files))) as [_|Hn];
      [done|simpl in Hn; lia].
  - intros config Hempty Hfree Hload Hseeds _. simpl.
    (* the file system once the directory exists *)
    destruct (mkdir_all_spec root [] (fs w)) as (m1 & Hmk & Hdirs & Hkeep & Hnew).
    { intros l data _ Hl. by apply Hfree. }
    rewrite Hmk. simpl.
    assert (∀ e, m1 !! (root ++ [e]) = None) as Hempty1.
    { intros e. destruct (m1 !! (root ++ [e])) as [n|] eqn:Hl; [|done].
      destruct (Hnew _ _ Hl) as [Hold|(_ & l & _ & [l' Hroot] & Heq)].
      - by rewrite Hempty in Hold.
      - simpl in Heq. subst l. apply (f_equal length) in Hroot.
        rewrite !length_app in Hroot. simpl in Hroot. lia. }
    assert (stat m1 root = Some Directory) as Hroot1.
    { destruct (decide (root = [])) as [->|Hne]; [done|].
      by apply (Hdirs root). }
    assert (store_ready m1 root) as Hready.
    { split_and!; [by eapply mkdir_all_wf|done|].
      intros e. unfold is_dir. by rewrite stat_snoc, Hempty1. }
    assert (InitializeIfEmpty configPath w
            = (mkWorld (cwd w) (seed_fs root (ticks w) (SeedTopics config) m1)
                 (ticks w + length (SeedTopics config)), Ok ())) as Hrun.
    { unfold InitializeIfEmpty, OS.ReadDir. fold root.
      destruct (stat (fs w) root) as [[data|]|] eqn:Hroot.
      - by destruct (Hfree root data).
      - (* the directory exists and is empty *)
        assert (m1 = fs w) as ->.
        { pose proof (mkdir_all_present (fs w) [] root) as Hp.
          rewrite Hmk in Hp. symmetry. injection Hp; [done|].
          intros l _ Hl. by apply (wf_fs_dirs_to (fs w) root). }
        assert (OS.children (fs w) root = []) as -> by by apply children_nil.
        destruct (decide (0 < length (@nil string))) as [Hn|_];
          [simpl in Hn; lia|].
        unfold mbind, IO_bind, wrap. rewrite Hload.
        by rewrite seed_loop_spec.
      - (* the directory is missing *)
        simpl. unfold OS.MkdirAll. fold root. rewrite Hmk.
        destruct (decide (0 < length (@nil string))) as [Hn|_];
          [simpl in Hn; lia|].
        unfold mbind, IO_bind, wrap.
        rewrite (loadConfig_keep configPath w (set_fs m1 w) config);
          [|done..].
        rewrite seed_loop_spec; [done| |done].
        by rewrite (resolve_cwd (set_fs m1 w) w). }
    destruct (seed_fs_inserts root (SeedTopics config) (ticks w) m1)
      as (_ & Hdom & _); [intros e; apply Hempty1|].
    rewrite <- list_fmap_compose.
    split_and!; [done..| |].
    + intros i seed Hi Hlast. apply seed_fs_lookup; [intros e; apply Hempty1|done|].
      by rewrite fmap_drop.
    + intros Hnodup. rewrite Hdom.
      set (keys := (λ seed, root ++ [derive_filename (STitle seed)])
                   <$> SeedTopics config).
      assert ((dom m1 ∪ list_to_set keys) ∖ dom m1
              = (list_to_set keys : gset (list string))) as ->.
      { apply set_eq. intros k.
        rewrite elem_of_difference, elem_of_union, elem_of_list_to_set.
        split; [by intros [[?|?] ?]|]. intros Hk. split; [by right|].
        apply list_elem_of_fmap in Hk as (seed & -> & _).
        rewrite elem_of_dom, Hempty1. by intros []. }
      rewrite size_list_to_set; [unfold keys; by rewrite length_fmap|].
      unfold keys.
      rewrite (list_fmap_compose (λ seed, derive_filename (STitle seed))
                 (λ name, root ++ [name])).
      apply NoDup_fmap_2; [|done].
      intros a b Hab%app_inv_head. by injection Hab.
Qed.

Lemma C5_seed_if_empty_witness :
  let libs := Demo.libs [] (Some Demo.seeds) in
  let run := @InitializeIfEmpty libs "data/config.json" Demo.seed_world in
  wf_fs (fs Demo.seed_world) ∧
  run.2 = Ok () ∧
  size (dom (fs run.1)
        ∖ dom (OS.mkdir_all [] Demo.root (fs Demo.seed_world)).1) = 2.
Proof.
  intros libs run.
  assert (wf_fs (fs Demo.seed_world)) as Hwf.
  { apply (bool_decide_unpack _). vm_compute. exact I. }
  split; [exact Hwf|].
  destruct (@C5_seed_if_empty libs Demo.seed_world "data/config.json" Hwf)
    as [_ Hseed].
  destruct (Hseed Demo.seeds) as (_ & Hrun & _ & _ & Hsize).
  - intros e.
    destruct (fs Demo.seed_world !! (resolve Demo.seed_world "data/community" ++ [e]))
      as [n|] eqn:Hl; [|reflexivity].
    assert (stat (fs Demo.seed_world) (resolve Demo.seed_world "data/community")
            = Some Directory) as Hdir.
    { apply (wf_fs_ancestors _ _ [e]); [exact Hwf|discriminate|].
      rewrite Hl. by eexists. }
    vm_compute in Hdir. discriminate Hdir.
  - apply free_way_take. vm_compute.
    repeat (constructor; [intros data; discriminate|]). constructor.
  - vm_compute. reflexivity.
  - vm_compute. repeat (constructor; [reflexivity|]). constructor.
  - vm_compute. repeat (constructor; [reflexivity|]). constructor.
  - subst run. rewrite Hrun. split; [reflexivity|].
    apply Hsize. apply (bool_decide_unpack _). vm_compute. exact I.
Defined.

(** The claim as stated fails: a seed file with two entries whose titles
    derive one name leaves one record file in the store. *)
Lemma C5_counterexample :
  let libs := Demo.libs [] (Some Demo.twin_seeds) in
  let run := @InitializeIfEmpty libs "data/config.json" Demo.seed_world in
  stat (fs Demo.seed_world) Demo.root = None ∧
  length (SeedTopics Demo.twin_seeds) = 2 ∧
  run.2 = Ok () ∧
  OS.children (fs run.1) Demo.root = ["the_cave.json"].
Proof. intros libs run. split_and!; vm_compute; reflexivity. Qed.

(** ** Runs on the example store *)

Lemma C6_scan_newest_first_witness :
  free_way (fs Demo.store) (resolve Demo.store "data/community") ∧
  NoDup (Timestamp <$> @parsed Demo.store_libs Demo.store "data/community") ∧
  @scan Demo.store_libs Demo.store "data/community"
  = [set_Filename "second.JSON" Demo.second;
     set_Filename "hello_world.json" Demo.hello].
Proof.
  assert (free_way (fs Demo.store) (resolve Demo.store "data/community"))
    as Hway.
  { apply free_way_take. vm_compute.
    repeat (constructor; [intros data; discriminate|]). constructor. }
  assert (NoDup (Timestamp <$> @parsed Demo.store_libs Demo.store "data/community"))
    as Hd.
  { apply (bool_decide_unpack _). vm_compute. exact I. }
  split; [exact Hway|]. split; [exact Hd|].
  destruct (@C6_scan_newest_first Demo.store_libs Demo.store "data/community"
              Hway Hd)
    as (_ & _ & _ & Huniq).
  symmetry. apply Huniq.
  - vm_compute. apply perm_swap.
  - repeat constructor; vm_compute; tauto.
Defined.

(** * Further properties of the store *)

(** ** Locations: what the scan assigns and what the lookup accepts *)

Section Locations.

Context `{Libs}.

Lemma Clean_join_sep_real l :
  Forall real_elem l → l ≠ [] → Clean (join_sep l) = join_sep l.
Proof.
  intros Hl Hnil. unfold Clean, clean_elems.
  rewrite IsAbs_join_sep_real by done.
  rewrite split_sep_join by (by try apply Forall_real_no_sep).
  rewrite foldl_clean_plain by by apply Forall_real_plain.
  unfold render. simpl. rewrite app_nil_r, filter_real_all, rev_involutive by done.
  by rewrite decide_False by by apply join_sep_real_nonempty.
Qed.

Lemma Clean_rel_of rest : Forall real_elem rest → Clean (rel_of rest) = rel_of rest.
Proof.
  intros Hr. unfold rel_of. case_decide; [done|]. by apply Clean_join_sep_real.
Qed.

Lemma rel_of_inj r1 r2 :
  Forall real_elem r1 → Forall real_elem r2 → rel_of r1 = rel_of r2 → r1 = r2.
Proof.
  assert (∀ r, Forall real_elem r → r ≠ [] → join_sep r ≠ ".") as Hdot.
  { intros r Hr Hnil Heq. apply (f_equal split_sep) in Heq.
    rewrite split_sep_join in Heq by (by try apply Forall_real_no_sep).
    subst r. apply Forall_cons_1 in Hr as [(_ & Hr & _) _]. done. }
  intros H1 H2. unfold rel_of. repeat case_decide; subst; try done.
  - intros Heq. symmetry in Heq. by apply Hdot in Heq.
  - intros Heq. by apply Hdot in Heq.
  - intros Heq. apply (f_equal split_sep) in Heq.
    by rewrite !split_sep_join in Heq by (by try apply Forall_real_no_sep).
Qed.

Lemma record_at_Filename w root rest t :
  record_at w root rest = Some t → Filename t = rel_of rest.
Proof.
  unfold record_at. destruct (fs w !! _) as [[data|]|]; [|done..].
  destruct (HasSuffix _ _); [|done].
  destruct (json_Decode_topic data); [|done]. simpl. by intros [= <-].
Qed.

Lemma read_topic_at_record w root rest t :
  wf_fs (fs w) → record_at w root rest = Some t →
  read_topic_at w (root ++ rest) (rel_of rest) = Ok t.
Proof.
  intros Hwf. unfold record_at, read_topic_at.
  destruct (fs w !! (root ++ rest)) as [[data|]|] eqn:Hfile; [|done..].
  destruct (Hwf _ _ Hfile) as (Hne & _).
  rewrite stat_nonempty, Hfile by done.
  destruct (HasSuffix _ _); [|done].
  destruct (json_Decode_topic data); [|done]. simpl. by intros [= <-].
Qed.

Lemma NoDup_fmap_omap {A B C} `{EqDecision C} (f : A → option B) (g : B → C)
    (l : list A) :
  NoDup l →
  (∀ x1 x2 y1 y2, x1 ∈ l → x2 ∈ l → f x1 = Some y1 → f x2 = Some y2 →
                  g y1 = g y2 → x1 = x2) →
  NoDup (g <$> omap f l).
Proof.
  induction l as [|x l IH]; intros Hl Hinj; [constructor|].
  apply NoDup_cons in Hl as [Hx Hl]. csimpl.
  assert (NoDup (g <$> omap f l)) as IH'.
  { apply IH; [done|]. intros x1 x2 y1 y2 ??. apply Hinj; by right. }
  destruct (f x) as [y|] eqn:Hfx; [|done]. csimpl.
  apply NoDup_cons. split; [|done].
  intros (y' & Hg & Hy')%list_elem_of_fmap.
  apply list_elem_of_omap in Hy' as (x' & Hx' & Hfx').
  assert (x = x') as -> by (eapply Hinj; [by left|by right|done..]).
  done.
Qed.

End Locations.

(** X1.  A record the scan returns can be fetched again by the location
    the scan gave it, unless that location begins with [..]: the lookup
    then returns the very record of the scan. *)
Theorem X1_scan_then_load `{Libs} (w : World) (dir : string) (t : Topic) :
  wf_fs (fs w) → t ∈ scan w dir → HasPrefix (Filename t) ".." = false →
  LoadTopicByRelativePath dir (Filename t) w = (w, Ok t).
Proof.
  intros Hwf Hin Hpre.
  apply elem_of_scan in Hin as (rest & Hrest & Hrec); [|done].
  rewrite (record_at_Filename _ _ _ _ Hrec) in *.
  rewrite (LoadTopicByRelativePath_below w dir rest).
  - fold (rel_of rest). by rewrite (read_topic_at_record w _ rest t).
  - done.
  - by rewrite Clean_rel_of.
  - rewrite Clean_rel_of, Abs_abs_path by done.
    apply Join_rel_of; [apply resolve_real|done].
Qed.

(** X2.  The records one scan returns carry pairwise different
    locations. *)
Theorem X2_scan_locations_unique `{Libs} (w : World) (dir : string) :
  wf_fs (fs w) → NoDup (Filename <$> scan w dir).
Proof.
  intros Hwf. rewrite scan_records by done.
  apply NoDup_fmap_omap; [apply NoDup_keys_below|].
  intros k1 k2 t1 t2 Hk1 Hk2 Hr1 Hr2 Hloc.
  apply elem_of_keys_below in Hk1 as [[r1 ->] Hs1].
  apply elem_of_keys_below in Hk2 as [[r2 ->] Hs2].
  rewrite drop_app_length in Hr1, Hr2.
  apply record_at_Filename in Hr1, Hr2. rewrite Hr1, Hr2 in Hloc.
  f_equal. apply rel_of_inj; [| |done].
  - apply wf_fs_real in Hs1; [|done]. by apply Forall_app in Hs1 as [_ ?].
  - apply wf_fs_real in Hs2; [|done]. by apply Forall_app in Hs2 as [_ ?].
Qed.

Lemma X1_scan_then_load_witness :
  wf_fs (fs Demo.store) ∧
  @LoadTopicByRelativePath Demo.store_libs "data/community" "second.JSON"
    Demo.store
  = (Demo.store, Ok (set_Filename "second.JSON" Demo.second)).
Proof.
  assert (wf_fs (fs Demo.store)) as Hwf.
  { apply (bool_decide_unpack _). vm_compute. exact I. }
  split; [exact Hwf|].
  apply (@X1_scan_then_load Demo.store_libs Demo.store "data/community"
           (set_Filename "second.JSON" Demo.second) Hwf).
  - vm_compute. left.
  - reflexivity.
Defined.

Lemma X2_scan_locations_unique_witness :
  wf_fs (fs Demo.store) ∧
  NoDup (Filename <$> @scan Demo.store_libs Demo.store "data/community").
Proof.
  assert (wf_fs (fs Demo.store)) as Hwf.
  { apply (bool_decide_unpack _). vm_compute. exact I. }
  split; [exact Hwf|].
  exact (@X2_scan_locations_unique Demo.store_libs Demo.store "data/community" Hwf).
Defined.

(** X3.  A store directory that does not exist, with no regular file on
    the way to it, reads as an empty store: the scan and the recent scan
    return no record and no error, and a reply finds no topic. *)
Theorem X3_missing_store_reads_empty `{Libs} (w : World) (dir title : string)
    (reply : Reply) (limit : Z) :
  stat (fs w) (resolve w dir) = None →
  free_way (fs w) (resolve w dir) →
  LoadTopics dir w = (w, Ok []) ∧
  LoadRecentTopics dir limit w = (w, Ok []) ∧
  AddReplyToTopic title reply dir w
  = (w, Err (Errorf ("topic not found: " +:+ title))).
Proof.
  intros Hmissing _.
  assert (LoadTopics dir w = (w, Ok [])) as Hload.
  { unfold LoadTopics, WalkDir.
    rewrite Abs_abs_path, resolve_abs_path by apply resolve_real.
    by rewrite Hmissing. }
  split_and!; [done| |].
  - unfold LoadRecentTopics, mbind, IO_bind. rewrite Hload. simpl.
    destruct (_ && _); [|done]. unfold mret, IO_ret. by rewrite take_nil.
  - unfold AddReplyToTopic, mbind, IO_bind. by rewrite Hload.
Qed.

Lemma X3_missing_store_reads_empty_witness :
  stat (fs Demo.seed_world) (resolve Demo.seed_world "data/community") = None ∧
  free_way (fs Demo.seed_world) (resolve Demo.seed_world "data/community") ∧
  @LoadTopics Demo.store_libs "data/community" Demo.seed_world
  = (Demo.seed_world, Ok []).
Proof.
  assert (stat (fs Demo.seed_world) (resolve Demo.seed_world "data/community")
          = None) as Hmissing by (vm_compute; reflexivity).
  assert (free_way (fs Demo.seed_world)
            (resolve Demo.seed_world "data/community")) as Hway.
  { apply free_way_take. vm_compute.
    repeat (constructor; [intros data; discriminate|]). constructor. }
  split_and!; [exact Hmissing|exact Hway|].
  exact (proj1 (@X3_missing_store_reads_empty Demo.store_libs Demo.seed_world
                  "data/community" "x" Demo.a_reply 5 Hmissing Hway)).
Defined.

(** X4.  An absolute identifier is never refused and never leaves the
    store: [LoadTopicByRelativePath] reads it below the root, at the names
    of its cleaned form. *)
Theorem X4_absolute_identifier_confined `{Libs} (w : World)
    (dir relPath : string) :
  IsAbs relPath = true →
  ∃ rest,
    Forall real_elem rest ∧ Clean relPath = abs_path rest ∧
    LoadTopicByRelativePath dir relPath w
    = (w, read_topic_at w (resolve w dir ++ rest) (rel_of rest)).
Proof.
  intros Habs. destruct (Clean_rooted relPath Habs) as (rest & Hrest & Hclean).
  exists rest. split_and!; [done..|].
  assert (HasPrefix (Clean relPath) ".." = false) as Hpre.
  { rewrite Hclean, abs_path_cons. reflexivity. }
  apply LoadTopicByRelativePath_below; [done..|].
  rewrite Hclean, Abs_abs_path, Join_abs_path.
  unfold Clean, clean_elems.
  rewrite IsAbs_abs_path_app, split_sep_app_sep, foldl_app.
  rewrite clean_elems_abs_path by apply Forall_real_plain, resolve_real.
  rewrite clean_elems_abs_path by by apply Forall_real_plain.
  unfold render. rewrite !filter_real_all by (done || apply resolve_real).
  simpl. by rewrite app_nil_r, rev_app_distr, !rev_involutive.
Qed.

Lemma X4_absolute_identifier_confined_witness :
  IsAbs "/second.JSON" = true ∧
  @LoadTopicByRelativePath Demo.store_libs "data/community" "/second.JSON"
    Demo.store
  = (Demo.store, Ok (set_Filename "second.JSON" Demo.second)).
Proof.
  split; [reflexivity|].
  destruct (@X4_absolute_identifier_confined Demo.store_libs Demo.store
              "data/community" "/second.JSON" eq_refl)
    as (rest & Hrest & Hclean & Hrun).
  rewrite Hrun.
  assert (rest = ["second.JSON"]) as ->.
  { apply abs_path_inj; [done|repeat constructor; done|].
    rewrite <- Hclean. vm_compute. reflexivity. }
  vm_compute. reflexivity.
Defined.

(** ** The generated file name *)

Section NameBytes.

Lemma all_bytes_app P a b :
  all_bytes P (a +:+ b) = all_bytes P a && all_bytes P b.
Proof.
  induction a as [|c a IH]; [done|].
  rewrite app_cons_s. simpl. by rewrite IH, andb_assoc.
Qed.

Lemma all_bytes_slice_to P n s :
  all_bytes P s = true → all_bytes P (slice_to n s) = true.
Proof.
  revert n. induction s as [|c s IH]; intros [|n] Hs; try done.
  simpl in *. apply andb_prop in Hs as [-> Hs]. by apply IH.
Qed.

Lemma lower_byte_not_upper c : is_upper (lower_byte c) = false.
Proof.
  unfold lower_byte. fold (is_upper c).
  destruct (is_upper c) eqn:Hup; [|done].
  unfold is_upper in *. apply andb_prop in Hup as [Hlo Hhi].
  apply Nat.leb_le in Hlo, Hhi.
  rewrite nat_ascii_embedding by lia.
  apply andb_false_iff. right. apply Nat.leb_gt. lia.
Qed.

Lemma ToLower_no_upper s : all_bytes (λ c, negb (is_upper c)) (ToLower s) = true.
Proof.
  induction s as [|c s IH]; [done|]. simpl.
  by rewrite lower_byte_not_upper, IH.
Qed.

(** Replacing a byte removes it, and keeps what the other bytes and the
    replacement satisfy. *)
Lemma ReplaceAll_removes P s old new :
  all_bytes P s = true →
  all_bytes (λ c, P c && negb (Ascii.eqb c old)) new = true →
  all_bytes (λ c, P c && negb (Ascii.eqb c old)) (ReplaceAll s old new) = true.
Proof.
  intros Hs Hnew. induction s as [|c s IH]; [done|].
  simpl in *. apply andb_prop in Hs as [Hc Hs].
  destruct (Ascii.eqb c old) eqn:Heq.
  - by rewrite all_bytes_app, Hnew, IH.
  - simpl. by rewrite Hc, Heq, IH.
Qed.

(** Replacing a byte keeps what all bytes and the replacement satisfy. *)
Lemma ReplaceAll_keeps P s old new :
  all_bytes P s = true → all_bytes P new = true →
  all_bytes P (ReplaceAll s old new) = true.
Proof.
  intros Hs Hnew. induction s as [|c s IH]; [done|].
  simpl in *. apply andb_prop in Hs as [Hc Hs].
  destruct (Ascii.eqb c old).
  - by rewrite all_bytes_app, Hnew, IH.
  - simpl. by rewrite Hc, IH.
Qed.

Lemma lower_byte_ascii c :
  (0 <? nat_of_ascii c) && (nat_of_ascii c <? 128) = true →
  (0 <? nat_of_ascii (lower_byte c)) && (nat_of_ascii (lower_byte c) <? 128)
  = true.
Proof.
  intros Hc. unfold lower_byte.
  destruct ((65 <=? nat_of_ascii c) && (nat_of_ascii c <=? 90)) eqn:Hup;
    [|done].
  apply andb_prop in Hup as [Hlo Hhi]. apply Nat.leb_le in Hlo, Hhi.
  rewrite nat_ascii_embedding by lia.
  apply andb_true_intro. split; [apply Nat.ltb_lt|apply Nat.ltb_lt]; lia.
Qed.

Lemma ToLower_ascii s : is_ascii s = true → is_ascii (ToLower s) = true.
Proof.
  unfold is_ascii. induction s as [|c s IH]; [done|]. simpl.
  intros [Hc Hs]%andb_prop. by rewrite lower_byte_ascii, IH.
Qed.

Lemma len_slice_to n s : len (slice_to n s) = Nat.min n (len s).
Proof.
  revert n. induction s as [|c s IH]; intros [|n]; try done.
  unfold len in *. simpl. by rewrite IH.
Qed.

End NameBytes.

(** X5.  The file name [SaveTopic] generates from a title of ASCII
    bytes (none of them NUL) is at most 55 bytes long (50 of the title and the extension),
    ends in [.json], is made of ASCII bytes, and holds no upper-case
    letter, no space and no apostrophe. *)
Theorem X5_generated_name_bytes (title : string) :
  is_ascii title = true →
  len (derive_filename title) ≤ 55 ∧
  HasSuffix (derive_filename title) ".json" = true ∧
  is_ascii (derive_filename title) = true ∧
  all_bytes name_byte (derive_filename title) = true.
Proof.
  intros Hascii. unfold derive_filename. split_and!.
  - unfold len. rewrite length_app_s.
    pose proof (len_slice_to
      (Nat.min 50 (len (ReplaceAll (ReplaceAll (ToLower title) " " "_") "'" "")))
      (ReplaceAll (ReplaceAll (ToLower title) " " "_") "'" "")) as Hlen.
    unfold len in Hlen. rewrite Hlen.
    change (String.length ".json") with 5. lia.
  - unfold HasSuffix. by rewrite rev_app_s.
  - unfold is_ascii. rewrite all_bytes_app, andb_true_r.
    apply all_bytes_slice_to.
    apply ReplaceAll_keeps; [|done]. apply ReplaceAll_keeps; [|done].
    by apply ToLower_ascii.
  - rewrite all_bytes_app, andb_true_r. apply all_bytes_slice_to.
    unfold name_byte.
    apply (ReplaceAll_removes (λ c, negb (is_upper c) && negb (Ascii.eqb c " ")));
      [|done].
    apply (ReplaceAll_removes (λ c, negb (is_upper c))); [|done].
    apply ToLower_no_upper.
Qed.

Lemma X5_generated_name_bytes_witness :
  is_ascii "What is Plato's Cave?" = true ∧
  derive_filename "What is Plato's Cave?" = "what_is_platos_cave?.json" ∧
  all_bytes name_byte (derive_filename "What is Plato's Cave?") = true.
Proof.
  split; [reflexivity|]. split; [reflexivity|].
  exact (proj2 (proj2 (proj2 (X5_generated_name_bytes "What is Plato's Cave?"
                                eq_refl)))).
Defined.

(** ** Saving a new record: directories, failures, round trip *)

Section SaveMore.

Context `{Libs}.

(** A regular file on the way stops [os.MkdirAll], which creates nothing. *)
Lemma mkdir_all_blocked m t : ∀ d l data,
  wf_fs m → l ≠ [] → l `prefix_of` t → stat m (d ++ l) = Some (RegFile data) →
  OS.mkdir_all d t m = (m, Some ENOTDIR).
Proof.
  induction t as [|e t IH]; intros d l data Hwf Hne [r Hr] Hst.
  - by destruct l.
  - destruct l as [|x l]; [done|]. simplify_eq/=.
    destruct l as [|y l].
    + by rewrite Hst.
    + assert (stat m (d ++ [x]) = Some Directory) as ->.
      { apply (wf_fs_ancestors m (d ++ [x]) (y :: l)); [done..|].
        rewrite <- (assoc_L (++)). simpl.
        rewrite stat_nonempty in Hst by (by destruct d). by rewrite Hst. }
      apply (IH (d ++ [x]) (y :: l) data); [done..| |].
      * by exists r.
      * by rewrite <- (assoc_L (++)).
Qed.

(** [os.MkdirAll] on a free way: the directories of the way exist
    afterwards, and nothing else has changed. *)
Lemma mkdir_all_free m root :
  free_way m root →
  ∃ m1, OS.mkdir_all [] root m = (m1, None) ∧
    (∀ l, l `prefix_of` root → stat m1 l = Some Directory) ∧
    (∀ k n, m !! k = Some n → m1 !! k = Some n) ∧
    (∀ k n, m1 !! k = Some n →
       m !! k = Some n ∨ (n = Directory ∧ k `prefix_of` root)) ∧
    (wf_fs m → Forall real_elem root → wf_fs m1).
Proof.
  intros Hway.
  destruct (mkdir_all_spec root [] m) as (m1 & Hmk & Hdirs & Hkeep & Hnew).
  { intros l data _ Hl. by apply Hway. }
  exists m1. split_and!; [done| |done| |].
  - intros [|x l] Hl; [done|]. by apply (Hdirs (x :: l)).
  - intros k n Hk. destruct (Hnew k n Hk) as [?|(-> & l & _ & Hl & ->)];
      [by left|by right].
  - intros Hwf Hreal. by apply (mkdir_all_wf m root m1).
Qed.

Lemma is_dir_mkdir_all m m1 root e :
  (∀ k n, m1 !! k = Some n →
     m !! k = Some n ∨ (n = Directory ∧ k `prefix_of` root)) →
  is_dir m (root ++ [e]) = false → is_dir m1 (root ++ [e]) = false.
Proof.
  intros Hnew Hm. unfold is_dir in *. rewrite stat_snoc in *.
  destruct (m1 !! (root ++ [e])) as [[d|]|] eqn:Hl; [done| |done].
  destruct (Hnew _ _ Hl) as [Hold|[_ Hpre]].
  - by rewrite Hold in Hm.
  - apply prefix_length in Hpre. rewrite length_app in Hpre. simpl in Hpre. lia.
Qed.

(** Saving a new record where the way to the store is free: the missing
    directories are created, then the record is written. *)
Lemma SaveTopic_body_creates w dir topic m1 :
  OS.mkdir_all [] (resolve w dir) (fs w) = (m1, None) →
  (∀ l, l `prefix_of` resolve w dir → stat m1 l = Some Directory) →
  Filename topic = "" → has_sep (Title topic) = false →
  is_dir m1 (resolve w dir ++ [derive_filename (Title topic) +:+ ".tmp"]) = false →
  is_dir m1 (resolve w dir ++ [derive_filename (Title topic)]) = false →
  SaveTopic_body topic dir w
  = (set_fs (rewrite_file m1 (resolve w dir ++ [derive_filename (Title topic)])
               (json_MarshalIndent topic)) w,
     Ok (set_Filename (derive_filename (Title topic)) topic)).
Proof.
  intros Hmk Hdirs Hname Hsep Htmp Hfile.
  pose proof (derive_filename_real _ Hsep) as Hreal.
  pose proof (resolve_real w dir) as Hrr.
  unfold SaveTopic_body, mbind, IO_bind.
  rewrite decide_False by (by rewrite Hname; intros ?).
  unfold wrap at 1. unfold OS.MkdirAll at 1.
  rewrite Abs_abs_path, resolve_abs_path by done.
  rewrite Hmk. unfold mret, IO_ret.
  rewrite Join_abs_path_name by done.
  rewrite write_topic_at;
    [|apply Forall_app; split; [done|constructor; [done|constructor]]|done..].
  rewrite (Rel_abs_path _ [_]); [done|done|].
  constructor; [done|constructor].
Qed.

Lemma lookup_rewrite_file m k data :
  rewrite_file m k data !! k = Some (RegFile data).
Proof. unfold rewrite_file. by rewrite lookup_insert_eq. Qed.

Lemma lookup_rewrite_file_ne m k data p :
  p ≠ k → p ≠ tmp_key k → rewrite_file m k data !! p = m !! p.
Proof.
  intros ??. unfold rewrite_file.
  by rewrite lookup_insert_ne, lookup_delete_ne.
Qed.

Lemma lookup_rewrite_file_tmp m k e data :
  rewrite_file m (k ++ [e]) data !! (k ++ [e +:+ ".tmp"]) = None.
Proof.
  unfold rewrite_file. rewrite tmp_key_snoc.
  rewrite lookup_insert_ne, lookup_delete_eq; [done|].
  intros Heq. apply app_inj_tail in Heq as [_ Heq]. by apply (name_neq_tmp e).
Qed.

(** The scan after the atomic write of one record file: the record
    written, and the records of the other files as they were. *)
Lemma scan_rewrite_file w dir rest data t' :
  wf_fs (fs w) →
  wf_fs (rewrite_file (fs w) (resolve w dir ++ rest) data) →
  Forall real_elem rest → resolve w dir ++ rest ≠ [] →
  record_at (set_fs (rewrite_file (fs w) (resolve w dir ++ rest) data) w)
    (resolve w dir) rest = Some t' →
  ∀ u, u ∈ scan (set_fs (rewrite_file (fs w) (resolve w dir ++ rest) data) w) dir
       ↔ u = t' ∨ (u ∈ scan w dir ∧ Filename u ≠ rel_of rest).
Proof.
  intros Hwf Hwf' Hrest Hne Hrec' u.
  rewrite !elem_of_scan by done.
  rewrite (resolve_cwd (set_fs _ w) w) by done. split.
  - intros (rest' & Hreal' & Hu).
    destruct (decide (rest' = rest)) as [->|Hneq].
    + left. rewrite Hrec' in Hu. by injection Hu.
    + right. rewrite record_at_rewrite in Hu by done.
      split; [by exists rest'|].
      rewrite (record_at_Filename _ _ _ _ Hu).
      intros Heq. by apply rel_of_inj in Heq.
  - intros [->|[(rest' & Hreal' & Hu) Hloc]]; [by exists rest|].
    exists rest'. split; [done|].
    rewrite record_at_rewrite; [done..|].
    intros ->. by rewrite (record_at_Filename _ _ _ _ Hu) in Hloc.
Qed.

End SaveMore.

(** X6.  [SaveTopic] creates a store directory that is missing: when no
    regular file lies on the way to the store, saving a new record
    (no location, a title of ASCII bytes without separator, no directory
    at the target or at its temporary name) succeeds; afterwards every directory on the
    way exists, the record file holds the encoded record, no temporary
    file is left, and every other entry is what it was. *)
Theorem X6_save_creates_store `{Libs} (w : World) (dir : string)
    (topic : Topic) :
  wf_fs (fs w) → free_way (fs w) (resolve w dir) →
  Filename topic = "" → has_sep (Title topic) = false →
  is_ascii (Title topic) = true →
  is_dir (fs w) (resolve w dir ++ [derive_filename (Title topic) +:+ ".tmp"])
  = false →
  is_dir (fs w) (resolve w dir ++ [derive_filename (Title topic)]) = false →
  ∃ w', SaveTopic topic dir w = (w', Ok ()) ∧
    cwd w' = cwd w ∧ wf_fs (fs w') ∧
    (∀ l, l `prefix_of` resolve w dir → stat (fs w') l = Some Directory) ∧
    fs w' !! (resolve w dir ++ [derive_filename (Title topic)])
    = Some (RegFile (json_MarshalIndent topic)) ∧
    fs w' !! (resolve w dir ++ [derive_filename (Title topic) +:+ ".tmp"])
    = None ∧
    (∀ k n, fs w !! k = Some n →
       k ≠ resolve w dir ++ [derive_filename (Title topic)] →
       k ≠ resolve w dir ++ [derive_filename (Title topic) +:+ ".tmp"] →
       fs w' !! k = Some n).
Proof.
  intros Hwf Hway Hname Hsep _ Htmp Hfile.
  pose proof (derive_filename_real _ Hsep) as Hreal.
  pose proof (resolve_real w dir) as Hrr.
  destruct (mkdir_all_free _ _ Hway) as (m1 & Hmk & Hdirs & Hkeep & Hnew & Hwf1).
  pose proof (is_dir_mkdir_all _ _ _ _ Hnew Htmp) as Htmp1.
  pose proof (is_dir_mkdir_all _ _ _ _ Hnew Hfile) as Hfile1.
  eexists. split_and!.
  - unfold SaveTopic, mbind, IO_bind.
    by rewrite (SaveTopic_body_creates w dir topic m1).
  - done.
  - simpl. apply wf_fs_rewrite_file; [by apply Hwf1| |by apply is_dir_stat, Hdirs|done..].
    apply Forall_app; split; [done|constructor; [done|constructor]].
  - intros l Hl. simpl. destruct l as [|x l]; [done|].
    rewrite stat_nonempty, lookup_rewrite_file_ne by
      (try done; rewrite ?tmp_key_snoc; intros Heq; rewrite Heq in Hl;
       apply prefix_length in Hl; rewrite length_app in Hl; simpl in Hl; lia).
    rewrite <- (stat_nonempty m1) by done. by apply Hdirs.
  - simpl. apply lookup_rewrite_file.
  - simpl. apply lookup_rewrite_file_tmp.
  - intros k n Hk Hne1 Hne2. simpl.
    rewrite lookup_rewrite_file_ne by (by rewrite ?tmp_key_snoc).
    by apply Hkeep.
Qed.

(** X7.  A regular file on the way to the store stops [SaveTopic] before
    anything is written: saving a record without location returns the
    error of creating the community directory and leaves the file system
    as it was. *)
Theorem X7_save_blocked_by_file `{Libs} (w : World) (dir : string)
    (topic : Topic) (l : list string) (data : string) :
  wf_fs (fs w) → l `prefix_of` resolve w dir →
  stat (fs w) l = Some (RegFile data) → Filename topic = "" →
  SaveTopic topic dir w
  = (w, Err (Wrap "creating community directory" ENOTDIR)).
Proof.
  intros Hwf Hl Hst Hname.
  unfold SaveTopic, SaveTopic_body, mbind, IO_bind.
  rewrite decide_False by (by rewrite Hname; intros ?).
  unfold wrap at 1. unfold OS.MkdirAll at 1.
  rewrite Abs_abs_path, resolve_abs_path by apply resolve_real.
  rewrite (mkdir_all_blocked _ _ [] l data); [|done|by destruct l|done..].
  by rewrite set_fs_id.
Qed.

(** X8.  A directory at the target of a new record (title of ASCII bytes
    without separator, existing store directory, no directory at the
    temporary name) makes the final rename fail: [SaveTopic] returns the
    rename error, which is [EEXIST], and the temporary file it has
    written stays in the store. *)
Theorem X8_failed_rename_leaves_temp `{Libs} (w : World) (dir : string)
    (topic : Topic) :
  wf_fs (fs w) → stat (fs w) (resolve w dir) = Some Directory →
  Filename topic = "" → has_sep (Title topic) = false →
  is_ascii (Title topic) = true →
  is_dir (fs w) (resolve w dir ++ [derive_filename (Title topic) +:+ ".tmp"])
  = false →
  is_dir (fs w) (resolve w dir ++ [derive_filename (Title topic)]) = true →
  SaveTopic topic dir w
  = (set_fs (<[resolve w dir ++ [derive_filename (Title topic) +:+ ".tmp"]
               := RegFile (json_MarshalIndent topic)]> (fs w)) w,
     Err (Wrap "renaming temp file" EEXIST)).
Proof.
  intros Hwf Hroot Hname Hsep _ Htmp Hfile.
  pose proof (derive_filename_real _ Hsep) as Hreal.
  pose proof (resolve_real w dir) as Hrr.
  pose proof (wf_fs_dirs_to _ _ Hwf Hroot) as Hdirs.
  set (k := resolve w dir) in *. set (e := derive_filename (Title topic)) in *.
  assert (Forall real_elem (k ++ [e +:+ ".tmp"])) as Hrtmp.
  { apply Forall_app. split; [done|].
    constructor; [by apply real_elem_tmp|done]. }
  assert (Forall real_elem (k ++ [e])) as Hrk.
  { apply Forall_app. split; [done|]. by constructor. }
  unfold SaveTopic, SaveTopic_body, mbind, IO_bind.
  rewrite decide_False by (by rewrite Hname; intros ?).
  unfold wrap at 1. unfold OS.MkdirAll at 1.
  rewrite Abs_abs_path. fold k. rewrite resolve_abs_path by done.
  rewrite mkdir_all_present by (intros l _ Hl; by apply Hdirs).
  rewrite set_fs_id. unfold mret, IO_ret. fold e.
  rewrite Join_abs_path_name by done.
  unfold write_topic, mbind, IO_bind, wrap.
  rewrite Dir_abs_path_snoc by done.
  unfold OS.MkdirAll at 1. rewrite resolve_abs_path by done.
  rewrite mkdir_all_present by (intros l _ Hl; by apply Hdirs).
  rewrite set_fs_id, abs_path_snoc_app.
  unfold OS.WriteFile at 1. rewrite resolve_abs_path by done.
  unfold OS.parent. rewrite removelast_snoc, (Hdirs k) by done.
  assert (stat (<[k ++ [e +:+ ".tmp"] := RegFile (json_MarshalIndent topic)]> (fs w)) k
          = Some Directory) as Hk.
  { destruct k as [|x k']; [done|].
    rewrite stat_nonempty, lookup_insert_ne by
      (try done; intros Heq; apply (f_equal length) in Heq;
       rewrite length_app in Heq; simpl in Heq; lia).
    by rewrite <- (stat_nonempty (fs w)). }
  assert (stat (<[k ++ [e +:+ ".tmp"] := RegFile (json_MarshalIndent topic)]> (fs w))
            (k ++ [e]) = Some Directory) as Hke.
  { rewrite stat_snoc, lookup_insert_ne by
      (intros Heq; apply app_inj_tail in Heq as [_ Heq];
       by apply (name_neq_tmp e)).
    rewrite <- stat_snoc. by apply is_dir_stat. }
  unfold is_dir in Htmp.
  destruct (stat (fs w) (k ++ [e +:+ ".tmp"])) as [[dt|]|] eqn:Hst; [|done|].
  all: unfold OS.Rename; simpl fs; rewrite !resolve_abs_path by done;
    rewrite (stat_snoc _ k (e +:+ ".tmp")), lookup_insert_eq;
    unfold OS.parent; rewrite removelast_snoc, Hk, Hke; done.
Qed.

(** X9.  Save, then read back.  After a new record (no location, a title
    of ASCII bytes without separator, no directory at the target or at
    its temporary name) is saved into an existing store, the scan
    returns it under the generated file name,
    next to the records of the scan before that were not stored under
    that name, and, unless the name begins with [..], the lookup by that
    name returns it; the codec is assumed to decode what it encoded. *)
Theorem X9_save_then_read `{Libs} (w : World) (dir : string) (topic : Topic) :
  wf_fs (fs w) → stat (fs w) (resolve w dir) = Some Directory →
  Filename topic = "" → has_sep (Title topic) = false →
  is_ascii (Title topic) = true →
  is_dir (fs w) (resolve w dir ++ [derive_filename (Title topic) +:+ ".tmp"])
  = false →
  is_dir (fs w) (resolve w dir ++ [derive_filename (Title topic)]) = false →
  json_Decode_topic (json_MarshalIndent topic) = Some topic →
  ∃ w', SaveTopic topic dir w = (w', Ok ()) ∧
    (∀ u, u ∈ scan w' dir ↔
          u = set_Filename (derive_filename (Title topic)) topic ∨
          (u ∈ scan w dir ∧ Filename u ≠ derive_filename (Title topic))) ∧
    (HasPrefix (derive_filename (Title topic)) ".." = false →
     LoadTopicByRelativePath dir (derive_filename (Title topic)) w'
     = (w', Ok (set_Filename (derive_filename (Title topic)) topic))).
Proof.
  intros Hwf Hroot Hname Hsep _ Htmp Hfile Hcodec.
  pose proof (derive_filename_real _ Hsep) as Hreal.
  pose proof (resolve_real w dir) as Hrr.
  set (e := derive_filename (Title topic)) in *.
  set (w' := set_fs (rewrite_file (fs w) (resolve w dir ++ [e])
                       (json_MarshalIndent topic)) w).
  assert (resolve w' dir = resolve w dir) as Hres by by apply resolve_cwd.
  assert (Forall real_elem [e]) as Hre by (constructor; [done|constructor]).
  assert (wf_fs (fs w')) as Hwf'.
  { apply wf_fs_rewrite_file; [done| |by apply is_dir_stat|done..].
    apply Forall_app; split; done. }
  assert (record_at w' (resolve w' dir) [e] = Some (set_Filename e topic)) as Hrec.
  { unfold record_at. rewrite Hres. simpl fs. rewrite lookup_rewrite_file.
    rewrite last_snoc.
    pose proof (derive_filename_json (Title topic)) as Hjson. fold e in Hjson.
    rewrite Hjson, Hcodec. simpl. unfold rel_of. by rewrite decide_False. }
  exists w'. split_and!.
  - unfold SaveTopic, mbind, IO_bind. subst e w'.
    by rewrite SaveTopic_fresh.
  - intros u. rewrite Hres in Hrec.
    exact (scan_rewrite_file w dir [e] _ _ Hwf Hwf' Hre
             ltac:(by destruct (resolve w dir)) Hrec u).
  - intros Hdots.
    rewrite (LoadTopicByRelativePath_below w' dir [e]).
    + fold (rel_of [e]). by rewrite (read_topic_at_record w' _ [e] (set_Filename e topic)).
    + done.
    + change e with (rel_of [e]). by rewrite Clean_rel_of.
    + change e with (rel_of [e]) at 1. rewrite Clean_rel_of, Abs_abs_path by done.
      apply Join_rel_of; [apply resolve_real|done].
Qed.

Lemma X6_save_creates_store_witness :
  wf_fs (fs Demo.seed_world) ∧
  stat (fs Demo.seed_world) Demo.root = None ∧
  ∃ w', @SaveTopic Demo.store_libs Demo.hello "data/community" Demo.seed_world
        = (w', Ok ()) ∧
        stat (fs w') Demo.root = Some Directory.
Proof.
  assert (wf_fs (fs Demo.seed_world)) as Hwf.
  { apply (bool_decide_unpack _). vm_compute. exact I. }
  split; [exact Hwf|]. split; [vm_compute; reflexivity|].
  destruct (@X6_save_creates_store Demo.store_libs Demo.seed_world
              "data/community" Demo.hello Hwf)
    as (w' & Hsave & _ & _ & Hdirs & _).
  - apply free_way_take. vm_compute.
    repeat (constructor; [intros data; discriminate|]). constructor.
  - reflexivity.
  - reflexivity.
  - reflexivity.
  - vm_compute. reflexivity.
  - vm_compute. reflexivity.
  - exists w'. split; [exact Hsave|].
    apply Hdirs. exists []. vm_compute. reflexivity.
Defined.

Lemma X7_save_blocked_by_file_witness :
  wf_fs (fs Demo.store) ∧
  @SaveTopic Demo.store_libs Demo.hello "data/community/bad.json/topics"
    Demo.store
  = (Demo.store, Err (Wrap "creating community directory" ENOTDIR)).
Proof.
  assert (wf_fs (fs Demo.store)) as Hwf.
  { apply (bool_decide_unpack _). vm_compute. exact I. }
  split; [exact Hwf|].
  apply (@X7_save_blocked_by_file Demo.store_libs Demo.store
           "data/community/bad.json/topics" Demo.hello
           (Demo.root ++ ["bad.json"]) "{oops" Hwf).
  - exists ["topics"]. vm_compute. reflexivity.
  - vm_compute. reflexivity.
  - reflexivity.
Defined.

Lemma X8_failed_rename_leaves_temp_witness :
  wf_fs (fs Demo.shadowed_store) ∧
  (let r := @SaveTopic Demo.store_libs Demo.archive "data/community"
              Demo.shadowed_store in
   r.2 = Err (Wrap "renaming temp file" EEXIST) ∧
   fs r.1 !! (Demo.root ++ ["archive.json.tmp"])
   = Some (RegFile (Demo.show_topic Demo.archive))).
Proof.
  assert (wf_fs (fs Demo.shadowed_store)) as Hwf.
  { apply (bool_decide_unpack _). vm_compute. exact I. }
  split; [exact Hwf|]. cbv zeta.
  rewrite (@X8_failed_rename_leaves_temp Demo.store_libs Demo.shadowed_store
             "data/community" Demo.archive Hwf).
  - split; [reflexivity|]. vm_compute. reflexivity.
  - vm_compute. reflexivity.
  - reflexivity.
  - reflexivity.
  - reflexivity.
  - vm_compute. reflexivity.
  - vm_compute. reflexivity.
Defined.

Lemma X9_save_then_read_witness :
  wf_fs (fs Demo.empty_store) ∧
  ∃ w', @SaveTopic Demo.store_libs Demo.hello "data/community" Demo.empty_store
        = (w', Ok ()) ∧
        @LoadTopicByRelativePath Demo.store_libs "data/community"
          "hello_world.json" w'
        = (w', Ok (set_Filename "hello_world.json" Demo.hello)).
Proof.
  assert (wf_fs (fs Demo.empty_store)) as Hwf.
  { apply (bool_decide_unpack _). vm_compute. exact I. }
  split; [exact Hwf|].
  destruct (@X9_save_then_read Demo.store_libs Demo.empty_store
              "data/community" Demo.hello Hwf)
    as (w' & Hsave & _ & Hload).
  - vm_compute. reflexivity.
  - reflexivity.
  - reflexivity.
  - reflexivity.
  - vm_compute. reflexivity.
  - vm_compute. reflexivity.
  - vm_compute. reflexivity.
  - exists w'. split; [exact Hsave|]. apply Hload. reflexivity.
Defined.

(** ** Seeding: once only, and with an unreadable seed file *)

Section SeedMore.

Context `{Libs}.

(** A store directory that holds an entry is left alone. *)
Lemma InitializeIfEmpty_seeded w configPath e :
  wf_fs (fs w) → is_Some (fs w !! (resolve w "data/community" ++ [e])) →
  InitializeIfEmpty configPath w = (w, Ok ()).
Proof.
  intros Hwf He. set (root := resolve w "data/community").
  assert (stat (fs w) root = Some Directory) as Hroot
    by by apply (wf_fs_ancestors _ root [e]).
  unfold InitializeIfEmpty, OS.ReadDir. fold root. rewrite Hroot.
  assert (e ∈ OS.children (fs w) root) as Hin by by apply elem_of_children.
  destruct (OS.children (fs w) root) as [|x files]; [by apply elem_of_nil in Hin|].
  destruct (decide (0 < length (x :: files))) as [_|Hn];
    [done|simpl in Hn; lia].
Qed.

(** On an empty or missing store directory, [InitializeIfEmpty] makes
    the directory and goes on to the seed file. *)
Lemma InitializeIfEmpty_empty w configPath :
  wf_fs (fs w) →
  (∀ e, fs w !! (resolve w "data/community" ++ [e]) = None) →
  free_way (fs w) (resolve w "data/community") →
  ∃ m1, store_ready m1 (resolve w "data/community") ∧
    (∀ e, m1 !! (resolve w "data/community" ++ [e]) = None) ∧
    (∀ k n, fs w !! k = Some n → m1 !! k = Some n) ∧
    (∀ k n, m1 !! k = Some n →
       fs w !! k = Some n ∨
       (n = Directory ∧ k `prefix_of` resolve w "data/community")) ∧
    InitializeIfEmpty configPath w
    = (config ← wrap "loading config" (loadConfig configPath);
       seed_loop (SeedTopics config)) (set_fs m1 w).
Proof.
  intros Hwf Hempty Hfree. set (root := resolve w "data/community").
  assert (Forall real_elem root) as Hrr by apply resolve_real.
  destruct (mkdir_all_free _ _ Hfree) as (m1 & Hmk & Hdirs & Hkeep & Hnew & Hwf1).
  fold root in Hmk, Hdirs, Hnew, Hwf1.
  assert (∀ e, m1 !! (root ++ [e]) = None) as Hempty1.
  { intros e. destruct (m1 !! (root ++ [e])) as [n|] eqn:Hl; [|done].
    destruct (Hnew _ _ Hl) as [Hold|[_ Hpre]].
    - by rewrite Hempty in Hold.
    - apply prefix_length in Hpre. rewrite length_app in Hpre.
      simpl in Hpre. lia. }
  exists m1. split_and!; [|done..|].
  - split_and!; [by apply Hwf1|by apply Hdirs|].
    intros e. unfold is_dir. by rewrite stat_snoc, Hempty1.
  - unfold InitializeIfEmpty, OS.ReadDir. fold root.
    destruct (stat (fs w) root) as [[data|]|] eqn:Hroot.
    + by destruct (Hfree root data).
    + assert (m1 = fs w) as ->.
      { pose proof (mkdir_all_present (fs w) [] root) as Hp.
        rewrite Hmk in Hp. symmetry. injection Hp; [done|].
        intros l _ Hl. by apply (wf_fs_dirs_to (fs w) root). }
      assert (OS.children (fs w) root = []) as -> by by apply children_nil.
      destruct (decide (0 < length (@nil string))) as [Hn|_];
        [simpl in Hn; lia|].
      by rewrite set_fs_id.
    + simpl. unfold OS.MkdirAll. fold root. rewrite Hmk.
      by destruct (decide (0 < length (@nil string))) as [Hn|_];
        [simpl in Hn; lia|].
Qed.

(** Seeding keeps the store directory ready. *)
Lemma seed_fs_ready root seeds : ∀ n m,
  store_ready m root → Forall real_elem root →
  Forall (λ seed, has_sep (STitle seed) = false) seeds →
  store_ready (seed_fs root n seeds m) root.
Proof.
  induction seeds as [|seed seeds IH]; intros n m Hready Hrr Hseeds; [done|].
  apply Forall_cons_1 in Hseeds as [Hsep Hseeds]. simpl.
  apply IH; [|done..].
  apply store_ready_rewrite; [done..|]. by apply derive_filename_real.
Qed.

(** [loadConfig] depends on the seed file only. *)
Lemma loadConfig_at w path :
  loadConfig path w
  = (w, match stat (fs w) (resolve w path) with
        | None => Err (Wrap "opening config file" ENOENT)
        | Some Directory => Err (Wrap "decoding config JSON" EISDIR)
        | Some (RegFile data) =>
            match json_decode_config data with
            | None => Err (Wrap "decoding config JSON" EJSON)
            | Some config => Ok config
            end
        end).
Proof.
  unfold loadConfig, OS.ReadAll.
  destruct (stat (fs w) (resolve w path)) as [[data|]|]; [|done..].
  by destruct (json_decode_config data).
Qed.

End SeedMore.

(** X10.  Seeding happens once: after [InitializeIfEmpty] has seeded an
    empty or missing store (no regular file on the way to it) from a seed
    file that loads and has at least one entry, all titles of ASCII bytes
    without path separator, a further call, whatever its seed file,
    returns at once and changes nothing. *)
Theorem X10_seeding_happens_once `{Libs} (w : World) (configPath : string)
    (config : Config) :
  wf_fs (fs w) →
  (∀ e, fs w !! (resolve w "data/community" ++ [e]) = None) →
  free_way (fs w) (resolve w "data/community") →
  loadConfig configPath w = (w, Ok config) →
  Forall (λ seed, has_sep (STitle seed) = false) (SeedTopics config) →
  Forall (λ seed, is_ascii (STitle seed) = true) (SeedTopics config) →
  SeedTopics config ≠ [] →
  ∃ w', InitializeIfEmpty configPath w = (w', Ok ()) ∧
    ∀ configPath', InitializeIfEmpty configPath' w' = (w', Ok ()).
Proof.
  intros Hwf Hempty Hfree Hload Hseeds _ Hne.
  set (root := resolve w "data/community").
  assert (Forall real_elem root) as Hrr by apply resolve_real.
  destruct (InitializeIfEmpty_empty w configPath Hwf Hempty Hfree)
    as (m1 & Hready & Hempty1 & Hkeep & _ & Hrun).
  fold root in Hready, Hempty1.
  set (m2 := seed_fs root (ticks w) (SeedTopics config) m1).
  exists (mkWorld (cwd w) m2 (ticks w + length (SeedTopics config))).
  split.
  - rewrite Hrun. unfold mbind, IO_bind, wrap.
    rewrite (loadConfig_keep configPath w (set_fs m1 w) config); [|done..].
    rewrite seed_loop_spec; [done| |done].
    by rewrite (resolve_cwd (set_fs m1 w) w).
  - intros configPath'.
    assert (∃ seeds s0, SeedTopics config = seeds ++ [s0]) as (seeds & s0 & Hcfg).
    { destruct (SeedTopics config) as [|s0 seeds _] using rev_ind; [done|].
      by exists seeds, s0. }
    apply (InitializeIfEmpty_seeded _ _ (derive_filename (STitle s0))).
    + simpl. by apply seed_fs_ready.
    + rewrite (resolve_cwd _ w) by done. fold root. simpl. subst m2.
      rewrite (seed_fs_lookup root (SeedTopics config) (ticks w) m1
                 (length seeds) s0);
        [by eexists|intros e; apply Hempty1| |].
      * by rewrite Hcfg, lookup_app_r, Nat.sub_diag.
      * rewrite Hcfg, drop_ge by (rewrite length_app; simpl; lia).
        apply not_elem_of_nil.
Qed.

(** X11.  A seed file that cannot be decoded stops the seeding after the
    store directory has been made: [InitializeIfEmpty] returns the error
    of loading the configuration, the directory exists and is empty, and
    every entry of the file system is kept. *)
Theorem X11_corrupt_seed_file `{Libs} (w : World) (configPath data : string) :
  wf_fs (fs w) →
  (∀ e, fs w !! (resolve w "data/community" ++ [e]) = None) →
  free_way (fs w) (resolve w "data/community") →
  stat (fs w) (resolve w configPath) = Some (RegFile data) →
  json_decode_config data = None →
  ∃ w', InitializeIfEmpty configPath w
        = (w', Err (Wrap "loading config" (Wrap "decoding config JSON" EJSON))) ∧
    stat (fs w') (resolve w "data/community") = Some Directory ∧
    (∀ e, fs w' !! (resolve w "data/community" ++ [e]) = None) ∧
    (∀ k n, fs w !! k = Some n → fs w' !! k = Some n).
Proof.
  intros Hwf Hempty Hfree Hfile Hbad.
  destruct (InitializeIfEmpty_empty w configPath Hwf Hempty Hfree)
    as (m1 & (_ & Hroot & _) & Hempty1 & Hkeep & _ & Hrun).
  exists (set_fs m1 w). split_and!; [|done..].
  rewrite Hrun. unfold mbind, IO_bind, wrap. rewrite loadConfig_at.
  rewrite (resolve_cwd _ w) by done. simpl fs.
  destruct (resolve w configPath) as [|x k] eqn:Hres; [done|].
  rewrite stat_nonempty in * by done.
  by rewrite (Hkeep _ _ Hfile), Hbad.
Qed.

Lemma X10_seeding_happens_once_witness :
  wf_fs (fs Demo.seed_world) ∧
  ∃ w', @InitializeIfEmpty (Demo.libs [] (Some Demo.seeds)) "data/config.json"
          Demo.seed_world = (w', Ok ()) ∧
        @InitializeIfEmpty (Demo.libs [] (Some Demo.seeds)) "data/config.json" w'
        = (w', Ok ()).
Proof.
  assert (wf_fs (fs Demo.seed_world)) as Hwf.
  { apply (bool_decide_unpack _). vm_compute. exact I. }
  split; [exact Hwf|].
  destruct (@X10_seeding_happens_once (Demo.libs [] (Some Demo.seeds))
              Demo.seed_world "data/config.json" Demo.seeds Hwf)
    as (w' & Hrun & Hagain).
  - intros e.
    destruct (fs Demo.seed_world !! (resolve Demo.seed_world "data/community" ++ [e]))
      as [n|] eqn:Hl; [|reflexivity].
    assert (stat (fs Demo.seed_world) (resolve Demo.seed_world "data/community")
            = Some Directory) as Hdir.
    { apply (wf_fs_ancestors _ _ [e]); [exact Hwf|discriminate|].
      rewrite Hl. by eexists. }
    vm_compute in Hdir. discriminate Hdir.
  - apply free_way_take. vm_compute.
    repeat (constructor; [intros data; discriminate|]). constructor.
  - vm_compute. reflexivity.
  - vm_compute. repeat (constructor; [reflexivity|]). constructor.
  - vm_compute. repeat (constructor; [reflexivity|]). constructor.
  - discriminate.
  - exists w'. split; [exact Hrun|apply Hagain].
Defined.

Lemma X11_corrupt_seed_file_witness :
  wf_fs (fs Demo.seed_world) ∧
  ∃ w', @InitializeIfEmpty (Demo.libs [] None) "data/config.json"
          Demo.seed_world
        = (w', Err (Wrap "loading config" (Wrap "decoding config JSON" EJSON))) ∧
        stat (fs w') Demo.root = Some Directory.
Proof.
  assert (wf_fs (fs Demo.seed_world)) as Hwf.
  { apply (bool_decide_unpack _). vm_compute. exact I. }
  split; [exact Hwf|].
  destruct (@X11_corrupt_seed_file (Demo.libs [] None)
              Demo.seed_world "data/config.json" "config" Hwf)
    as (w' & Hrun & Hroot & _).
  - intros e.
    destruct (fs Demo.seed_world !! (resolve Demo.seed_world "data/community" ++ [e]))
      as [n|] eqn:Hl; [|reflexivity].
    assert (stat (fs Demo.seed_world) (resolve Demo.seed_world "data/community")
            = Some Directory) as Hdir.
    { apply (wf_fs_ancestors _ _ [e]); [exact Hwf|discriminate|].
      rewrite Hl. by eexists. }
    vm_compute in Hdir. discriminate Hdir.
  - apply free_way_take. vm_compute.
    repeat (constructor; [intros data; discriminate|]). constructor.
  - vm_compute. reflexivity.
  - reflexivity.
  - exists w'. split; [exact Hrun|exact Hroot].
Defined.

(** ** A reply, seen by the next scan *)

Section ReplyMore.

Context `{Libs}.

Lemma set_Filename_same t : set_Filename (Filename t) t = t.
Proof. by destruct t. Qed.

(** A record file lies in a directory, under a real name. *)
Lemma record_at_place w root rest t :
  wf_fs (fs w) → record_at w root rest = Some t →
  ∃ k e data, root ++ rest = k ++ [e] ∧ Forall real_elem (k ++ [e]) ∧
    fs w !! (k ++ [e]) = Some (RegFile data) ∧ is_dir (fs w) k = true.
Proof.
  intros Hwf Hrec. unfold record_at in Hrec.
  destruct (fs w !! (root ++ rest)) as [[data|]|] eqn:Hfile; [|done..].
  destruct (Hwf _ _ Hfile) as (Hne & Hreal & Hparent).
  destruct (root ++ rest) as [|e k _] using rev_ind; [done|].
  rewrite removelast_snoc in Hparent. by exists k, e, data.
Qed.

End ReplyMore.

(** X12.  A reply, seen by the next scan.  When [AddReplyToTopic] finds
    its topic and no directory sits at the temporary name, it succeeds,
    and the next scan returns the record with the reply appended, under
    its old location, next to the other records of the scan before,
    unchanged; the codec is assumed to decode what it encoded. *)
Theorem X12_reply_then_scan `{Libs} (w : World) (title : string)
    (reply : Reply) (dir : string) (before after : list Topic) (t : Topic)
    (rest : list string) :
  wf_fs (fs w) →
  scan w dir = before ++ t :: after →
  (∀ b, b ∈ before → Title b ≠ title) → Title t = title →
  record_at w (resolve w dir) rest = Some t →
  is_dir (fs w) (tmp_key (resolve w dir ++ rest)) = false →
  let t' := set_Replies (Replies t ++ [reply]) t in
  json_Decode_topic (json_MarshalIndent t') = Some (set_Filename "" t') →
  ∃ w', AddReplyToTopic title reply dir w = (w', Ok ()) ∧
    wf_fs (fs w') ∧
    ∀ u, u ∈ scan w' dir ↔
         u = t' ∨ (u ∈ scan w dir ∧ Filename u ≠ Filename t).
Proof.
  intros Hwf Hscan Hnone Ht Hrec Htmp t' Hcodec.
  set (root := resolve w dir) in *.
  set (w' := set_fs (rewrite_file (fs w) (root ++ rest) (json_MarshalIndent t')) w).
  assert (resolve w' dir = root) as Hres by by apply resolve_cwd.
  destruct (record_at_place _ _ _ _ Hwf Hrec) as (k & e & data & Hk & Hreal & Hfile & Hdir).
  assert (Forall real_elem rest) as Hrest.
  { rewrite <- Hk in Hreal. by apply Forall_app in Hreal as [_ ?]. }
  pose proof (record_at_Filename _ _ _ _ Hrec) as Hloc.
  assert (wf_fs (fs w')) as Hwf'.
  { simpl. rewrite Hk. apply wf_fs_rewrite_file; [done..| |].
    - rewrite <- tmp_key_snoc, <- Hk. done.
    - unfold is_dir. by rewrite stat_snoc, Hfile. }
  assert (record_at w' root rest = Some t') as Hrec'.
  { unfold record_at in *. simpl fs. rewrite lookup_rewrite_file.
    destruct (fs w !! (root ++ rest)) as [[d0|]|]; [|done..].
    destruct (HasSuffix _ _); [|done].
    rewrite Hcodec. simpl. rewrite set_Filename_twice, <- Hloc.
    subst t'. by destruct t. }
  exists w'. split_and!; [|done|].
  - unfold AddReplyToTopic, mbind, IO_bind.
    rewrite LoadTopics_scan, Hscan, AddReply_loop_first by done.
    fold t'. rewrite (SaveTopic_existing w dir t' rest data); [|done| |].
    + fold root. by rewrite Htmp.
    + fold root. by rewrite Hk.
    + subst t'. by destruct t.
  - rewrite Hloc. subst w' root.
    apply scan_rewrite_file; [done..|rewrite Hk; by destruct k|done].
Qed.

Lemma X12_reply_then_scan_witness :
  wf_fs (fs Demo.store) ∧
  ∃ w', @AddReplyToTopic
          (Demo.libs [Demo.hello; Demo.second;
                      set_Replies [Demo.a_reply] Demo.hello] None)
          "Hello World" Demo.a_reply "data/community" Demo.store = (w', Ok ()) ∧
        set_Filename "hello_world.json" (set_Replies [Demo.a_reply] Demo.hello)
        ∈ @scan (Demo.libs [Demo.hello; Demo.second;
                            set_Replies [Demo.a_reply] Demo.hello] None)
            w' "data/community".
Proof.
  assert (wf_fs (fs Demo.store)) as Hwf.
  { apply (bool_decide_unpack _). vm_compute. exact I. }
  split; [exact Hwf|].
  destruct (@X12_reply_then_scan
              (Demo.libs [Demo.hello; Demo.second;
                          set_Replies [Demo.a_reply] Demo.hello] None)
              Demo.store "Hello World" Demo.a_reply "data/community"
              [set_Filename "second.JSON" Demo.second] []
              (set_Filename "hello_world.json" Demo.hello)
              ["hello_world.json"] Hwf)
    as (w' & Hrun & _ & Hscan).
  - vm_compute. reflexivity.
  - intros b Hb. apply list_elem_of_singleton in Hb. subst b. discriminate.
  - reflexivity.
  - vm_compute. reflexivity.
  - vm_compute. reflexivity.
  - vm_compute. reflexivity.
  - exists w'. split; [exact Hrun|]. apply Hscan. left. reflexivity.
Defined.

(** ** Package [agents]: the agents file *)

Section AgentsFile.

Import Agents.

Context `{Codec}.

(** A relative path of real names resolves below the working directory. *)
Lemma resolve_relative w l :
  Forall real_elem (cwd w) → Forall real_elem l →
  resolve w (join_sep l) = cwd w ++ l.
Proof.
  intros Hcwd Hl. unfold resolve, Getwd, Abs.
  rewrite IsAbs_join_sep_real, Join_abs_path_real by done.
  apply elements_abs_path. by apply Forall_app.
Qed.

Lemma SaveAgents_paths w l e :
  Forall real_elem (cwd w) → Forall real_elem (l ++ [e]) →
  resolve w (join_sep (l ++ [e])) = (cwd w ++ l) ++ [e] ∧
  resolve w (join_sep (l ++ [e]) +:+ ".tmp") = (cwd w ++ l) ++ [e +:+ ".tmp"].
Proof.
  intros Hcwd Hle. split.
  - rewrite resolve_relative by done. by rewrite (assoc_L (++)).
  - rewrite join_sep_snoc_app, resolve_relative, (assoc_L (++)); [done..|].
    apply Forall_app in Hle as [Hl He]. apply Forall_cons_1 in He as [He _].
    apply Forall_app. split; [done|].
    constructor; [by apply real_elem_tmp|done].
Qed.

End AgentsFile.

(** X13.  [SaveAgents] creates no directory: when the directory of the
    agents file is missing (and no regular file lies on the way to it),
    it returns the error of writing the temporary file and the file
    system is what it was. *)
Theorem X13_save_agents_needs_directory `{Agents.Codec} (w : World)
    (agents : list Agents.Agent) (l : list string) (e data : string) :
  Forall real_elem (cwd w) → Forall real_elem (l ++ [e]) →
  Agents.json_encode_agents agents = Ok data →
  stat (fs w) (cwd w ++ l) = None → free_way (fs w) (cwd w ++ l) →
  Agents.SaveAgents agents (join_sep (l ++ [e])) w
  = (w, Err (Wrap "writing temp file" ENOENT)).
Proof.
  intros Hcwd Hle Henc Hmissing _.
  destruct (SaveAgents_paths w l e Hcwd Hle) as [_ Htmp].
  unfold Agents.SaveAgents, mbind, IO_bind, wrap. rewrite Henc.
  unfold OS.WriteFile. rewrite Htmp.
  unfold OS.parent. by rewrite removelast_snoc, Hmissing.
Qed.

(** X14.  Save, then load: when the directory of the agents file exists
    and no directory sits at the file or at its temporary name,
    [SaveAgents] succeeds, the file system afterwards is the one before
    with the file atomically rewritten (no temporary file is left), and
    [LoadAgents] returns the agents saved; the codec is assumed to decode
    what it encoded. *)
Theorem X14_agents_save_then_load `{Agents.Codec} (w : World)
    (agents : list Agents.Agent) (l : list string) (e data : string) :
  Forall real_elem (cwd w) → Forall real_elem (l ++ [e]) →
  Agents.json_encode_agents agents = Ok data →
  Agents.json_decode_agents data = Some agents →
  stat (fs w) (cwd w ++ l) = Some Directory →
  is_dir (fs w) ((cwd w ++ l) ++ [e +:+ ".tmp"]) = false →
  is_dir (fs w) ((cwd w ++ l) ++ [e]) = false →
  let w' := set_fs (rewrite_file (fs w) ((cwd w ++ l) ++ [e]) data) w in
  Agents.SaveAgents agents (join_sep (l ++ [e])) w = (w', Ok ()) ∧
  Agents.LoadAgents (join_sep (l ++ [e])) w' = (w', Ok agents).
Proof.
  intros Hcwd Hle Henc Hdec Hdir Htmp Hfile w'.
  destruct (SaveAgents_paths w l e Hcwd Hle) as [Hk Hkt].
  set (k := cwd w ++ l) in *.
  split.
  - unfold Agents.SaveAgents, mbind, IO_bind, wrap. rewrite Henc.
    unfold OS.WriteFile at 1. rewrite Hkt.
    unfold OS.parent. rewrite removelast_snoc, Hdir.
    assert (stat (<[k ++ [e +:+ ".tmp"] := RegFile data]> (fs w)) k
            = Some Directory) as Hdir'.
    { destruct k as [|x k']; [done|].
      rewrite stat_nonempty, lookup_insert_ne by
        (try done; intros Heq; apply (f_equal length) in Heq;
         rewrite length_app in Heq; simpl in Heq; lia).
      by rewrite <- (stat_nonempty (fs w)). }
    unfold is_dir in Htmp.
    destruct (stat (fs w) (k ++ [e +:+ ".tmp"])) as [[dt|]|] eqn:Hst; [|done|].
    all: unfold OS.Rename; rewrite (resolve_cwd _ w) by done;
      rewrite (resolve_cwd _ w (join_sep _)) by done; rewrite Hk, Hkt;
      simpl fs; rewrite (stat_snoc _ k (e +:+ ".tmp")), lookup_insert_eq;
      unfold OS.parent; rewrite removelast_snoc, Hdir';
      rewrite stat_snoc, lookup_insert_ne by
        (intros Heq; apply app_inj_tail in Heq as [_ Heq];
         by apply (name_neq_tmp e));
      rewrite <- stat_snoc; unfold is_dir in Hfile;
      destruct (stat (fs w) (k ++ [e])) as [[df|]|]; try done;
      subst w'; unfold rewrite_file, set_fs; simpl; rewrite tmp_key_snoc;
      by rewrite delete_insert_eq.
  - unfold Agents.LoadAgents, OS.ReadAll.
    rewrite (resolve_cwd w' w) by done. rewrite Hk. subst w'. simpl fs.
    by rewrite stat_snoc, lookup_rewrite_file, Hdec.
Qed.

Lemma X13_save_agents_needs_directory_witness :
  stat (fs Demo.empty_store) (cwd Demo.empty_store ++ ["state"]) = None ∧
  @Agents.SaveAgents (DemoSim.codec []) [DemoSim.plato] "state/agents.json"
    Demo.empty_store
  = (Demo.empty_store, Err (Wrap "writing temp file" ENOENT)).
Proof.
  split; [vm_compute; reflexivity|].
  apply (@X13_save_agents_needs_directory (DemoSim.codec []) Demo.empty_store
           [DemoSim.plato] ["state"] "agents.json"
           (DemoSim.show_agents [DemoSim.plato])).
  - apply (bool_decide_unpack _). vm_compute. exact I.
  - apply (bool_decide_unpack _). vm_compute. exact I.
  - reflexivity.
  - vm_compute. reflexivity.
  - apply free_way_take. vm_compute.
    repeat (constructor; [intros data; discriminate|]). constructor.
Defined.

Lemma X14_agents_save_then_load_witness :
  stat (fs Demo.empty_store) (cwd Demo.empty_store ++ ["data"]) = Some Directory ∧
  ∃ w', @Agents.SaveAgents (DemoSim.codec [[DemoSim.plato]]) [DemoSim.plato]
          "data/agents.json" Demo.empty_store = (w', Ok ()) ∧
        @Agents.LoadAgents (DemoSim.codec [[DemoSim.plato]]) "data/agents.json" w'
        = (w', Ok [DemoSim.plato]).
Proof.
  split; [vm_compute; reflexivity|].
  eexists.
  apply (@X14_agents_save_then_load (DemoSim.codec [[DemoSim.plato]])
           Demo.empty_store [DemoSim.plato] ["data"] "agents.json"
           (DemoSim.show_agents [DemoSim.plato])).
  - apply (bool_decide_unpack _). vm_compute. exact I.
  - apply (bool_decide_unpack _). vm_compute. exact I.
  - reflexivity.
  - vm_compute. reflexivity.
  - vm_compute. reflexivity.
  - vm_compute. reflexivity.
  - vm_compute. reflexivity.
Defined.

(** ** One round of the simulator *)

Section Round.

Import Agents Simulator.

Context `{Libs}.

Lemma LoadRecentTopics_5 w dir :
  LoadRecentTopics dir 5 w = (w, Ok (take 5 (scan w dir))).
Proof.
  unfold LoadRecentTopics, mbind, IO_bind. rewrite LoadTopics_scan.
  destruct (5 <? Z.of_nat (length (scan w dir)))%Z eqn:Hlen; simpl; [done|].
  unfold mret, IO_ret. rewrite take_ge; [done|].
  apply Z.ltb_ge in Hlen. lia.
Qed.

(** The scan depends on the working directory and the files only. *)
Lemma scan_same_files w1 w2 dir :
  wf_fs (fs w1) → cwd w1 = cwd w2 → fs w1 = fs w2 →
  scan w1 dir = scan w2 dir.
Proof.
  intros Hwf Hcwd Hfs.
  rewrite !scan_parsed, !parsed_omap by (by rewrite <- ?Hfs).
  rewrite (resolve_cwd w1 w2) by done. rewrite Hfs.
  f_equal. destruct w1, w2. simpl in *. by subst.
Qed.



(** After a successful save the clock has been read once more. *)
Lemma tick_fs w : fs (mkWorld (cwd w) (fs w) (S (ticks w))) = fs w.
Proof. done. Qed.

End Round.

(** X15.  The first round on a store without records creates a topic,
    whatever the draws: when the store directory exists and holds no
    readable record, and the language model answers with a text of ASCII
    bytes without path separator that derives a name at which, and at
    whose temporary name, no directory sits, [performAgentAction] saves
    one record whose title and body are the answer and whose author is
    the agent, and the next scan returns exactly that record, under the
    generated file name; the codec is assumed to decode what it
    encoded. *)
Theorem X15_first_round_creates_topic `{Libs} (draws : Simulator.Draws)
    (agent : Agents.Agent) (w : World) (content : string) :
  wf_fs (fs w) →
  stat (fs w) (resolve w "data/community") = Some Directory →
  scan w "data/community" = [] →
  (∀ prompt, Simulator.GenerateResponse draws prompt = Ok content) →
  has_sep content = false → is_ascii content = true →
  is_dir (fs w) (resolve w "data/community" ++ [derive_filename content +:+ ".tmp"])
  = false →
  is_dir (fs w) (resolve w "data/community" ++ [derive_filename content]) = false →
  let topic := mkTopic content content (Agents.ID agent) 0 0
                       (rfc3339 (ticks w)) [] [] "" in
  json_Decode_topic (json_MarshalIndent topic) = Some topic →
  ∃ w', Simulator.performAgentAction draws agent w = (w', Ok ()) ∧
    ∀ u, u ∈ scan w' "data/community"
         ↔ u = set_Filename (derive_filename content) topic.
Proof.
  intros Hwf Hroot Hscan Hllm Hsep _ Htmp Hfile topic Hcodec.
  set (w1 := mkWorld (cwd w) (fs w) (S (ticks w))).
  assert (resolve w1 "data/community" = resolve w "data/community") as Hres
    by by apply resolve_cwd.
  pose proof (derive_filename_real _ Hsep) as Hreal.
  pose proof (resolve_real w "data/community") as Hrr.
  assert (Forall real_elem [derive_filename content]) as Hre
    by (constructor; [done|constructor]).
  set (w' := set_fs (rewrite_file (fs w1)
                       (resolve w1 "data/community" ++ [derive_filename content])
                       (json_MarshalIndent topic)) w1).
  assert (wf_fs (fs w')) as Hwf'.
  { simpl. rewrite Hres.
    apply wf_fs_rewrite_file; [done| |by apply is_dir_stat|done..].
    by apply Forall_app. }
  exists w'. split.
  - unfold Simulator.performAgentAction, mbind, IO_bind, wrap.
    rewrite LoadRecentTopics_5, Hscan. simpl.
    unfold Simulator.createNewTopic, mbind, IO_bind, wrap.
    rewrite Hllm. unfold time_Now_RFC3339. fold w1. fold topic.
    unfold SaveTopic, mbind, IO_bind.
    rewrite (SaveTopic_fresh w1 "data/community" topic);
      [done|done|by rewrite Hres|done|done|by rewrite Hres..].
  - intros u.
    assert (record_at w' (resolve w1 "data/community") [derive_filename content]
            = Some (set_Filename (derive_filename content) topic)) as Hrec.
    { unfold record_at. simpl fs. rewrite lookup_rewrite_file, last_snoc.
      rewrite derive_filename_json, Hcodec. simpl.
      unfold rel_of. by rewrite decide_False. }
    pose proof (scan_rewrite_file w1 "data/community" [derive_filename content]
                  (json_MarshalIndent topic) _ Hwf Hwf' Hre
                  ltac:(by destruct (resolve w1 "data/community")) Hrec u) as Hs.
    fold w' in Hs. rewrite Hs.
    rewrite (scan_same_files w1 w) by done. rewrite Hscan.
    split; [intros [?|[[]%elem_of_nil _]]; done|by left].
Qed.

(** X16.  A round whose generation fails writes nothing: when no regular
    file lies on the way to the store directory, so that the scan does
    not fail, and the language model returns an error,
    [performAgentAction] returns that error, wrapped as a failed topic or
    a failed reply, and the file system and the clock are what they
    were. *)
Theorem X16_failed_generation_writes_nothing `{Libs} (draws : Simulator.Draws)
    (agent : Agents.Agent) (w : World) (e : error) :
  free_way (fs w) (resolve w "data/community") →
  (∀ prompt, Simulator.GenerateResponse draws prompt = Err e) →
  Simulator.performAgentAction draws agent w
  = (w, Err (Wrap (if (length (scan w "data/community") =? 0)
                      || Simulator.create_roll draws
                   then "generating topic" else "generating reply") e)).
Proof.
  intros _ Hllm.
  unfold Simulator.performAgentAction, mbind, IO_bind, wrap.
  rewrite LoadRecentTopics_5. unfold Simulator.decideAction.
  assert ((length (take 5 (scan w "data/community")) =? 0)
          = (length (scan w "data/community") =? 0)) as ->.
  { by destruct (scan w "data/community"). }
  destruct ((length (scan w "data/community") =? 0)
            || Simulator.create_roll draws) eqn:Hact; simpl.
  - unfold Simulator.createNewTopic, mbind, IO_bind, wrap. by rewrite Hllm.
  - apply orb_false_iff in Hact as [Hlen _].
    destruct (scan w "data/community") as [|t0 l]; [done|]. simpl.
    unfold Simulator.replyToTopic, mbind, IO_bind, wrap. by rewrite Hllm.
Qed.


Lemma X15_first_round_creates_topic_witness :
  wf_fs (fs Demo.empty_store) ∧
  ∃ w', @Simulator.performAgentAction (Demo.libs [DemoSim.first_topic] None)
          (DemoSim.answers "What is justice" false 3) DemoSim.plato
          Demo.empty_store = (w', Ok ()) ∧
        set_Filename "what_is_justice.json" DemoSim.first_topic
        ∈ @scan (Demo.libs [DemoSim.first_topic] None) w' "data/community".
Proof.
  assert (wf_fs (fs Demo.empty_store)) as Hwf.
  { apply (bool_decide_unpack _). vm_compute. exact I. }
  split; [exact Hwf|].
  destruct (@X15_first_round_creates_topic (Demo.libs [DemoSim.first_topic] None)
              (DemoSim.answers "What is justice" false 3) DemoSim.plato
              Demo.empty_store "What is justice" Hwf)
    as (w' & Hrun & Hscan).
  - vm_compute. reflexivity.
  - vm_compute. reflexivity.
  - intros prompt. reflexivity.
  - reflexivity.
  - reflexivity.
  - vm_compute. reflexivity.
  - vm_compute. reflexivity.
  - vm_compute. reflexivity.
  - exists w'. split; [exact Hrun|]. apply Hscan. reflexivity.
Defined.

Lemma X16_failed_generation_writes_nothing_witness :
  free_way (fs Demo.store) (resolve Demo.store "data/community") ∧
  @Simulator.performAgentAction Demo.store_libs (DemoSim.silent false 3)
    DemoSim.plato Demo.store
  = (Demo.store,
     Err (Wrap "generating reply" (Errorf "making HTTP request"))).
Proof.
  assert (free_way (fs Demo.store) (resolve Demo.store "data/community"))
    as Hway.
  { apply free_way_take. vm_compute.
    repeat (constructor; [intros data; discriminate|]). constructor. }
  split; [exact Hway|].
  rewrite (@X16_failed_generation_writes_nothing Demo.store_libs
             (DemoSim.silent false 3) DemoSim.plato Demo.store
             (Errorf "making HTTP request") Hway).
  - vm_compute. reflexivity.
  - intros prompt. reflexivity.
Defined.


(** ** The web interface: from the index to a topic *)

Section Links.

Context `{Libs}.

(** A record of the scan is found again under its location. *)
Lemma scan_record_load w dir t :
  wf_fs (fs w) → t ∈ scan w dir →
  LoadTopicByRelativePath dir (Filename t) w
  = (w, if HasPrefix (Filename t) ".."
        then Err (Errorf ("invalid topic path: " +:+ Filename t))
        else Ok t).
Proof.
  intros Hwf Hin.
  apply elem_of_scan in Hin as (rest & Hrest & Hrec); [|done].
  rewrite (record_at_Filename _ _ _ _ Hrec) in *.
  destruct (HasPrefix (rel_of rest) "..") eqn:Hdots.
  - unfold LoadTopicByRelativePath. by rewrite Clean_rel_of, Hdots.
  - rewrite (LoadTopicByRelativePath_below w dir rest).
    + fold (rel_of rest). by rewrite (read_topic_at_record w _ rest t).
    + done.
    + by rewrite Clean_rel_of.
    + rewrite Clean_rel_of, Abs_abs_path by done.
      apply Join_rel_of; [apply resolve_real|done].
Qed.

Lemma TrimPrefix_slash s : Server.TrimPrefix (String "/" s) "/" = s.
Proof. done. Qed.

Lemma TrimPrefix_relative s : IsAbs s = false → Server.TrimPrefix s "/" = s.
Proof. unfold Server.TrimPrefix, IsAbs. by intros ->. Qed.

End Links.

(** X18.  The index page and the topic page.  The index handler lists
    the records of the scan, in scan order, with their number, and gives
    each record the link [/topic/] followed by its location, byte for
    byte: [toURLPath] escapes nothing.  The topic handler, called with a
    path parameter that is the location of a listed record behind at
    most one leading slash, answers with the page of that very record,
    which carries the link of the index; only for a location that begins
    with [..] it answers 404.  Which parameter a request for the link
    yields is a matter of the router and of URL parsing (a [?] or [#] in
    a file name ends the path there) and is no part of the statement. *)
Theorem X18_index_links `{Libs} (formatTime buildSnippet : string → string)
    (w : World) (t : Topic) :
  wf_fs (fs w) → t ∈ scan w "data/community" →
  Server.index_handler formatTime buildSnippet w
  = (w, Server.HTML 200 "index.tmpl"
          (Server.IndexPage
             (map (Server.summary formatTime buildSnippet)
                  (scan w "data/community"))
             (Z.of_nat (length (scan w "data/community"))))) ∧
  Server.SumPath (Server.summary formatTime buildSnippet t)
  = "/topic/" +:+ Filename t ∧
  (∀ param,
     Server.TrimPrefix param "/" = Filename t →
     Server.topic_handler formatTime param w
     = (w, if HasPrefix (Filename t) ".."
           then Server.String_ 404 "topic not found: %v"
                  (Errorf ("invalid topic path: " +:+ Filename t))
           else Server.HTML 200 "topic.tmpl"
                  (Server.TopicPage
                     (Server.mkDetail (Title t) (Body t) (Author t)
                        (Timestamp t) (formatTime (Timestamp t)) (Tags t)
                        (Replies t))
                     (Filename t) ("/topic/" +:+ Filename t)))).
Proof.
  intros Hwf Hin.
  pose proof Hin as (rest & Hrest & Hrec)%elem_of_scan; [|done].
  pose proof (record_at_Filename _ _ _ _ Hrec) as Hloc.
  destruct (rel_of_props rest Hrest) as [Hne Hrel]. rewrite <- Hloc in Hne, Hrel.
  assert (Server.toURLPath (Filename t) = "/topic/" +:+ Filename t) as Hlink.
  { unfold Server.toURLPath, Server.ToSlash.
    by rewrite decide_False, TrimPrefix_relative. }
  split_and!.
  - unfold Server.index_handler. rewrite LoadTopics_scan.
    by rewrite length_map.
  - done.
  - intros param Hparam. unfold Server.topic_handler. rewrite Hparam.
    rewrite decide_False by done.
    rewrite scan_record_load by done.
    destruct (HasPrefix (Filename t) ".."); [done|].
    by rewrite Hlink.
Qed.

Lemma X18_index_links_witness :
  wf_fs (fs Demo.store) ∧
  @Server.topic_handler Demo.store_libs id "/second.JSON" Demo.store
  = (Demo.store,
     Server.HTML 200 "topic.tmpl"
       (Server.TopicPage
          (Server.mkDetail "Second" "b2" "kant" "2024-01-02T00:00:00Z"
             "2024-01-02T00:00:00Z" ["x"] [])
          "second.JSON" "/topic/second.JSON")).
Proof.
  assert (wf_fs (fs Demo.store)) as Hwf.
  { apply (bool_decide_unpack _). vm_compute. exact I. }
  split; [exact Hwf|].
  destruct (@X18_index_links Demo.store_libs id id Demo.store
              (set_Filename "second.JSON" Demo.second) Hwf)
    as (_ & _ & Hpage).
  - vm_compute. left.
  - apply Hpage. reflexivity.
Defined.

(** ** The earlier version of the store *)

Section LegacyFacts.

Context `{Libs}.

(** The two steps of the atomic write, for a file in an existing
    directory. *)
Lemma atomic_write w path tempFile data k e :
  resolve w path = k ++ [e] → resolve w tempFile = k ++ [e +:+ ".tmp"] →
  stat (fs w) k = Some Directory →
  is_dir (fs w) (k ++ [e +:+ ".tmp"]) = false →
  is_dir (fs w) (k ++ [e]) = false →
  (wrap "writing temp file" (OS.WriteFile tempFile data) ;;
   wrap "renaming temp file" (OS.Rename tempFile path) ;;
   mret ()) w
  = (set_fs (rewrite_file (fs w) (k ++ [e]) data) w, Ok ()).
Proof.
  intros Hk Hkt Hdir Htmp Hfile.
  unfold mbind, IO_bind, wrap.
  unfold OS.WriteFile at 1. rewrite Hkt.
  unfold OS.parent. rewrite removelast_snoc, Hdir.
  assert (stat (<[k ++ [e +:+ ".tmp"] := RegFile data]> (fs w)) k
          = Some Directory) as Hdir'.
  { destruct k as [|x k']; [done|].
    rewrite stat_nonempty, lookup_insert_ne by
      (try done; intros Heq; apply (f_equal length) in Heq;
       rewrite length_app in Heq; simpl in Heq; lia).
    by rewrite <- (stat_nonempty (fs w)). }
  unfold is_dir in Htmp.
  destruct (stat (fs w) (k ++ [e +:+ ".tmp"])) as [[dt|]|] eqn:Hst; [|done|].
  all: unfold OS.Rename; rewrite (resolve_cwd _ w tempFile) by done;
    rewrite (resolve_cwd _ w path) by done; rewrite Hk, Hkt;
    simpl fs; rewrite (stat_snoc _ k (e +:+ ".tmp")), lookup_insert_eq;
    unfold OS.parent; rewrite removelast_snoc, Hdir';
    rewrite stat_snoc, lookup_insert_ne by
      (intros Heq; apply app_inj_tail in Heq as [_ Heq];
       by apply (name_neq_tmp e));
    rewrite <- stat_snoc; unfold is_dir in Hfile;
    destruct (stat (fs w) (k ++ [e])) as [[df|]|]; try done;
    unfold rewrite_file, set_fs; simpl; rewrite tmp_key_snoc;
    by rewrite delete_insert_eq.
Qed.

Lemma join_sep_snoc l e :
  l ≠ [] → join_sep l +:+ "/" +:+ e = join_sep (l ++ [e]).
Proof. intros Hl. by rewrite join_sep_app. Qed.

(** The path of an entry of a directory given relative to the working
    directory. *)
Lemma Join_relative l e :
  Forall real_elem l → l ≠ [] → real_elem e →
  Join (join_sep l) e = join_sep (l ++ [e]).
Proof.
  intros Hl Hne He. unfold Join.
  rewrite decide_False by by apply join_sep_real_nonempty.
  rewrite join_sep_snoc by done.
  apply Clean_join_sep_real; [|by destruct l].
  apply Forall_app. split; [done|]. by constructor.
Qed.

Lemma Legacy_loadTopic_at w path :
  Legacy.loadTopic path w
  = (w, match stat (fs w) (resolve w path) with
        | None => Err (Wrap "opening topic file" ENOENT)
        | Some Directory => Err (Wrap "decoding topic JSON" EISDIR)
        | Some (RegFile data) =>
            match json_Decode_topic data with
            | None => Err (Wrap "decoding topic JSON" EJSON)
            | Some topic => Ok topic
            end
        end).
Proof.
  unfold Legacy.loadTopic, OS.ReadAll.
  destruct (stat (fs w) (resolve w path)) as [[data|]|]; [|done..].
  by destruct (json_Decode_topic data).
Qed.

(** The loop of the earlier [AddReplyToTopic] stops at the one entry
    that matches. *)
Lemma Legacy_loop_match files : ∀ w dir title reply name t,
  name ∈ files →
  HasSuffix name ".json" = true →
  (Legacy.loadTopic (Join dir name) w).2 = Ok t → Title t = title →
  (∀ name' t', name' ∈ files → name' ≠ name →
     HasSuffix name' ".json" = true →
     (Legacy.loadTopic (Join dir name') w).2 = Ok t' → Title t' ≠ title) →
  Legacy.AddReply_loop files title reply dir w
  = Legacy.SaveTopic (set_Replies (Replies t ++ [reply]) t) dir w.
Proof.
  induction files as [|f files IH]; intros w dir title reply name t
    Hin Hsuf Hload Ht Hothers; [by apply elem_of_nil in Hin|].
  simpl. destruct (decide (f = name)) as [->|Hne].
  - rewrite Hsuf. rewrite Legacy_loadTopic_at in *. simpl in Hload.
    rewrite Hload. by rewrite decide_True.
  - apply elem_of_cons in Hin as [->|Hin]; [done|].
    assert (Legacy.AddReply_loop files title reply dir w
            = Legacy.SaveTopic (set_Replies (Replies t ++ [reply]) t) dir w)
      as Hrest.
    { apply (IH w dir title reply name t); [done..|].
      intros name' t' Hin'. apply Hothers. by right. }
    destruct (HasSuffix f ".json") eqn:Hf; [|done].
    pose proof (Hothers f) as Hf'. rewrite Legacy_loadTopic_at in *.
    simpl in Hf'.
    destruct (match stat (fs w) (resolve w (Join dir f)) with
              | Some (RegFile data) => _ | Some Directory => _ | None => _
              end) as [t'|err]; [|done].
    rewrite decide_False; [done|]. apply Hf'; [by left|done..].
Qed.

Lemma not_json_tmp e : HasSuffix (e +:+ ".tmp") ".json" = false.
Proof. unfold HasSuffix. by rewrite rev_app_s. Qed.

End LegacyFacts.

(** X19.  The limit of the earlier [LoadRecentTopics].  On an existing
    directory a negative limit makes it panic, the limit 0 returns no
    record, and a positive limit returns at most that many; on a missing
    directory (no regular file on the way to it) it returns an error. *)
Theorem X19_legacy_recent_limits `{Libs} (w : World) (dir : string) (limit : Z) :
  (stat (fs w) (resolve w dir) = Some Directory →
   ((limit < 0)%Z →
    Legacy.LoadRecentTopics dir limit w
    = (w, Legacy.Panic "slice bounds out of range")) ∧
   (limit = 0%Z →
    Legacy.LoadRecentTopics dir limit w = (w, Legacy.Returned (Ok []))) ∧
   ((0 < limit)%Z →
    ∃ topics, Legacy.LoadRecentTopics dir limit w
              = (w, Legacy.Returned (Ok topics)) ∧
              (Z.of_nat (length topics) ≤ limit)%Z)) ∧
  (stat (fs w) (resolve w dir) = None → free_way (fs w) (resolve w dir) →
   Legacy.LoadRecentTopics dir limit w
   = (w, Legacy.Returned (Err (Wrap "reading community directory" ENOENT)))).
Proof.
  split.
  - intros Hdir.
    unfold Legacy.LoadRecentTopics, Legacy.ReadDir, OS.ReadDir. rewrite Hdir.
    set (topics := sort_Slice newer _). split_and!.
    + intros Hneg.
      destruct (limit <? Z.of_nat (length topics))%Z eqn:Hlt;
        [|apply Z.ltb_ge in Hlt; lia].
      by destruct (limit <? 0)%Z eqn:H0; [|apply Z.ltb_ge in H0; lia].
    + intros ->. destruct (0 <? Z.of_nat (length topics))%Z eqn:Hlt; [done|].
      apply Z.ltb_ge in Hlt. by destruct topics.
    + intros Hpos.
      destruct (limit <? Z.of_nat (length topics))%Z eqn:Hlt.
      * destruct (limit <? 0)%Z eqn:H0; [apply Z.ltb_lt in H0; lia|].
        eexists. split; [done|]. rewrite length_take. lia.
      * apply Z.ltb_ge in Hlt. by eexists.
  - intros Hmissing _.
    unfold Legacy.LoadRecentTopics, Legacy.ReadDir, OS.ReadDir.
    by rewrite Hmissing.
Qed.

(** X20.  The earlier [AddReplyToTopic] writes to the file the title
    derives, not to the file it has read: when one entry of the
    directory holds the topic, whose title is of ASCII bytes without path
    separator, and no directory sits at the derived name or at its
    temporary name, the record with the reply appended is
    written under the derived name, and when the entry bears another
    name it is left as it was, next to the new file. *)
Theorem X20_legacy_reply_file `{Libs} (w : World) (l : list string)
    (name data title : string) (t : Topic) (reply : Reply) :
  wf_fs (fs w) → Forall real_elem (cwd w) → Forall real_elem l → l ≠ [] →
  fs w !! ((cwd w ++ l) ++ [name]) = Some (RegFile data) →
  HasSuffix name ".json" = true →
  json_Decode_topic data = Some t → Title t = title →
  (∀ name' data' t', name' ≠ name →
     fs w !! ((cwd w ++ l) ++ [name']) = Some (RegFile data') →
     HasSuffix name' ".json" = true →
     json_Decode_topic data' = Some t' → Title t' ≠ title) →
  has_sep title = false → is_ascii title = true →
  is_dir (fs w) ((cwd w ++ l) ++ [derive_filename title +:+ ".tmp"]) = false →
  is_dir (fs w) ((cwd w ++ l) ++ [derive_filename title]) = false →
  let t' := set_Replies (Replies t ++ [reply]) t in
  let w' := set_fs (rewrite_file (fs w) ((cwd w ++ l) ++ [derive_filename title])
                      (json_MarshalIndent t')) w in
  Legacy.AddReplyToTopic title reply (join_sep l) w = (w', Ok ()) ∧
  fs w' !! ((cwd w ++ l) ++ [derive_filename title])
  = Some (RegFile (json_MarshalIndent t')) ∧
  (name ≠ derive_filename title →
   fs w' !! ((cwd w ++ l) ++ [name]) = Some (RegFile data)).
Proof.
  intros Hwf Hcwd Hl Hne Hfile Hsuf Hdec Ht Hothers Hsep _ Htmp Htarget t' w'.
  set (root := cwd w ++ l) in *.
  assert (resolve w (join_sep l) = root) as Hres by by apply resolve_relative.
  assert (stat (fs w) root = Some Directory) as Hroot.
  { apply (wf_fs_ancestors _ root [name]); [done..|]. by rewrite Hfile. }
  assert (∀ e, real_elem e → resolve w (Join (join_sep l) e) = root ++ [e])
    as Hentry.
  { intros e He.
    assert (Forall real_elem (l ++ [e])) as Hle
      by (apply Forall_app; split; [done|by constructor]).
    rewrite Join_relative by done. rewrite resolve_relative by done.
    by rewrite (assoc_L (++)). }
  assert (∀ e, is_Some (fs w !! (root ++ [e])) → real_elem e) as Hreal.
  { intros e He. apply wf_fs_real in He; [|done].
    apply Forall_app in He as [_ He]. by apply Forall_cons_1 in He as [? _]. }
  pose proof (derive_filename_real _ Hsep) as Hderived.
  split_and!.
  - unfold Legacy.AddReplyToTopic, mbind, IO_bind, wrap.
    unfold Legacy.ReadDir, OS.ReadDir. rewrite Hres, Hroot.
    rewrite (Legacy_loop_match _ w (join_sep l) title reply name t).
    + (* the save *)
      unfold Legacy.SaveTopic.
      unfold mbind at 1. unfold IO_bind at 1. unfold wrap at 1.
      unfold OS.MkdirAll. rewrite Hres.
      rewrite mkdir_all_present, set_fs_id by
        (intros p _ Hp; by apply (wf_fs_dirs_to (fs w) root)).
      change (Title (set_Replies (Replies t ++ [reply]) t)) with (Title t).
      rewrite Ht.
      apply atomic_write; [by apply Hentry| |done..].
      assert (Forall real_elem (l ++ [derive_filename title +:+ ".tmp"])) as Hlt.
      { apply Forall_app; split; [done|].
        constructor; [by apply real_elem_tmp|done]. }
      rewrite Join_relative by done.
      rewrite join_sep_snoc_app, resolve_relative by done.
      by rewrite (assoc_L (++)).
    + rewrite merge_sort_Permutation. apply elem_of_children.
      by rewrite Hfile.
    + done.
    + rewrite Legacy_loadTopic_at. simpl.
      rewrite Hentry by (apply Hreal; by rewrite Hfile).
      by rewrite stat_snoc, Hfile, Hdec.
    + done.
    + intros name' t0 Hin Hneq Hsuf' Hload.
      rewrite merge_sort_Permutation in Hin. apply elem_of_children in Hin.
      rewrite Legacy_loadTopic_at in Hload. simpl in Hload.
      rewrite Hentry, stat_snoc in Hload by by apply Hreal.
      destruct (fs w !! (root ++ [name'])) as [[data'|]|] eqn:Hfile'; [|done..].
      destruct (json_Decode_topic data') as [t1|] eqn:Hdec'; [|done].
      injection Hload as ->. by apply (Hothers name' data' t0).
  - subst w'. simpl. apply lookup_rewrite_file.
  - intros Hname. subst w'. simpl.
    rewrite lookup_rewrite_file_ne; [done| |].
    + intros Heq. by apply app_inj_tail in Heq as [_ ?].
    + rewrite tmp_key_snoc. intros Heq. apply app_inj_tail in Heq as [_ ->].
      by rewrite not_json_tmp in Hsuf.
Qed.

Lemma X19_legacy_recent_limits_witness :
  stat (fs Demo.store) (resolve Demo.store "data/community") = Some Directory ∧
  @Legacy.LoadRecentTopics Demo.store_libs "data/community" (-1) Demo.store
  = (Demo.store, Legacy.Panic "slice bounds out of range").
Proof.
  assert (stat (fs Demo.store) (resolve Demo.store "data/community")
          = Some Directory) as Hdir by (vm_compute; reflexivity).
  split; [exact Hdir|].
  destruct (@X19_legacy_recent_limits Demo.store_libs Demo.store
              "data/community" (-1)) as [Hexists _].
  destruct (Hexists Hdir) as (Hneg & _). apply Hneg. reflexivity.
Defined.

Lemma X20_legacy_reply_file_witness :
  wf_fs (fs DemoSim.misnamed_store) ∧
  (let r := @Legacy.AddReplyToTopic
              (Demo.libs [Demo.hello; set_Replies [Demo.a_reply] Demo.hello] None)
              "Hello World" Demo.a_reply "data/community"
              DemoSim.misnamed_store in
   r.2 = Ok () ∧
   fs r.1 !! (Demo.root ++ ["first.json"])
   = Some (RegFile (Demo.show_topic Demo.hello)) ∧
   fs r.1 !! (Demo.root ++ ["hello_world.json"])
   = Some (RegFile (Demo.show_topic (set_Replies [Demo.a_reply] Demo.hello)))).
Proof.
  assert (wf_fs (fs DemoSim.misnamed_store)) as Hwf.
  { apply (bool_decide_unpack _). vm_compute. exact I. }
  split; [exact Hwf|]. cbv zeta.
  destruct (@X20_legacy_reply_file
              (Demo.libs [Demo.hello; set_Replies [Demo.a_reply] Demo.hello] None)
              DemoSim.misnamed_store ["data"; "community"] "first.json"
              (Demo.show_topic Demo.hello) "Hello World" Demo.hello
              Demo.a_reply Hwf) as (Hrun & Hnew & Hold).
  - apply (bool_decide_unpack _). vm_compute. exact I.
  - apply (bool_decide_unpack _). vm_compute. exact I.
  - discriminate.
  - vm_compute. reflexivity.
  - reflexivity.
  - vm_compute. reflexivity.
  - reflexivity.
  - intros name' data' t' Hne Hfile _ _. exfalso. apply Hne.
    assert (name' ∈ OS.children (fs DemoSim.misnamed_store)
                      (cwd DemoSim.misnamed_store ++ ["data"; "community"]))
      as Hin by (apply elem_of_children; rewrite Hfile; by eexists).
    clear -Hin. vm_compute in Hin.
    inversion Hin as [|? ? ? Hin']; [reflexivity|]. inversion Hin'.
  - reflexivity.
  - reflexivity.
  - vm_compute. reflexivity.
  - vm_compute. reflexivity.
  - change "data/community" with (join_sep ["data"; "community"]).
    rewrite Hrun. split; [reflexivity|]. split.
    + apply Hold. vm_compute. discriminate.
    + exact Hnew.
Defined.

(** ** Names that begin with two dots *)

Section LeadingDots.

Context `{Libs}.

Lemma HasPrefix_dots_sep sub r :
  sub ≠ "" → HasPrefix sub ".." = false →
  HasPrefix (sub +:+ String "/" r) ".." = false.
Proof.
  intros Hne Hsub. destruct sub as [|a [|b sub]]; [done| |].
  - rewrite app_cons_s. simpl. by destruct (Ascii.eqb "." a).
  - by rewrite !app_cons_s.
Qed.

Lemma Join_abs_path_rooted k rest :
  Forall real_elem k → Forall real_elem rest →
  Join (abs_path k) (abs_path rest) = abs_path (k ++ rest).
Proof.
  intros Hk Hrest. rewrite Join_abs_path.
  unfold Clean, clean_elems.
  rewrite IsAbs_abs_path_app, split_sep_app_sep, foldl_app.
  rewrite clean_elems_abs_path by by apply Forall_real_plain.
  rewrite clean_elems_abs_path by by apply Forall_real_plain.
  unfold render. rewrite !filter_real_all by done.
  simpl. by rewrite app_nil_r, rev_app_distr, !rev_involutive.
Qed.

(** A rooted identifier of one name is read at that name below the
    root. *)
Lemma LoadTopicByRelativePath_slash w dir name :
  real_elem name →
  LoadTopicByRelativePath dir ("/" +:+ name) w
  = (w, read_topic_at w (resolve w dir ++ [name]) name).
Proof.
  intros Hname.
  assert (Forall real_elem [name]) as Hreal by (constructor; [done|constructor]).
  change ("/" +:+ name) with (abs_path [name]).
  apply (LoadTopicByRelativePath_below w dir [name]); [done| |].
  - rewrite Clean_abs_path, abs_path_cons by done. reflexivity.
  - rewrite Clean_abs_path, Abs_abs_path by done.
    apply Join_abs_path_rooted; [apply resolve_real|done].
Qed.

(** A relative identifier of real names whose first name does not begin
    with two dots is read at those names below the root. *)
Lemma LoadTopicByRelativePath_nested w dir sub name :
  real_elem sub → HasPrefix sub ".." = false → real_elem name →
  LoadTopicByRelativePath dir (join_sep [sub; name]) w
  = (w, read_topic_at w (resolve w dir ++ [sub; name]) (join_sep [sub; name])).
Proof.
  intros Hsub Hdots Hname.
  assert (Forall real_elem [sub; name]) as Hreal
    by (constructor; [done|constructor; [done|constructor]]).
  apply (LoadTopicByRelativePath_below w dir [sub; name]); [done| |].
  - rewrite Clean_join_sep_real by done.
    apply HasPrefix_dots_sep; [by destruct Hsub|done].
  - rewrite Clean_join_sep_real, Abs_abs_path by done.
    apply Join_abs_path_real; [apply resolve_real|done].
Qed.

End LeadingDots.

(** C10 (as amended).  Every identifier whose cleaned form begins with
    the two bytes [..] is refused, also when it names a place inside the
    store: [..topic.json] is a real file name, [<root>/..topic.json] lies
    directly under the root, and the identifier [..topic.json] is
    refused, as is every relative identifier that designates a place
    under a top-level name beginning with [..].  Such a file is not
    unreachable, though: an identifier with a leading slash is cleaned as
    a rooted path, which never begins with [..], and is read below the
    root, so [/..topic.json] reads [<root>/..topic.json]; and a name
    beginning with [..] below a subdirectory is read through its
    relative path. *)
Theorem C10_leading_dots_refused `{Libs} (w : World) (dir : string) :
  (∀ relPath,
     HasPrefix (Clean relPath) ".." = true →
     LoadTopicByRelativePath dir relPath w
     = (w, Err (Errorf ("invalid topic path: " +:+ relPath)))) ∧
  (real_elem "..topic.json" ∧
   Join (Abs (Getwd w) dir) "..topic.json"
   = abs_path (resolve w dir ++ ["..topic.json"]) ∧
   LoadTopicByRelativePath dir "..topic.json" w
   = (w, Err (Errorf "invalid topic path: ..topic.json"))) ∧
  (∀ relPath name rest,
     IsAbs relPath = false →
     HasPrefix name ".." = true →
     Forall real_elem (name :: rest) →
     Join (Abs (Getwd w) dir) (Clean relPath)
     = abs_path (resolve w dir ++ name :: rest) →
     LoadTopicByRelativePath dir relPath w
     = (w, Err (Errorf ("invalid topic path: " +:+ relPath)))) ∧
  (∀ name,
     real_elem name →
     LoadTopicByRelativePath dir ("/" +:+ name) w
     = (w, read_topic_at w (resolve w dir ++ [name]) name)) ∧
  (∀ sub name,
     real_elem sub → HasPrefix sub ".." = false → real_elem name →
     LoadTopicByRelativePath dir (join_sep [sub; name]) w
     = (w, read_topic_at w (resolve w dir ++ [sub; name])
             (join_sep [sub; name]))).
Proof.
  assert (∀ relPath, HasPrefix (Clean relPath) ".." = true →
     LoadTopicByRelativePath dir relPath w
     = (w, Err (Errorf ("invalid topic path: " +:+ relPath)))) as Hrefuse.
  { intros relPath Hpre. unfold LoadTopicByRelativePath. by rewrite Hpre. }
  assert (real_elem "..topic.json") as Hreal by done.
  split_and!; [done|done| |done| | |].
  - rewrite Abs_abs_path.
    apply Join_abs_path_name; [apply resolve_real|done].
  - intros relPath name rest Hrel Hname Hall Hjoin. apply Hrefuse.
    destruct (HasPrefix (Clean relPath) "..") eqn:Hpre; [done|].
    rewrite Abs_abs_path in Hjoin.
    destruct (Join_Clean_below (resolve w dir) relPath)
      as (l & Hnil & Hl & Hc & Hj); [apply resolve_real|done|].
    assert (Forall real_elem (filter real_elem l)) as Hf
      by (apply Forall_forall; intros e [? _]%list_elem_of_filter; done).
    rewrite Hj in Hjoin. apply abs_path_inj in Hjoin;
      [|apply Forall_app; split; [apply resolve_real|done]..].
    apply app_inv_head in Hjoin.
    (* the cleaned path is relative, so its first element is [name] *)
    destruct (Clean_cases relPath) as (u & stk & Hstk & _ & Hcl).
    rewrite Hrel in Hcl.
    assert (u = 0) as ->.
    { destruct u as [|u]; [done|]. rewrite Hcl, render_ups in Hpre by lia. done. }
    unfold render in Hcl. simpl in Hcl.
    assert (rev stk = name :: rest) as Hstk'.
    { rewrite <- Hjoin. rewrite Hc in Hcl.
      case_decide as Hempty.
      - assert (rev stk = []) as Hk.
        { destruct (rev stk) eqn:E; [done|].
          apply join_sep_real_nonempty in Hempty; [done| |done].
          rewrite <- E. by apply Forall_rev. }
        assert (l = ["."]) as ->; [|by rewrite Hk].
        rewrite <- (split_sep_join l), Hcl by (by try apply plain_no_sep). done.
      - assert (l = rev stk) as ->.
        { rewrite <- (split_sep_join l), Hcl by (by try apply plain_no_sep).
          apply split_sep_join; [by intros E; rewrite E in Hempty|].
          apply Forall_real_no_sep. by apply Forall_rev. }
        symmetry. apply filter_real_all. by apply Forall_rev. }
    rewrite Hstk' in Hcl.
    assert (join_sep (name :: rest) ≠ "") as Hne
      by (by apply join_sep_real_nonempty).
    rewrite decide_False in Hcl by done.
    rewrite Hcl, HasPrefix_join_sep in Hpre by done. done.
  - intros name Hname. by apply LoadTopicByRelativePath_slash.
  - intros sub name Hsub Hdots Hname. by apply LoadTopicByRelativePath_nested.
Qed.

(** The claim as stated fails: the record file [..topic.json] directly
    under the root is refused under its own name but is read through the
    identifier [/..topic.json], and [sub/..x.json] is accepted. *)
Lemma C10_counterexample :
  @LoadTopicByRelativePath Demo.store_libs "data/community" "..topic.json"
    Demo.dotted_store
  = (Demo.dotted_store, Err (Errorf "invalid topic path: ..topic.json")) ∧
  @LoadTopicByRelativePath Demo.store_libs "data/community" "/..topic.json"
    Demo.dotted_store
  = (Demo.dotted_store, Ok (set_Filename "..topic.json" Demo.hello)) ∧
  HasPrefix (Clean "sub/..x.json") ".." = false.
Proof. vm_compute. split_and!; reflexivity. Qed.
